(** * plist::XMLParser — the construction automaton of Sources/plist/XMLParser.cpp

    A shallow embedding of the element-driven automaton that builds a
    property-list tree from the events of a SAX-style driver, together with
    the properties of its stack discipline, key/value pairing, character-data
    buffering, leaf coercion and failure rollback.

    C++ objects live in an explicit store and are referred to by pointers, so
    that the aliasing between the root handle, the current node and the saved
    frames is the one of the program.  Handlers run in a state monad whose
    outcomes are a normal return, a C++ exception, or undefined behaviour
    (a method call through a null pointer, [back()] on an empty vector,
    a release of a destroyed object). *)

From Stdlib Require Import ZArith Ascii String List Lia Bool.
From stdpp Require Import base option list.

Set Warnings "-register-all".

Local Open Scope string_scope.
Local Open Scope Z_scope.
Local Open Scope nat_scope.
Local Open Scope list_scope.

(** ** The C and C++ standard library functions the automaton calls *)

Inductive exception : Set :=
| invalid_argument
| out_of_range.

(** Result of [std::stoi] and [std::stod]: a value or a thrown exception. *)
Inductive conversion (A : Type) : Type :=
| Value (v : A)
| Raises (e : exception).
Arguments Value {A} v.
Arguments Raises {A} e.

(** [isspace] in the C locale: space, and the controls 9 to 13. *)
Definition isspace (c : ascii) : bool :=
  let n := nat_of_ascii c in
  (n =? 32) || ((9 <=? n) && (n <=? 13)).

(** The C standard specifies [isspace] for the values of [unsigned char] and
    for [EOF].  [onCharacterData] passes it a plain [char]: where that type
    is signed, a byte from 0x80 on arrives as a negative number, for which
    the standard leaves the behaviour undefined.  [isspace] above is what
    the C libraries return for every byte; [isspace_specified] tells the
    bytes for which the standard says so whatever the implementation (the
    byte 0xFF can arrive as [EOF], whose value the standard does not fix: it
    is counted with the other bytes from 0x80 on). *)
Definition isspace_specified (c : ascii) : bool :=
  nat_of_ascii c <? 128.

Definition isdigit (c : ascii) : bool :=
  let n := nat_of_ascii c in
  (48 <=? n) && (n <=? 57).

Definition digit_value (c : ascii) : Z :=
  Z.of_nat (nat_of_ascii c - 48).

Fixpoint skip_spaces (s : string) : string :=
  match s with
  | String c s' => if isspace c then skip_spaces s' else s
  | EmptyString => s
  end.

(** The longest prefix of decimal digits: its value (after [acc]), how many
    digits were read, and the rest of the text. *)
Fixpoint read_digits (s : string) (acc : Z) (count : nat) : Z * nat * string :=
  match s with
  | String c s' =>
      if isdigit c then read_digits s' (10 * acc + digit_value c)%Z (S count)
      else (acc, count, s)
  | EmptyString => (acc, count, s)
  end.

(** An optional sign: [true] for a minus. *)
Definition read_sign (s : string) : bool * string :=
  match s with
  | String "-" s' => (true, s')
  | String "+" s' => (false, s')
  | _ => (false, s)
  end.

Definition INT_MIN : Z := (- 2 ^ 31)%Z.
Definition INT_MAX : Z := (2 ^ 31 - 1)%Z.

(** [std::stoi(str)] (base 10): leading white space is skipped, then an
    optional sign and the longest run of digits are read; what follows the
    digits is ignored.  No digit at all throws [std::invalid_argument], a value
    that does not fit an [int] throws [std::out_of_range]. *)
Definition stoi (str : string) : conversion Z :=
  let '(negative, s) := read_sign (skip_spaces str) in
  let '(magnitude, count, _) := read_digits s 0%Z 0 in
  match count with
  | O => Raises invalid_argument
  | S _ =>
      let v := if negative then (- magnitude)%Z else magnitude in
      if ((INT_MIN <=? v) && (v <=? INT_MAX))%Z then Value v
      else Raises out_of_range
  end.

(** [std::stod] and the binary64 values it yields are kept abstract: the
    automaton is analysed for every reading of floating-point text.
    [int64_of_double] is the implicit conversion of a [double] argument to the
    64-bit integer parameter of [Integer::setValue]; it is undefined for
    values the integer type cannot represent. *)
Class FloatingPoint : Type := {
  double : Type;
  double_zero : double;
  stod : string -> conversion double;
  int64_of_double : double -> option Z
}.

(** ** The object store *)

(** An [Object *]: null, or the address of a cell of the store. *)
Definition ptr : Set := option nat.
Definition nullptr : ptr := None.

Definition ptr_eqb (a b : ptr) : bool :=
  match a, b with
  | Some x, Some y => x =? y
  | None, None => true
  | _, _ => false
  end.

Definition is_null (a : ptr) : bool :=
  match a with None => true | Some _ => false end.

(** The node types of the property-list library, as far as the automaton
    uses them. *)
Module plist.
Section Objects.
Context `{FloatingPoint}.

(** Modelled from the spec: the value node types (the classes of
    [plist/Objects.h], which the parser only creates, fills and links).
    A container holds pointers to the children it owns; a data node is
    recorded with the base64 text it was set from. *)
Inductive Object : Type :=
| String (value : string)
| Integer (value : Z)
| Real (value : double)
| Boolean (value : bool)
| Null
| Data (base64 : string)
| Date (text : string)
| Array (items : list ptr)
| Dictionary (entries : list (string * ptr)).

Inductive ObjectType : Set :=
| kString | kInteger | kReal | kBoolean | kNull
| kData | kDate | kArray | kDictionary.

Definition type (o : Object) : ObjectType :=
  match o with
  | String _ => kString
  | Integer _ => kInteger
  | Real _ => kReal
  | Boolean _ => kBoolean
  | Null => kNull
  | Data _ => kData
  | Date _ => kDate
  | Array _ => kArray
  | Dictionary _ => kDictionary
  end.

Definition ObjectType_eqb (s t : ObjectType) : bool :=
  match s, t with
  | kString, kString | kInteger, kInteger | kReal, kReal
  | kBoolean, kBoolean | kNull, kNull | kData, kData
  | kDate, kDate | kArray, kArray | kDictionary, kDictionary => true
  | _, _ => false
  end.

(** The pointers a node owns, in the order its destructor releases them. *)
Definition children (o : Object) : list ptr :=
  match o with
  | Array items => items
  | Dictionary entries => map snd entries
  | _ => []
  end.

(** How a cell was allocated: by a bare [new] expression, or by one of the
    [New()] factories of the node classes. *)
Inductive allocation : Set :=
| operator_new
| factory.

Inductive cell : Type :=
| Live (how : allocation) (o : Object)
| Freed.

Definition alloc (how : allocation) (o : Object) (h : list cell) : nat * list cell :=
  (length h, h ++ [Live how o]).

Definition read (h : list cell) (a : nat) : option Object :=
  match h !! a with
  | Some (Live _ o) => Some o
  | _ => None
  end.

Definition write (a : nat) (o : Object) (h : list cell) : list cell :=
  match h !! a with
  | Some (Live how _) => <[a := Live how o]> h
  | _ => h
  end.

(** Modelled from the spec: [CastTo <T> (p)], absent from the sources, the
    "dynamic type check used to branch on" the type of a node: [p] itself
    when it points to a live object of dynamic type [T], null otherwise (and
    for a null [p]). *)
Definition CastTo (T : ObjectType) (h : list cell) (p : ptr) : ptr :=
  match p with
  | Some a =>
      match read h a with
      | Some o => if ObjectType_eqb (type o) T then p else nullptr
      | None => nullptr
      end
  | None => nullptr
  end.

Definition release_all (rel : ptr -> list cell -> option (list cell)) :
  list ptr -> list cell -> option (list cell) :=
  fix go ps h :=
    match ps with
    | [] => Some h
    | p :: ps' =>
        match rel p h with
        | Some h' => go ps' h'
        | None => None
        end
    end.

(** Modelled from the spec: [Object::release()].  No node is ever retained
    a second time, so a release destroys the node: its cell is freed and
    the children it owns are released in turn.  [None] is undefined
    behaviour: a release through a null pointer or of a destroyed object.
    The recursion is bounded by [fuel]; the fuel that [release] gives is
    enough for every node that owns its cells without sharing
    ([release_owns] below). *)
Fixpoint destroy (fuel : nat) (p : ptr) (h : list cell) : option (list cell) :=
  match fuel with
  | O => None
  | S fuel' =>
      match p with
      | Some a =>
          match h !! a with
          | Some (Live _ o) =>
              release_all (destroy fuel') (children o) (<[a := Freed]> h)
          | _ => None
          end
      | None => None
      end
  end.

Definition release (p : ptr) (h : list cell) : option (list cell) :=
  destroy (S (length h)) p h.

Fixpoint find_entry (k : string) (entries : list (string * ptr)) : option ptr :=
  match entries with
  | [] => None
  | (k', v) :: rest => if String.eqb k' k then Some v else find_entry k rest
  end.

Fixpoint replace_entry (k : string) (v : ptr) (entries : list (string * ptr)) :
  list (string * ptr) :=
  match entries with
  | [] => []
  | (k', v') :: rest =>
      if String.eqb k' k then (k', v) :: rest
      else (k', v') :: replace_entry k v rest
  end.

End Objects.

(** The store: cells by address. *)
Abbreviation Heap := (list cell).
End plist.

(** ** The parser object and the handler monad *)

Definition string_map : Set := list (string * string).

(** [State::key]: the pending dictionary key. *)
Record Key : Set := mkKey {
  value : string;
  valid : bool;
  active : bool
}.

(** [XMLParser::State]: a frame of the automaton. *)
Record State : Set := mkState {
  current : ptr;
  key : Key
}.

Section Automaton.
Context `{FloatingPoint}.

(** The parser object together with the store its pointers refer to.  The
    first three fields belong to the base class [BaseXMLParser]: the messages
    handed to the error callback so far, whether [stop()] was requested, and
    the depth reported by [depth()]. *)
Record XMLParser : Type := mkXMLParser {
  _errors : list string;
  _stopped : bool;
  _depth : nat;
  _root : ptr;
  _state : State;
  _stack : list State;
  _cdata : string;
  heap : plist.Heap
}.

Definition set_errors (v : list string) (p : XMLParser) : XMLParser :=
  mkXMLParser v (_stopped p) (_depth p) (_root p) (_state p) (_stack p) (_cdata p) (heap p).
Definition set_stopped (v : bool) (p : XMLParser) : XMLParser :=
  mkXMLParser (_errors p) v (_depth p) (_root p) (_state p) (_stack p) (_cdata p) (heap p).
Definition set_depth (v : nat) (p : XMLParser) : XMLParser :=
  mkXMLParser (_errors p) (_stopped p) v (_root p) (_state p) (_stack p) (_cdata p) (heap p).
Definition set_root (v : ptr) (p : XMLParser) : XMLParser :=
  mkXMLParser (_errors p) (_stopped p) (_depth p) v (_state p) (_stack p) (_cdata p) (heap p).
Definition set_state (v : State) (p : XMLParser) : XMLParser :=
  mkXMLParser (_errors p) (_stopped p) (_depth p) (_root p) v (_stack p) (_cdata p) (heap p).
Definition set_stack (v : list State) (p : XMLParser) : XMLParser :=
  mkXMLParser (_errors p) (_stopped p) (_depth p) (_root p) (_state p) v (_cdata p) (heap p).
Definition set_cdata (v : string) (p : XMLParser) : XMLParser :=
  mkXMLParser (_errors p) (_stopped p) (_depth p) (_root p) (_state p) (_stack p) v (heap p).
Definition set_heap (v : plist.Heap) (p : XMLParser) : XMLParser :=
  mkXMLParser (_errors p) (_stopped p) (_depth p) (_root p) (_state p) (_stack p) (_cdata p) v.

Definition set_current (v : ptr) (s : State) : State := mkState v (key s).
Definition set_key_flags (v a : bool) (s : State) : State :=
  mkState (current s) (mkKey (value (key s)) v a).
Definition set_key_value (v : string) (s : State) : State :=
  mkState (current s) (mkKey v (valid (key s)) (active (key s))).

(** What running a piece of the parser does: it returns, it throws, or its
    behaviour is undefined. *)
Inductive outcome (A : Type) : Type :=
| Returns (a : A) (p : XMLParser)
| Throws (e : exception) (p : XMLParser)
| Undefined.
Arguments Returns {A} a p.
Arguments Throws {A} e p.
Arguments Undefined {A}.

Definition M (A : Type) : Type := XMLParser -> outcome A.

Definition ret {A} (a : A) : M A := fun p => Returns a p.

Definition bind {A B} (m : M A) (k : A -> M B) : M B :=
  fun p =>
    match m p with
    | Returns a p' => k a p'
    | Throws e p' => Throws e p'
    | Undefined => Undefined
    end.

Definition get : M XMLParser := fun p => Returns p p.
Definition gets {A} (f : XMLParser -> A) : M A := fun p => Returns (f p) p.
Definition modify (f : XMLParser -> XMLParser) : M unit := fun p => Returns tt (f p).
Definition throw {A} (e : exception) : M A := fun p => Throws e p.
Definition undefined {A} : M A := fun _ => Undefined.

Definition when (b : bool) (m : M unit) : M unit := if b then m else ret tt.

(** A store operation that is undefined behaviour when it yields [None]. *)
Definition on_heap (f : plist.Heap -> option plist.Heap) : M unit :=
  fun p =>
    match f (heap p) with
    | Some h => Returns tt (set_heap h p)
    | None => Undefined
    end.

(** The value of a standard conversion, or its exception thrown. *)
Definition convert {A} (c : conversion A) : M A :=
  match c with
  | Value v => ret v
  | Raises e => throw e
  end.

End Automaton.

Arguments Returns {_ A} a p.
Arguments Throws {_ A} e p.
Arguments Undefined {_ A}.

Declare Scope parser_scope.
Delimit Scope parser_scope with parser.
Notation "x <- m ;; k" := (bind m (fun x => k))
  (at level 100, m at next level, right associativity) : parser_scope.
Notation "m ;; k" := (bind m (fun _ => k))
  (at level 100, right associativity) : parser_scope.
Local Open Scope parser_scope.

Section Handlers.
Context `{FloatingPoint}.

(** ** The base class [BaseXMLParser], as the handlers use it *)

(** Modelled from the spec: [BaseXMLParser::error], absent from the sources:
    it hands the formatted message to the error callback and "does not itself
    halt parsing". *)
Definition error (message : string) : M unit :=
  modify (fun p => set_errors (_errors p ++ [message]) p).

(** Modelled from the spec: [BaseXMLParser::stop], absent from the sources:
    it "requests no further events be delivered and that onEndParse(false)
    follow". *)
Definition stop : M unit :=
  modify (set_stopped true).

(** Modelled from the spec: [BaseXMLParser::depth], absent from the sources:
    the nesting depth of the element being delivered, which is 1 when the
    automaton is "about to receive the root". *)
Definition depth (p : XMLParser) : nat := _depth p.

(** ** The node classes, as the handlers use them *)

(** [T::New(...)]: a fresh node, owned by the caller. *)
Definition New (o : plist.Object) : M ptr :=
  fun p =>
    let '(a, h) := plist.alloc plist.factory o (heap p) in
    Returns (Some a) (set_heap h p).

(** [new Dictionary]. *)
Definition new_Dictionary : M ptr :=
  fun p =>
    let '(a, h) := plist.alloc plist.operator_new (plist.Dictionary []) (heap p) in
    Returns (Some a) (set_heap h p).

(** [this->release()]. *)
Definition Object_release (this : ptr) : M unit :=
  on_heap (plist.release this).

(** A member function called through [this]: undefined through a null
    pointer or a pointer to a destroyed object. *)
Definition member {A} (this : ptr) (body : nat -> plist.Object -> M A) : M A :=
  match this with
  | Some a =>
      h <- gets heap ;;
      match plist.read h a with
      | Some o => body a o
      | None => undefined
      end
  | None => undefined
  end.

Definition store (a : nat) (o : plist.Object) : M unit :=
  modify (fun p => set_heap (plist.write a o (heap p)) p).

(** Modelled from the spec: [String::setValue], absent from the sources:
    the text of a [string] element is "stored as-is" in the node, a
    "String(text)". *)
Definition String_setValue (this : ptr) (v : string) : M unit :=
  member this (fun a o =>
    match o with
    | plist.String _ => store a (plist.String v)
    | _ => undefined
    end).

(** Modelled from the spec: [Integer::setValue], absent from the sources:
    the value is stored in the node, an "Integer(signed 64-bit)". *)
Definition Integer_setValue (this : ptr) (v : Z) : M unit :=
  member this (fun a o =>
    match o with
    | plist.Integer _ => store a (plist.Integer v)
    | _ => undefined
    end).

(** Modelled from the spec: [Data::setBase64Value], absent from the sources:
    the node takes the bytes that the base64 text denotes.  The node is
    recorded with that text; decoding belongs to the node class. *)
Definition Data_setBase64Value (this : ptr) (v : string) : M unit :=
  member this (fun a o =>
    match o with
    | plist.Data _ => store a (plist.Data v)
    | _ => undefined
    end).

(** Modelled from the spec: [Date::setStringValue], absent from the sources:
    "buffered text is stored as the node's textual/temporal representation". *)
Definition Date_setStringValue (this : ptr) (v : string) : M unit :=
  member this (fun a o =>
    match o with
    | plist.Date _ => store a (plist.Date v)
    | _ => undefined
    end).

(** Modelled from the spec: [Array::append], absent from the sources: the
    node becomes the last element of the "ordered sequence of child nodes,
    each exclusively owned by the array". *)
Definition Array_append (this : ptr) (object : ptr) : M unit :=
  member this (fun a o =>
    match o with
    | plist.Array items => store a (plist.Array (items ++ [object]))
    | _ => undefined
    end).

(** Modelled from the spec: [Dictionary::set], absent from the sources: an
    "ordered mapping from string key to child node, keys unique, each value
    exclusively owned by the dictionary".  A new key is added after the
    others; for a key already present the value it had is released and the
    new one takes its place. *)
Definition Dictionary_set (this : ptr) (k : string) (object : ptr) : M unit :=
  member this (fun a o =>
    match o with
    | plist.Dictionary entries =>
        match plist.find_entry k entries with
        | Some old =>
            Object_release old ;;
            store a (plist.Dictionary (plist.replace_entry k object entries))
        | None => store a (plist.Dictionary (entries ++ [(k, object)]))
        end
    | _ => undefined
    end).

(** ** [XMLParser] *)

(** [XMLParser::XMLParser()], with the members at their default values and
    nothing allocated. *)
Definition XMLParser_new : XMLParser :=
  mkXMLParser [] false 0 nullptr (mkState nullptr (mkKey "" false false)) [] "" [].

Definition onBeginParse : M unit :=
  modify (fun p =>
    set_state (set_key_flags false false (set_current nullptr (_state p)))
      (set_root nullptr p)).

(** The loop [for (auto s : _stack)] of [onEndParse]. *)
Fixpoint release_frames (frames : list State) : M unit :=
  match frames with
  | [] => ret tt
  | s :: rest =>
      p <- get ;;
      when (negb (ptr_eqb (current s) (current (_state p)))
            && negb (ptr_eqb (current s) (_root p)))
        (Object_release (current s)) ;;
      release_frames rest
  end.

Definition onEndParse (success : bool) : M unit :=
  when (negb success)
    (p <- get ;;
     when (negb (is_null (current (_state p)))
           && negb (ptr_eqb (current (_state p)) (_root p)))
       (Object_release (current (_state p))) ;;
     release_frames (_stack p) ;;
     modify (set_stack []) ;;
     when (negb (is_null (_root p)))
       (Object_release (_root p) ;;
        modify (set_root nullptr))) ;;
  modify (fun p =>
    set_cdata ""
      (set_state (set_key_flags false false (set_current nullptr (_state p))) p)).

Definition inArray (p : XMLParser) : bool :=
  negb (is_null (plist.CastTo plist.kArray (heap p) (current (_state p)))).

Definition inDictionary (p : XMLParser) : bool :=
  negb (is_null (plist.CastTo plist.kDictionary (heap p) (current (_state p)))).

Definition inContainer (p : XMLParser) : bool :=
  (depth p =? 1) || inDictionary p || inArray p.

Definition isExpectingKey (p : XMLParser) : bool :=
  inDictionary p && negb (valid (key (_state p))).

Definition isExpectingCDATA (p : XMLParser) : bool :=
  negb (is_null (plist.CastTo plist.kInteger (heap p) (current (_state p))))
  || negb (is_null (plist.CastTo plist.kReal (heap p) (current (_state p))))
  || negb (is_null (plist.CastTo plist.kString (heap p) (current (_state p))))
  || (inDictionary p && active (key (_state p))).

Definition push (object : ptr) : M unit :=
  modify (fun p =>
    let p := if negb (is_null (current (_state p)))
             then set_stack (_stack p ++ [_state p]) p else p in
    let p := set_state (set_key_flags false false (set_current object (_state p))) p in
    if is_null (_root p) then set_root (current (_state p)) p else p).

Definition pop : M unit :=
  p <- get ;;
  if (match _stack p with [] => true | _ => false end)
     && is_null (current (_state p))
  then error "stack underflow"
  else
    when (negb (ptr_eqb (current (_state p)) (_root p)))
      (let old := _state p in
       match last (_stack p) with
       | None => undefined
       | Some top =>
           modify (fun p => set_stack (removelast (_stack p)) (set_state top p)) ;;
           q <- get ;;
           match plist.CastTo plist.kArray (heap q) (current (_state q)) with
           | Some array => Array_append (Some array) (current old)
           | None =>
               match plist.CastTo plist.kDictionary (heap q) (current (_state q)) with
               | Some dict =>
                   when (negb (isExpectingKey q))
                     (Dictionary_set (Some dict) (value (key (_state q))) (current old) ;;
                      modify (fun p => set_state (set_key_flags false false (_state p)) p))
               | None => ret tt
               end
           end
       end) ;;
    modify (set_cdata "").

Definition beginArray : M bool :=
  o <- New (plist.Array []) ;;
  push o ;;
  ret true.

Definition endArray : M bool :=
  pop ;;
  ret true.

Definition beginDictionary : M bool :=
  o <- New (plist.Dictionary []) ;;
  push o ;;
  modify (fun p => set_state (set_key_flags false false (_state p)) p) ;;
  ret true.

Definition endDictionary : M bool :=
  pop ;;
  ret true.

Definition beginString : M bool :=
  o <- New (plist.String "") ;;
  push o ;;
  modify (set_cdata "") ;;
  ret true.

Definition endString : M bool :=
  p <- get ;;
  String_setValue (plist.CastTo plist.kString (heap p) (current (_state p))) (_cdata p) ;;
  pop ;;
  ret true.

Definition beginInteger : M bool :=
  o <- New (plist.Integer 0) ;;
  push o ;;
  modify (set_cdata "") ;;
  ret true.

Definition endInteger : M bool :=
  p <- get ;;
  v <- convert (stoi (_cdata p)) ;;
  Integer_setValue (plist.CastTo plist.kInteger (heap p) (current (_state p))) v ;;
  pop ;;
  ret true.

Definition beginReal : M bool :=
  o <- New (plist.Real double_zero) ;;
  push o ;;
  modify (set_cdata "") ;;
  ret true.

(** The cast is to [Integer], as in the source; the [double] that [std::stod]
    returns is converted to the integer argument of [Integer::setValue]. *)
Definition endReal : M bool :=
  p <- get ;;
  d <- convert (stod (_cdata p)) ;;
  match plist.CastTo plist.kInteger (heap p) (current (_state p)) with
  | Some this =>
      match int64_of_double d with
      | Some v => Integer_setValue (Some this) v
      | None => undefined
      end
  | None => undefined
  end ;;
  pop ;;
  ret true.

Definition beginNull : M bool :=
  o <- New plist.Null ;;
  push o ;;
  ret true.

Definition endNull : M bool :=
  pop ;;
  ret true.

Definition beginBoolean (v : bool) : M bool :=
  o <- New (plist.Boolean v) ;;
  push o ;;
  ret true.

Definition endBoolean : M bool :=
  pop ;;
  ret true.

Definition beginData : M bool :=
  o <- New (plist.Data "") ;;
  push o ;;
  modify (set_cdata "") ;;
  ret true.

Definition endData : M bool :=
  p <- get ;;
  Data_setBase64Value (plist.CastTo plist.kData (heap p) (current (_state p))) (_cdata p) ;;
  pop ;;
  ret true.

Definition beginDate : M bool :=
  o <- New (plist.Date "") ;;
  push o ;;
  modify (set_cdata "") ;;
  ret true.

Definition endDate : M bool :=
  p <- get ;;
  Date_setStringValue (plist.CastTo plist.kDate (heap p) (current (_state p))) (_cdata p) ;;
  pop ;;
  ret true.

Definition beginKey : M bool :=
  modify (fun p => set_cdata "" (set_state (set_key_flags false true (_state p)) p)) ;;
  ret true.

Definition endKey : M bool :=
  modify (fun p =>
    set_cdata ""
      (set_state (set_key_value (_cdata p) (set_key_flags true false (_state p))) p)) ;;
  ret true.

Definition unexpected_key : string :=
  "unexpected 'key' when expecting value in dictionary definition".

Definition key_expected (name : string) : string :=
  String.append "unexpected element '"
    (String.append name "' when a key was expected in dictionary definition").

Definition not_in_container (name : string) : string :=
  String.append "unexpected '"
    (String.append name "' element in a non-container element.").

Definition unexpected_element (name : string) : string :=
  String.append "unexpected element '" (String.append name "'").

Definition expecting_plist (name : string) : string :=
  String.append "expecting 'plist', found '" (String.append name "'").

Definition after_root (name : string) : string :=
  String.append "unexpected element '" (String.append name "' after root element").

Definition beginObject (name : string) : M bool :=
  p <- get ;;
  (* the statements after the dictionary checks *)
  let value_element : M bool :=
    if negb (inContainer p) then
      error (not_in_container name) ;;
      ret false
    else if String.eqb name "array" then beginArray
    else if String.eqb name "dict" then beginDictionary
    else if String.eqb name "string" then beginString
    else if String.eqb name "integer" then beginInteger
    else if String.eqb name "real" then beginReal
    else if String.eqb name "true" then beginBoolean true
    else if String.eqb name "false" then beginBoolean false
    else if String.eqb name "null" then beginNull
    else if String.eqb name "data" then beginData
    else if String.eqb name "date" then beginDate
    else
      error (unexpected_element name) ;;
      ret false in
  if inDictionary p then
    if String.eqb name "key" then
      if negb (isExpectingKey p) then
        error unexpected_key ;;
        ret false
      else beginKey
    else if isExpectingKey p then
      error (key_expected name) ;;
      ret false
    else value_element
  else value_element.

Definition endObject (name : string) : M bool :=
  if String.eqb name "plist" then ret true
  else if String.eqb name "key" then endKey
  else if String.eqb name "array" then endArray
  else if String.eqb name "dict" then endDictionary
  else if String.eqb name "string" then endString
  else if String.eqb name "integer" then endInteger
  else if String.eqb name "real" then endReal
  else if String.eqb name "true" || String.eqb name "false" then endBoolean
  else if String.eqb name "null" then endNull
  else if String.eqb name "data" then endData
  else if String.eqb name "date" then endDate
  else
    error (unexpected_element name) ;;
    ret false.

Definition onStartElement (name : string) (attrs : string_map) (depth : nat) : M unit :=
  dict <- new_Dictionary ;;
  if depth =? 0 then
    when (negb (String.eqb name "plist")) (error (expecting_plist name))
  else
    p <- get ;;
    if (depth =? 1) && negb (is_null (_root p)) then
      error (after_root name)
    else
      ok <- beginObject name ;;
      when (negb ok) stop.

Definition onEndElement (name : string) (depth : nat) : M unit :=
  ok <- endObject name ;;
  when (negb ok) stop.

(** The loop of [onCharacterData] over the characters of unexpected text:
    it reports and requests a stop at each character that is not white
    space, and goes on to the end of the text. *)
Fixpoint reject_cdata (cdata : string) : M unit :=
  match cdata with
  | EmptyString => ret tt
  | String c rest =>
      when (negb (isspace c)) (error "unexpected cdata" ;; stop) ;;
      reject_cdata rest
  end.

Definition onCharacterData (cdata : string) (depth : nat) : M unit :=
  p <- get ;;
  if negb (isExpectingCDATA p) then reject_cdata cdata
  else modify (fun p => set_cdata (String.append (_cdata p) cdata) p).

(** [onCharacterData] as the C standard alone specifies it, with plain
    [char] signed: the behaviour of the loop is undefined at the first byte
    that [isspace] is not specified for. *)
Fixpoint reject_cdata_strict (cdata : string) : M unit :=
  match cdata with
  | EmptyString => ret tt
  | String c rest =>
      if isspace_specified c then
        when (negb (isspace c)) (error "unexpected cdata" ;; stop) ;;
        reject_cdata_strict rest
      else undefined
  end.

Definition onCharacterData_strict (cdata : string) (depth : nat) : M unit :=
  p <- get ;;
  if negb (isExpectingCDATA p) then reject_cdata_strict cdata
  else modify (fun p => set_cdata (String.append (_cdata p) cdata) p).

(** ** The driver *)

(** The structural events of a document, in document order. *)
Inductive event : Set :=
| StartElement (name : string) (attrs : string_map)
| CharacterData (text : string)
| EndElement (name : string).

(** A tokenized document: elements with attributes, and text. *)
Inductive xml : Set :=
| Element (name : string) (attrs : string_map) (content : list xml)
| Text (text : string).

Fixpoint events_of (x : xml) : list event :=
  match x with
  | Element name attrs content =>
      StartElement name attrs :: flat_map events_of content ++ [EndElement name]
  | Text text => [CharacterData text]
  end.

(** Modelled from the spec: the callbacks of the driver, absent from the
    sources.  An element is delivered with its 0-based nesting depth, which
    [depth()] reports during the callback; its content is one level deeper. *)
Definition deliver (e : event) : M unit :=
  d <- gets _depth ;;
  match e with
  | StartElement name attrs =>
      onStartElement name attrs d ;;
      modify (set_depth (S d))
  | CharacterData text => onCharacterData text d
  | EndElement name =>
      modify (set_depth (pred d)) ;;
      onEndElement name (pred d)
  end.

(** The delivery of an event, with character data handled as the standard
    alone specifies it. *)
Definition deliver_strict (e : event) : M unit :=
  match e with
  | CharacterData text =>
      d <- gets _depth ;;
      onCharacterData_strict text d
  | _ => deliver e
  end.

(** Modelled from the spec: after a [stop()] "no further events" are
    delivered. *)
Fixpoint deliver_all (events : list event) : M unit :=
  match events with
  | [] => ret tt
  | e :: rest =>
      stopped <- gets _stopped ;;
      if stopped then ret tt
      else (deliver e ;; deliver_all rest)
  end.

Fixpoint deliver_all_strict (events : list event) : M unit :=
  match events with
  | [] => ret tt
  | e :: rest =>
      stopped <- gets _stopped ;;
      if stopped then ret tt
      else (deliver_strict e ;; deliver_all_strict rest)
  end.

(** Modelled from the spec: [BaseXMLParser::parse(fp, error)], absent from
    the sources: [onBeginParse()] "exactly once before any other callback",
    the events in document order, then [onEndParse(success)] "exactly once,
    terminal", with [success] false when the core signalled stop.  The
    stream is given by the document the tokenizer reads from it. *)
Definition BaseXMLParser_parse_fp (fp : xml) : M bool :=
  modify (fun p => set_depth 0 (set_stopped false p)) ;;
  onBeginParse ;;
  deliver_all (events_of fp) ;;
  stopped <- gets _stopped ;;
  onEndParse (negb stopped) ;;
  ret (negb stopped).

(** Modelled from the spec: [BaseXMLParser::parse(path, error)], absent from
    the sources: the file at [path] is parsed as a stream; [fs] gives the
    files that can be opened, and a file that cannot be opened is a failure. *)
Definition BaseXMLParser_parse_path (fs : string -> option xml) (path : string) : M bool :=
  match fs path with
  | Some fp => BaseXMLParser_parse_fp fp
  | None => ret false
  end.

(** [XMLParser::parse(path, error)] *)
Definition parse_path (fs : string -> option xml) (path : string) : M ptr :=
  p <- get ;;
  if negb (is_null (_root p)) then ret nullptr
  else
    ok <- BaseXMLParser_parse_path fs path ;;
    if negb ok then ret nullptr
    else gets _root.

(** [XMLParser::parse(fp, error)] *)
Definition parse_fp (fp : xml) : M ptr :=
  p <- get ;;
  if negb (is_null (_root p)) then ret nullptr
  else
    ok <- BaseXMLParser_parse_fp fp ;;
    if negb ok then ret nullptr
    else gets _root.

End Handlers.

Arguments push : simpl never.
Arguments pop : simpl never.
Arguments beginObject : simpl never.
Arguments endObject : simpl never.
Arguments onStartElement : simpl never.
Arguments onEndElement : simpl never.
Arguments onCharacterData : simpl never.
Arguments onBeginParse : simpl never.
Arguments onEndParse : simpl never.
Arguments deliver : simpl never.
Arguments deliver_all : simpl never.

(** ** A reading of floating-point text, to run the automaton on documents *)

(** A decimal number [numerator / 10 ^ scale]. *)
Record decimal : Set := mkDecimal {
  numerator : Z;
  scale : nat
}.

(** Plain decimal literals: white space, an optional sign, digits with an
    optional fraction.  Exponents, hexadecimal literals, infinities and
    rounding to binary64 are left out; the theorems below hold for every
    reading. *)
Definition decimal_stod (str : string) : conversion decimal :=
  let '(negative, s) := read_sign (skip_spaces str) in
  let '(whole, n1, s') := read_digits s 0%Z 0 in
  let '(digits, n2) :=
    match s' with
    | String "." s'' => let '(all, n, _) := read_digits s'' whole 0 in (all, n)
    | _ => (whole, 0)
    end in
  if n1 + n2 =? 0 then Raises invalid_argument
  else Value (mkDecimal (if negative then (- digits)%Z else digits) n2).

Definition decimal_to_int64 (d : decimal) : option Z :=
  let q := (numerator d ÷ 10 ^ Z.of_nat (scale d))%Z in
  if ((- 2 ^ 63 <=? q) && (q <=? 2 ^ 63 - 1))%Z then Some q else None.

Definition decimal_reading : FloatingPoint := {|
  double := decimal;
  double_zero := mkDecimal 0 0;
  stod := decimal_stod;
  int64_of_double := decimal_to_int64
|}.

(** ** Notions the properties are stated with *)

Section Notions.
Context `{FloatingPoint}.

(** The operations on the frame stack, with the node a push is given. *)
Inductive stack_op : Set :=
| Push (object : nat)
| Pop.

Definition run_op (o : stack_op) : M unit :=
  match o with
  | Push a => push (Some a)
  | Pop => pop
  end.

Fixpoint run_ops (ops : list stack_op) : M unit :=
  match ops with
  | [] => ret tt
  | o :: rest => run_op o ;; run_ops rest
  end.

(** The frames saved since [onBeginParse] start with the frame of the root:
    [stale] is what the stack held when the parse began, which
    [onBeginParse] does not clear. *)
Definition rooted (stale : list State) (p : XMLParser) : Prop :=
  exists saved,
    _stack p = stale ++ saved /\
    match _root p with
    | None => current (_state p) = None /\ saved = []
    | Some r =>
        match saved with
        | [] => current (_state p) = Some r
        | f :: _ => current f = Some r
        end
    end.

(** The restore of [pop] finds a frame. *)
Definition back_defined (p : XMLParser) : Prop :=
  current (_state p) <> nullptr ->
  current (_state p) <> _root p ->
  _stack p <> [].

(** What [pop] does with the completed frame [old] once the parent frame is
    restored: the attachment to an array or a dictionary. *)
Definition attach (old : State) : M unit :=
  q <- get ;;
  match plist.CastTo plist.kArray (heap q) (current (_state q)) with
  | Some array => Array_append (Some array) (current old)
  | None =>
      match plist.CastTo plist.kDictionary (heap q) (current (_state q)) with
      | Some dict =>
          when (negb (isExpectingKey q))
            (Dictionary_set (Some dict) (value (key (_state q))) (current old) ;;
             modify (fun p => set_state (set_key_flags false false (_state p)) p))
      | None => ret tt
      end
  end.

(** The state [pop] restores: the top frame becomes the state again. *)
Definition restore (top : State) (p : XMLParser) : XMLParser :=
  set_stack (removelast (_stack p)) (set_state top p).

(** The number of characters of a text that are not white space. *)
Fixpoint unexpected (cdata : string) : nat :=
  match cdata with
  | EmptyString => 0
  | String c rest => (if isspace c then 0 else 1) + unexpected rest
  end.

(** The pointers a cell holds, when it is live. *)
Definition shape (c : plist.cell) : option (list ptr) :=
  match c with
  | plist.Live _ o => Some (plist.children o)
  | plist.Freed => None
  end.

(** [owns h p ns]: [p] points to a live node, and the node with everything
    it owns, directly or through its children, occupies the cells [ns], the
    node first and then each child in turn. *)
Inductive owns (h : plist.Heap) : ptr -> list nat -> Prop :=
| owns_node a c cs ns :
    h !! a = Some c ->
    shape c = Some cs ->
    owns_all h cs ns ->
    owns h (Some a) (a :: ns)
with owns_all (h : plist.Heap) : list ptr -> list nat -> Prop :=
| owns_nil : owns_all h [] []
| owns_cons p ps ns ms :
    owns h p ns ->
    owns_all h ps ms ->
    owns_all h (p :: ps) (ns ++ ms).

(** The store with the cells [ns] freed. *)
Definition free_all (ns : list nat) (h : plist.Heap) : plist.Heap :=
  imap (fun i c => if bool_decide (i ∈ ns) then plist.Freed else c) h.

(** Two stores hold the same pointers in the cells [ns]. *)
Definition agree (ns : list nat) (h h' : plist.Heap) : Prop :=
  forall x, x ∈ ns -> shape <$> h' !! x = shape <$> h !! x.

(** A saved frame can take the node completed above it: its node is an
    array, or a dictionary with a valid key. *)
Definition parent_frame (h : plist.Heap) (s : State) : Prop :=
  exists a o,
    current s = Some a /\ plist.read h a = Some o /\
    match o with
    | plist.Array _ => True
    | plist.Dictionary _ => valid (key s) = true
    | _ => False
    end.

(** The nodes the automaton holds: those of the saved frames, then the
    current one. *)
Definition held (p : XMLParser) : list ptr :=
  match _root p with
  | None => []
  | Some _ => map current (_stack p) ++ [current (_state p)]
  end.

(** The state of a parse that began with the store [h0] and an empty stack:
    the saved frames start at the root and can each take a child; the cells
    of [h0] are as they were; the nodes held own, without sharing, every
    cell that a factory allocated since. *)
Definition consistent (h0 : plist.Heap) (p : XMLParser) : Prop :=
  rooted [] p /\
  Forall (parent_frame (heap p)) (_stack p) /\
  (forall x, x < length h0 -> heap p !! x = h0 !! x) /\
  exists ns,
    owns_all (heap p) (held p) ns /\
    NoDup ns /\
    Forall (fun a => length h0 <= a) ns /\
    forall a o, length h0 <= a ->
                heap p !! a = Some (plist.Live plist.factory o) -> a ∈ ns.

(** The messages delivered from [p] to [q], with at least one of them if a
    stop was requested in between. *)
Definition reported (p q : XMLParser) : Prop :=
  exists messages,
    _errors q = _errors p ++ messages /\
    (_stopped q = _stopped p \/ (_stopped q = true /\ messages <> [])).

(** What [BaseXMLParser::parse] sets before the first callback. *)
Definition begin (p : XMLParser) : XMLParser :=
  set_state (set_key_flags false false (set_current nullptr (_state p)))
    (set_root nullptr (set_depth 0 (set_stopped false p))).

(** Every object that can be read in [h] can be read in [h'], with the same
    dynamic type. *)
Definition keeps_types (h h' : plist.Heap) : Prop :=
  forall a o, plist.read h a = Some o ->
              exists o', plist.read h' a = Some o' /\ plist.type o' = plist.type o.

(** A computation that requests no stop and, when its result is not [ok],
    has delivered a message. *)
Definition logs {A} (ok : A -> bool) (m : M A) : Prop :=
  forall p a q, m p = Returns a q ->
    exists messages,
      _errors q = _errors p ++ messages /\
      _stopped q = _stopped p /\
      (ok a = false -> messages <> []).

(** A computation that leaves the store, the root, the stack and the
    current node as they are. *)
Definition idle {A} (m : M A) : Prop :=
  forall p a q, m p = Returns a q ->
    heap q = heap p /\ _root q = _root p /\ _stack q = _stack p /\
    current (_state q) = current (_state p).

(** Only the store differs. *)
Definition same_parser (p q : XMLParser) : Prop :=
  q = set_heap (heap q) p.

(** A computation that leaves the frames as they are: the stack, the
    current node, the root and the depth. *)
Definition still {A} (m : M A) : Prop :=
  forall p a q, m p = Returns a q ->
    _stack q = _stack p /\ current (_state q) = current (_state p) /\
    _root q = _root p /\ _depth q = _depth p.

(** [q] is at the level of [p]: the same saved frames, the same depth, and
    the same current node unless [p] had none. *)
Definition level (p q : XMLParser) : Prop :=
  _stack q = _stack p /\ _depth q = _depth p /\
  (current (_state q) = current (_state p) \/ current (_state p) = nullptr).

(** Property-list values that are built from strings, integers, booleans,
    null, arrays and dictionaries.  An integer is given by the text that
    writes it. *)
Inductive tree : Set :=
| TString (text : string)
| TInteger (text : string)
| TBoolean (b : bool)
| TNull
| TArray (items : list tree)
| TDictionary (entries : list (string * tree)).

(** The element that writes a value: a dictionary is written as its keys,
    each followed by its value. *)
Fixpoint xml_of (t : tree) : xml :=
  match t with
  | TString text => Element "string" [] [Text text]
  | TInteger text => Element "integer" [] [Text text]
  | TBoolean b => Element (if b then "true" else "false") [] []
  | TNull => Element "null" [] []
  | TArray items => Element "array" [] (map xml_of items)
  | TDictionary entries =>
      Element "dict" []
        (flat_map (fun e => [Element "key" [] [Text (fst e)]; xml_of (snd e)])
           entries)
  end.

(** [<plist>value</plist>] *)
Definition plist_document (t : tree) : xml :=
  Element "plist" [] [xml_of t].

(** No string occurs twice in [ks]. *)
Fixpoint unique (ks : list string) : bool :=
  match ks with
  | [] => true
  | k :: rest => negb (existsb (String.eqb k) rest) && unique rest
  end.

(** No dictionary of the value has a key twice, and [std::stoi] converts
    the text of every integer. *)
Fixpoint well_written (t : tree) : bool :=
  match t with
  | TInteger text =>
      match stoi text with
      | Value _ => true
      | Raises _ => false
      end
  | TArray items => forallb well_written items
  | TDictionary entries =>
      unique (map fst entries) && forallb (fun e => well_written (snd e)) entries
  | _ => true
  end.

(** [holds lo h p t]: the node that [p] points to in the store [h] reads as
    the value [t]: it has the type and the content of [t], and its children
    read as the children of [t], in the same order and under the same keys.
    All the nodes are at the address [lo] or above. *)
Inductive holds (lo : nat) (h : plist.Heap) : ptr -> tree -> Prop :=
| holds_string a text :
    lo <= a -> plist.read h a = Some (plist.String text) ->
    holds lo h (Some a) (TString text)
| holds_integer a text v :
    lo <= a -> stoi text = Value v ->
    plist.read h a = Some (plist.Integer v) ->
    holds lo h (Some a) (TInteger text)
| holds_boolean a b :
    lo <= a -> plist.read h a = Some (plist.Boolean b) ->
    holds lo h (Some a) (TBoolean b)
| holds_null a :
    lo <= a -> plist.read h a = Some plist.Null ->
    holds lo h (Some a) TNull
| holds_array a ps items :
    lo <= a -> plist.read h a = Some (plist.Array ps) ->
    Forall2 (holds lo h) ps items ->
    holds lo h (Some a) (TArray items)
| holds_dictionary a es entries :
    lo <= a -> plist.read h a = Some (plist.Dictionary es) ->
    Forall2 (fun e kt => fst e = fst kt /\ holds lo h (snd e) (snd kt)) es entries ->
    holds lo h (Some a) (TDictionary entries).

(** The node that [p] points to reads as the value [t]. *)
Definition represents (h : plist.Heap) (p : ptr) (t : tree) : Prop :=
  holds 0 h p t.

(** The parser can take a value element: no stop was requested, and either
    there is no node yet and the element is at depth 1, or the current node
    is an array, or a dictionary that holds a valid key it has no entry
    for. *)
Definition takes_value (p : XMLParser) : Prop :=
  _stopped p = false /\
  match current (_state p) with
  | None => _depth p = 1 /\ _root p = None /\ _stack p = []
  | Some c =>
      2 <= _depth p /\
      (exists r, _root p = Some r /\ r < length (heap p)) /\
      match plist.read (heap p) c with
      | Some (plist.Array _) => True
      | Some (plist.Dictionary es) =>
          valid (key (_state p)) = true /\
          plist.find_entry (value (key (_state p))) es = None
      | _ => False
      end
  end.

(** [q] is [p] after the node [n] was made and put where [p] takes a value:
    it is the root when there was no node, the last item of the current
    array, or the entry of the current dictionary under the pending key,
    which is used up.  Nothing is reported, the frames are those of [p], and
    no other cell of the store of [p] has changed. *)
Definition took_value (p : XMLParser) (n : nat) (q : XMLParser) : Prop :=
  _errors q = _errors p /\ _stopped q = false /\ _depth q = _depth p /\
  _stack q = _stack p /\ _cdata q = "" /\
  n < length (heap q) /\
  match current (_state p) with
  | None =>
      _root q = Some n /\ current (_state q) = Some n /\
      forall a, a < length (heap p) -> heap q !! a = heap p !! a
  | Some c =>
      _root q = _root p /\
      (forall a, a < length (heap p) -> a <> c -> heap q !! a = heap p !! a) /\
      match plist.read (heap p) c with
      | Some (plist.Array ps) =>
          _state q = _state p /\
          plist.read (heap q) c = Some (plist.Array (ps ++ [Some n]))
      | Some (plist.Dictionary es) =>
          _state q = set_key_flags false false (_state p) /\
          plist.read (heap q) c =
          Some (plist.Dictionary (es ++ [(value (key (_state p)), Some n)]))
      | _ => False
      end
  end.

(** The node that the begin handler of a value element makes, for the
    elements that write a [tree]. *)
Definition made (name : string) : option plist.Object :=
  if String.eqb name "array" then Some (plist.Array [])
  else if String.eqb name "dict" then Some (plist.Dictionary [])
  else if String.eqb name "string" then Some (plist.String "")
  else if String.eqb name "integer" then Some (plist.Integer 0)
  else if String.eqb name "true" then Some (plist.Boolean true)
  else if String.eqb name "false" then Some (plist.Boolean false)
  else if String.eqb name "null" then Some plist.Null
  else None.

(** The parser after [push(T::New(...))] for the node [o], with the buffer
    cleared when the node is a string or an integer. *)
Definition pushed (o : plist.Object) (p : XMLParser) : XMLParser :=
  let n := Some (length (heap p)) in
  mkXMLParser (_errors p) (_stopped p) (_depth p)
    (if is_null (_root p) then n else _root p)
    (mkState n (mkKey (value (key (_state p))) false false))
    (if is_null (current (_state p)) then _stack p else _stack p ++ [_state p])
    (match o with
     | plist.String _ | plist.Integer _ => ""
     | _ => _cdata p
     end)
    (heap p ++ [plist.Live plist.factory o]).

(** [p1] is [p] after the start of a value element that made the node [o]:
    the store has the dictionary that [onStartElement] allocates and then
    the node, the node is the current node and, if there was none, the root,
    and the state of [p] is saved if it had a node. *)
Definition opened (p : XMLParser) (o : plist.Object) (p1 : XMLParser) : Prop :=
  heap p1 = heap p ++ [plist.Live plist.operator_new (plist.Dictionary []);
                       plist.Live plist.factory o] /\
  _errors p1 = _errors p /\ _stopped p1 = false /\ _depth p1 = S (_depth p) /\
  _stack p1 = (if is_null (current (_state p)) then _stack p
               else _stack p ++ [_state p]) /\
  _state p1 = mkState (Some (S (length (heap p))))
                (mkKey (value (key (_state p))) false false) /\
  _root p1 = (if is_null (_root p) then Some (S (length (heap p))) else _root p) /\
  (plist.type o = plist.kString \/ plist.type o = plist.kInteger ->
   _cdata p1 = "").

(** [s] is a state inside the element that opened the node [n] where [p]
    takes a value: nothing is reported since [p], the frames are those that
    the start of the element left, [n] is the current node, and the cells of
    the store of [p] are as they were. *)
Definition inside (p : XMLParser) (n : nat) (s : XMLParser) : Prop :=
  _errors s = _errors p /\ _stopped s = false /\ _depth s = S (_depth p) /\
  _stack s = (if is_null (current (_state p)) then _stack p
              else _stack p ++ [_state p]) /\
  current (_state s) = Some n /\
  _root s = (if is_null (_root p) then Some n else _root p) /\
  (forall a, a < length (heap p) -> heap s !! a = heap p !! a) /\
  n < length (heap s).

(** The entries of a dictionary node read as the entries of a value. *)
Definition holds_entry (lo : nat) (h : plist.Heap)
    (e : string * ptr) (kt : string * tree) : Prop :=
  fst e = fst kt /\ holds lo h (snd e) (snd kt).

(** The elements that write an entry of a dictionary. *)
Definition entry_xml (e : string * tree) : list xml :=
  [Element "key" [] [Text (fst e)]; xml_of (snd e)].

(** A cell that a bare [new] allocated. *)
Definition stray_cell (c : plist.cell) : bool :=
  match c with
  | plist.Live plist.operator_new _ => true
  | _ => false
  end.

(** The number of cells of the store that a bare [new] allocated and that
    were not freed since. *)
Fixpoint strays (h : plist.Heap) : nat :=
  match h with
  | [] => 0
  | c :: rest => (if stray_cell c then 1 else 0) + strays rest
  end.

(** The number of elements of a document. *)
Fixpoint elements (x : xml) : nat :=
  match x with
  | Element _ _ content => S (list_sum (map elements content))
  | Text _ => 0
  end.

(** The number of start events among [events]. *)
Fixpoint starts (events : list event) : nat :=
  match events with
  | [] => 0
  | StartElement _ _ :: rest => S (starts rest)
  | _ :: rest => starts rest
  end.

(** [c] is null, or points to a cell of the store that no bare [new]
    allocated. *)
Definition clean (h : plist.Heap) (c : ptr) : Prop :=
  match c with
  | None => True
  | Some a => exists cell, h !! a = Some cell /\ stray_cell cell = false
  end.

(** The store [h'] comes from [h] by steps that leave the cells of a bare
    [new] as they are, and allocate no cell of another kind with one. *)
Definition evolves (h h' : plist.Heap) : Prop :=
  forall a cell, h !! a = Some cell ->
    exists cell', h' !! a = Some cell' /\
                  stray_cell cell' = stray_cell cell /\
                  (stray_cell cell = true -> cell' = cell).

(** No node of the store points to a cell that a bare [new] allocated. *)
Definition unreferenced_store (h : plist.Heap) : Prop :=
  forall a how o, h !! a = Some (plist.Live how o) ->
    Forall (clean h) (plist.children o).

(** Nothing refers to the cells that a bare [new] allocated: no node of the
    store, and no pointer of the parser. *)
Definition unreferenced (p : XMLParser) : Prop :=
  unreferenced_store (heap p) /\
  clean (heap p) (_root p) /\
  clean (heap p) (current (_state p)) /\
  Forall (fun s => clean (heap p) (current s)) (_stack p).

(** A computation that leaves the cells of a bare [new] allocated and
    unreferenced, and allocates none. *)
Definition keeps {A} (m : M A) : Prop :=
  forall p a q, m p = Returns a q -> unreferenced p ->
    unreferenced q /\ strays (heap q) = strays (heap p).

(** A data or a date node. *)
Definition dataish (o : plist.Object) : bool :=
  match o with
  | plist.Data _ | plist.Date _ => true
  | _ => false
  end.

(** A node that is not a data or date node with text. *)
Definition textless (o : plist.Object) : Prop :=
  match o with
  | plist.Data text | plist.Date text => text = ""
  | _ => True
  end.

(** No data node and no date node of the store has text. *)
Definition blank (h : plist.Heap) : Prop :=
  forall a o, plist.read h a = Some o -> textless o.

(** The buffer is empty whenever the current node is a data or date node. *)
Definition unbuffered (p : XMLParser) : Prop :=
  forall a o, current (_state p) = Some a -> plist.read (heap p) a = Some o ->
              dataish o = true -> _cdata p = "".

(** A computation that leaves the store, the current node and the buffer as
    they are. *)
Definition calm {A} (m : M A) : Prop :=
  forall p a q, m p = Returns a q ->
    heap q = heap p /\ current (_state q) = current (_state p) /\
    _cdata q = _cdata p.

(** A computation that keeps the data and date nodes without text. *)
Definition keeps_blank {A} (m : M A) : Prop :=
  forall p a q, m p = Returns a q -> blank (heap p) -> unbuffered p ->
    blank (heap q) /\ unbuffered q.

(** A computation that returns from every state. *)
Definition total {A} (m : M A) : Prop :=
  forall p, exists a q, m p = Returns a q.

(** The type that the end handler of a leaf element casts the current node
    to, before it calls the setter. *)
Definition cast_of (name : string) : option plist.ObjectType :=
  if String.eqb name "string" then Some plist.kString
  else if String.eqb name "integer" then Some plist.kInteger
  else if String.eqb name "real" then Some plist.kInteger
  else if String.eqb name "data" then Some plist.kData
  else if String.eqb name "date" then Some plist.kDate
  else None.

(** The text of an element that the driver delivers in the pieces
    [chunks]. *)
Definition joined (chunks : list string) : string :=
  fold_right String.append "" chunks.

(** The leaf elements whose end handler passes the buffer to the node as it
    is, with the type of the node they make. *)
Definition text_leaf (name : string) : option plist.ObjectType :=
  if String.eqb name "string" then Some plist.kString
  else if String.eqb name "data" then Some plist.kData
  else if String.eqb name "date" then Some plist.kDate
  else None.

(** A text holds a byte that [isspace] is not specified for. *)
Fixpoint unspecified (cdata : string) : bool :=
  match cdata with
  | EmptyString => false
  | String c rest => negb (isspace_specified c) || unspecified rest
  end.

(** The states in which the handler of an end event calls [pop], when the
    event finds the automaton in [p]: [p] at the depth of the element
    ([endArray], [endDictionary], [endBoolean], [endNull]), or that state
    after the setter of a leaf has stored a value in the current node
    ([endString], [endInteger], [endReal], [endData], [endDate]). *)
Definition before_pop (p p' : XMLParser) : Prop :=
  let s := set_depth (pred (_depth p)) p in
  let this T := plist.CastTo T (heap s) (current (_state s)) in
  p' = s \/
  (exists v, String_setValue (this plist.kString) v s = Returns tt p') \/
  (exists v, Integer_setValue (this plist.kInteger) v s = Returns tt p') \/
  (exists v, Data_setBase64Value (this plist.kData) v s = Returns tt p') \/
  (exists v, Date_setStringValue (this plist.kDate) v s = Returns tt p').

End Notions.

Arguments free_all : simpl never.

(** ** Documents and states the properties are tried on *)

Definition element (name : string) (content : list xml) : xml :=
  Element name [] content.

(** [<plist><data>text</data></plist>] *)
Definition data_document (text : string) : xml :=
  element "plist" [element "data" [Text text]].

(** [<plist><integer>text</integer></plist>] *)
Definition integer_document (text : string) : xml :=
  element "plist" [element "integer" [Text text]].

(** [<plist><real>text</real></plist>] *)
Definition real_document (text : string) : xml :=
  element "plist" [element "real" [Text text]].

(** [<plist><date>text</date></plist>] *)
Definition date_document (text : string) : xml :=
  element "plist" [element "date" [Text text]].

(** [<plist><string>...</string></plist>], the text in the pieces [chunks]. *)
Definition string_document (chunks : list string) : xml :=
  element "plist" [element "string" (map Text chunks)].

(** [<plist><string>a</string><string>b</string></plist>] *)
Definition two_strings_document (a b : string) : xml :=
  element "plist" [element "string" [Text a]; element "string" [Text b]].

(** [<plist>...</plist>] with nothing but the text [chunks] inside. *)
Definition text_only_document (chunks : list string) : xml :=
  element "plist" (map Text chunks).

(** The value elements that take no text. *)
Definition textless_elements : list string :=
  ["array"; "dict"; "true"; "false"; "null"].

(** [<plist><dict/><dict/></plist>] *)
Definition two_roots_document : xml :=
  element "plist" [element "dict" []; element "dict" []].

(** [<array><true/></array>]: the wrapper is not [plist]. *)
Definition wrong_wrapper_document : xml :=
  element "array" [element "true" []].

(** [<plist><dict><key>x</key><key>y</key></dict></plist>] *)
Definition two_keys_document : xml :=
  element "plist" [element "dict" [element "key" [Text "x"]; element "key" [Text "y"]]].

(** [<plist><array><string>a</string><bogus/></array></plist>] *)
Definition unknown_element_document : xml :=
  element "plist"
    [element "array" [element "string" [Text "a"]; element "bogus" []]].

(** A real node as the current node, with its text buffered. *)
Definition open_real_state : @XMLParser decimal_reading :=
  mkXMLParser [] false 2 (Some 0)
    (mkState (Some 0) (mkKey "" false false))
    []
    "1.5"
    [plist.Live plist.factory (@plist.Real decimal_reading (mkDecimal 0 0))].

(** An integer node as the current node, with text that is not a number. *)
Definition open_integer_state : @XMLParser decimal_reading :=
  mkXMLParser [] false 2 (Some 0)
    (mkState (Some 0) (mkKey "" false false))
    []
    "notanumber"
    [plist.Live plist.factory (plist.Integer 0)].

(** A dictionary as the current node, holding the valid key ["x"]. *)
Definition keyed_dictionary_state : @XMLParser decimal_reading :=
  mkXMLParser [] false 2 (Some 0)
    (mkState (Some 0) (mkKey "x" true false))
    []
    ""
    [plist.Live plist.factory (plist.Dictionary [])].

(** A parser that holds the root of an earlier parse. *)
Definition used_parser : @XMLParser decimal_reading :=
  mkXMLParser [] false 0 (Some 0)
    (mkState nullptr (mkKey "" false false))
    []
    ""
    [plist.Live plist.factory (plist.Boolean true)].

(** A parser at rest over a store that holds an array and a string. *)
Definition two_nodes_parser : @XMLParser decimal_reading :=
  mkXMLParser [] false 0 nullptr
    (mkState nullptr (mkKey "" false false))
    []
    ""
    [plist.Live plist.factory (plist.Array []);
     plist.Live plist.factory (plist.String "")].

(** The string is pushed above the array, popped into it, and the array
    popped in turn. *)
Definition string_in_array : list stack_op := [Push 1; Pop; Pop].

Definition after_string_in_array : @XMLParser decimal_reading :=
  Eval vm_compute in
    match (onBeginParse ;; push (Some 0) ;; run_ops string_in_array) two_nodes_parser with
    | Returns _ q => q
    | _ => two_nodes_parser
    end.

(** After [<plist><array/>]: the root array is complete and is still the
    current node. *)
Definition after_root_array : @XMLParser decimal_reading :=
  Eval vm_compute in
    match deliver_all [StartElement "plist" []; StartElement "array" [];
                       EndElement "array"] (begin XMLParser_new) with
    | Returns _ q => q
    | _ => XMLParser_new
    end.

(** [<plist><dict><key>k</key><array><true/><string>s</string></array></dict></plist>] *)
Definition nested_document : xml :=
  element "plist"
    [element "dict"
       [element "key" [Text "k"];
        element "array" [element "true" []; element "string" [Text "s"]]]].

(** The events of [nested_document] up to the text of the string. *)
Definition nested_prefix : list event :=
  [StartElement "plist" []; StartElement "dict" [];
   StartElement "key" []; CharacterData "k"; EndElement "key";
   StartElement "array" []; StartElement "true" []; EndElement "true";
   StartElement "string" []; CharacterData "s"].

(** Inside the string of [nested_document]: the frames of the dictionary
    and of the array are saved. *)
Definition inside_nested_document : @XMLParser decimal_reading :=
  Eval vm_compute in
    match deliver_all nested_prefix (begin XMLParser_new) with
    | Returns _ q => q
    | _ => XMLParser_new
    end.

(** After the last event of [nested_document]. *)
Definition after_nested_document : @XMLParser decimal_reading :=
  Eval vm_compute in
    match deliver_all (events_of nested_document) (begin XMLParser_new) with
    | Returns _ q => q
    | _ => XMLParser_new
    end.

(** The parser after [parse] has returned the tree of [nested_document]. *)
Definition parsed_nested_document : @XMLParser decimal_reading :=
  Eval vm_compute in
    match parse_fp nested_document XMLParser_new with
    | Returns _ q => q
    | _ => XMLParser_new
    end.

(** The events of [real_document "1.5"] up to the text. *)
Definition real_prefix : list event :=
  [StartElement "plist" []; StartElement "real" []; CharacterData "1.5"].

(** Inside the real element of [real_document "1.5"], the text buffered. *)
Definition inside_real_document : @XMLParser decimal_reading :=
  Eval vm_compute in
    match deliver_all real_prefix (begin XMLParser_new) with
    | Returns _ q => q
    | _ => XMLParser_new
    end.

(** After the start of [plist]. *)
Definition inside_empty_plist : @XMLParser decimal_reading :=
  Eval vm_compute in
    match deliver_all [StartElement "plist" []] (begin XMLParser_new) with
    | Returns _ q => q
    | _ => XMLParser_new
    end.




(** [<plist><array><data/><date> </date></array></plist>] *)
Definition empty_leaves_document : xml :=
  element "plist"
    [element "array" [element "data" []; element "date" [Text " "]]].

(** The parser after [parse] has returned the tree of
    [empty_leaves_document]. *)
Definition parsed_empty_leaves : @XMLParser decimal_reading :=
  Eval vm_compute in
    match parse_fp empty_leaves_document XMLParser_new with
    | Returns _ q => q
    | _ => XMLParser_new
    end.

(** The value [{a: [true, "s", null, -12], b: {}}]. *)
Definition sample_tree : tree :=
  TDictionary
    [("a", TArray [TBoolean true; TString "s"; TNull; TInteger " -12"]);
     ("b", TDictionary [])].

(** Where the parse of [unknown_element_document] is stopped. *)
Definition stopped_at_unknown_element : @XMLParser decimal_reading :=
  Eval vm_compute in
    match deliver_all (events_of unknown_element_document) (begin XMLParser_new) with
    | Returns _ q => q
    | _ => XMLParser_new
    end.

(** ** Properties *)

Ltac run :=
  unfold error, stop, store, when, convert, on_heap in *;
  unfold bind, ret, get, gets, modify, throw, undefined in *;
  cbv beta iota in *.

Section Properties.
Context `{FloatingPoint}.

Lemma ptr_eqb_eq (a b : ptr) : ptr_eqb a b = true <-> a = b.
Proof.
  destruct a, b; simpl; try (split; congruence).
  rewrite Nat.eqb_eq. split; congruence.
Qed.

Lemma ptr_eqb_refl (a : ptr) : ptr_eqb a a = true.
Proof. now apply ptr_eqb_eq. Qed.

Lemma ptr_eqb_neq (a b : ptr) : ptr_eqb a b = false <-> a <> b.
Proof.
  rewrite <- ptr_eqb_eq. destruct (ptr_eqb a b); split; congruence.
Qed.

Lemma set_heap_id (p : XMLParser) : set_heap (heap p) p = p.
Proof. now destruct p. Qed.

Lemma same_parser_refl (p : XMLParser) : same_parser p p.
Proof. unfold same_parser. now rewrite set_heap_id. Qed.

Lemma same_parser_set_heap (h : plist.Heap) (p : XMLParser) :
  same_parser p (set_heap h p).
Proof. reflexivity. Qed.

Lemma same_parser_trans (p q r : XMLParser) :
  same_parser p q -> same_parser q r -> same_parser p r.
Proof.
  unfold same_parser. intros Hq Hr. rewrite Hr, Hq. reflexivity.
Qed.

Lemma member_same {A} this (body : nat -> plist.Object -> M A) p a q :
  (forall x o p' a' q', body x o p' = Returns a' q' -> same_parser p' q') ->
  member this body p = Returns a q -> same_parser p q.
Proof.
  intros Hbody. unfold member. destruct this as [x|]; run; [|discriminate].
  destruct (plist.read (heap p) x) as [o|]; [|discriminate].
  apply Hbody.
Qed.

Lemma Object_release_same this p q :
  Object_release this p = Returns tt q -> same_parser p q.
Proof.
  unfold Object_release. run.
  destruct (plist.release this (heap p)); [|discriminate].
  intros [= <-]. reflexivity.
Qed.

Lemma Array_append_same this object p q :
  Array_append this object p = Returns tt q -> same_parser p q.
Proof.
  apply member_same. intros x o p' [] q'. destruct o; run; try discriminate.
  intros [= <-]. reflexivity.
Qed.

Lemma Dictionary_set_same this k object p q :
  Dictionary_set this k object p = Returns tt q -> same_parser p q.
Proof.
  apply member_same. intros x o p' [] q'. destruct o; run; try discriminate.
  destruct (plist.find_entry k entries) as [old|].
  - destruct (Object_release old p') as [[] r| |] eqn:Hrel; try discriminate.
    intros [= <-]. apply Object_release_same in Hrel.
    eapply same_parser_trans; [exact Hrel|]. reflexivity.
  - intros [= <-]. reflexivity.
Qed.

Lemma pop_unfold (p : XMLParser) :
  pop p =
  if (match _stack p with [] => true | _ => false end)
     && is_null (current (_state p))
  then Returns tt (set_errors (_errors p ++ ["stack underflow"]) p)
  else if ptr_eqb (current (_state p)) (_root p)
  then Returns tt (set_cdata "" p)
  else
    match last (_stack p) with
    | None => Undefined
    | Some top =>
        match attach (_state p) (restore top p) with
        | Returns _ q => Returns tt (set_cdata "" q)
        | Throws e q => Throws e q
        | Undefined => Undefined
        end
    end.
Proof.
  unfold pop. run.
  destruct (_ && _); [reflexivity|].
  destruct (ptr_eqb _ _); [reflexivity|]. cbn.
  destruct (last (_stack p)); reflexivity.
Qed.

(** The attachment changes the store and the key flags only. *)
Lemma attach_inv old p q :
  attach old p = Returns tt q ->
  _errors q = _errors p /\ _stopped q = _stopped p /\ _depth q = _depth p /\
  _root q = _root p /\ _stack q = _stack p /\ _cdata q = _cdata p /\
  current (_state q) = current (_state p) /\
  value (key (_state q)) = value (key (_state p)).
Proof.
  unfold attach. run.
  destruct (plist.CastTo plist.kArray _ _) as [array|].
  - intros Ha. apply Array_append_same in Ha. rewrite Ha. now cbn.
  - destruct (plist.CastTo plist.kDictionary _ _) as [dict|].
    + destruct (negb (isExpectingKey p)).
      * destruct (Dictionary_set _ _ _ p) as [[] r| |] eqn:Hset; try discriminate.
        intros [= <-]. apply Dictionary_set_same in Hset. rewrite Hset. now cbn.
      * intros [= <-]. tauto.
    + intros [= <-]. tauto.
Qed.

Lemma pop_inv p q :
  pop p = Returns tt q ->
  _root q = _root p /\ _stopped q = _stopped p /\ _depth q = _depth p /\
  ((_stack p = [] /\ current (_state p) = None /\
    _stack q = [] /\ _state q = _state p)
   \/ (current (_state p) = _root p /\ _stack q = _stack p /\ _state q = _state p)
   \/ (current (_state p) <> _root p /\
       exists top, last (_stack p) = Some top /\
                   _stack q = removelast (_stack p) /\
                   current (_state q) = current top)).
Proof.
  rewrite pop_unfold.
  destruct ((match _stack p with [] => true | _ => false end)
            && is_null (current (_state p))) eqn:Hu.
  - intros [= <-]. cbn. repeat split; try reflexivity. left.
    apply andb_true_iff in Hu as [Hs Hc].
    destruct (_stack p); [|discriminate].
    destruct (current (_state p)); [discriminate|]. auto.
  - destruct (ptr_eqb (current (_state p)) (_root p)) eqn:Heq.
    + intros [= <-]. cbn. repeat split; try reflexivity. right. left.
      apply ptr_eqb_eq in Heq. auto.
    + apply ptr_eqb_neq in Heq.
      destruct (last (_stack p)) as [top|] eqn:Hlast; [|discriminate].
      destruct (attach _ _) as [[] r| |] eqn:Hat; try discriminate.
      intros [= <-]. apply attach_inv in Hat. cbn in *.
      destruct Hat as (_ & -> & -> & -> & -> & _ & -> & _).
      repeat split; try reflexivity. right. right. eauto.
Qed.

Lemma push_unfold (object : ptr) (p : XMLParser) :
  push object p =
  Returns tt
    (let p1 := if negb (is_null (current (_state p)))
               then set_stack (_stack p ++ [_state p]) p else p in
     let p2 := set_state (set_key_flags false false (set_current object (_state p1))) p1 in
     if is_null (_root p2) then set_root (current (_state p2)) p2 else p2).
Proof. reflexivity. Qed.

Lemma push_root (object : ptr) (p q : XMLParser) :
  push object p = Returns tt q ->
  _root q = if is_null (_root p) then object else _root p.
Proof.
  rewrite push_unfold. intros [= <-].
  destruct p as [e s d r st sk c h]; cbn.
  destruct (current st), r; reflexivity.
Qed.

Lemma bind_Returns {A B} (m : M A) (k : A -> M B) p b q :
  bind m k p = Returns b q ->
  exists a p', m p = Returns a p' /\ k a p' = Returns b q.
Proof.
  unfold bind. destruct (m p) as [a p'| |]; try discriminate. eauto.
Qed.

Lemma last_app_singleton {A} (l : list A) (x : A) : last (l ++ [x]) = Some x.
Proof. apply last_snoc. Qed.

Lemma removelast_nonempty {A} (l : list A) (x : A) :
  last l = Some x -> l = removelast l ++ [x].
Proof.
  intros Hl. destruct (decide (l = [])) as [->|Hne]; [discriminate|].
  rewrite (app_removelast_last x Hne) at 1.
  f_equal. f_equal.
  destruct l as [|y l] using rev_ind; [congruence|].
  rewrite last_snoc in Hl. injection Hl as <-. apply List.last_last.
Qed.

(** *** The stack discipline of [push] and [pop] *)

Lemma rooted_onBeginParse (p q : XMLParser) :
  onBeginParse p = Returns tt q -> rooted (_stack p) q.
Proof.
  intros [= <-]. exists []. cbn. rewrite app_nil_r. auto.
Qed.

Lemma rooted_push stale (a : nat) (p q : XMLParser) :
  rooted stale p -> push (Some a) p = Returns tt q -> rooted stale q.
Proof.
  intros (saved & Hst & Hroot). rewrite push_unfold. intros [= <-].
  destruct p as [e s d r st sk c h]; cbn in *. subst sk.
  destruct r as [r|].
  - destruct saved as [|f saved].
    + rewrite Hroot. cbn. exists [st]. cbn. rewrite app_nil_r. auto.
    + destruct (current st); cbn.
      * exists ((f :: saved) ++ [st]). cbn. rewrite <- app_assoc. auto.
      * exists (f :: saved). cbn. auto.
  - destruct Hroot as [-> ->]. cbn. exists []. cbn. auto.
Qed.

Lemma rooted_pop stale (p q : XMLParser) :
  rooted stale p -> pop p = Returns tt q -> rooted stale q.
Proof.
  intros (saved & Hst & Hroot) Hpop.
  apply pop_inv in Hpop as (Hr & _ & _ & Hcases). unfold rooted. rewrite Hr.
  destruct Hcases as [(Hs & Hc & Hs' & Hst') | [(Hc & Hs' & Hst') | (Hne & top & Hlast & Hs' & Hc')]].
  - exists saved. rewrite Hs', Hst'. split; [congruence|exact Hroot].
  - exists saved. rewrite Hs', Hst'. auto.
  - rewrite Hs', Hc'. destruct (_root p) as [r|].
    + destruct saved as [|f saved] using rev_ind; [congruence|]. clear IHsaved.
      rewrite Hst, app_assoc in Hlast |- *. rewrite last_snoc in Hlast.
      injection Hlast as <-. rewrite removelast_last.
      exists saved. split; [reflexivity|].
      destruct saved as [|g saved]; cbn in *; auto.
    + destruct Hroot as [Hc _]. congruence.
Qed.

Lemma rooted_back_defined stale (p : XMLParser) :
  rooted stale p -> back_defined p.
Proof.
  intros (saved & Hst & Hroot) Hnull Hne Hempty.
  rewrite Hempty in Hst. symmetry in Hst. apply app_eq_nil in Hst as [_ ->].
  destruct (_root p); [congruence|]. destruct Hroot. contradiction.
Qed.

Lemma rooted_run_ops stale (ops : list stack_op) (p q : XMLParser) :
  rooted stale p -> run_ops ops p = Returns tt q -> rooted stale q.
Proof.
  revert p. induction ops as [|o ops IH]; intros p Hp; cbn.
  - now intros [= <-].
  - intros Hrun. apply bind_Returns in Hrun as ([] & p' & Ho & Hrest).
    apply (IH p'); [|exact Hrest].
    destruct o; cbn in Ho; eauto using rooted_push, rooted_pop.
Qed.

Lemma root_kept_by_ops (r : ptr) (ops : list stack_op) (p q : XMLParser) :
  r <> nullptr -> _root p = r -> run_ops ops p = Returns tt q -> _root q = r.
Proof.
  intros Hr. revert p. induction ops as [|o ops IH]; intros p Hp; cbn.
  - now intros [= <-].
  - intros Hrun. apply bind_Returns in Hrun as ([] & p' & Ho & Hrest).
    apply (IH p'); [|exact Hrest].
    destruct o; cbn in Ho.
    + apply push_root in Ho. rewrite Ho, Hp. destruct r; [reflexivity|]. now elim Hr.
    + apply pop_inv in Ho as (-> & _). exact Hp.
Qed.

(** C8 — the root is the first node pushed.  In a parse (after
    [onBeginParse]) the first node given to [push] is recorded as the root,
    whatever its type, and whatever pushes and pops follow leave the root
    handle on that node. *)
Theorem root_is_first_pushed (p : XMLParser) (first : nat)
    (ops : list stack_op) (q : XMLParser) :
  (onBeginParse ;; push (Some first) ;; run_ops ops) p = Returns tt q ->
  _root q = Some first.
Proof.
  intros Hrun.
  apply bind_Returns in Hrun as ([] & p0 & Hbegin & Hrun).
  apply bind_Returns in Hrun as ([] & p1 & Hpush & Hrun).
  apply (root_kept_by_ops (Some first) ops p1); [discriminate| |exact Hrun].
  apply push_root in Hpush. rewrite Hpush.
  injection Hbegin as <-. reflexivity.
Qed.

(** C10 — the restore of [pop] always finds a frame.  After [onBeginParse],
    every sequence of pushes and pops leads to a state where a current node
    that is neither null nor the root has a saved frame below it; so with an
    empty stack [pop] is either the reported "stack underflow" (no current
    node) or, at the root, only the clearing of the buffer, and never reads
    the back of an empty stack. *)
Theorem pop_restore_finds_frame (p : XMLParser) (ops : list stack_op)
    (q : XMLParser) :
  (onBeginParse ;; run_ops ops) p = Returns tt q ->
  back_defined q /\
  (_stack q = [] ->
   pop q = if is_null (current (_state q))
           then error "stack underflow" q
           else Returns tt (set_cdata "" q)).
Proof.
  intros Hrun.
  apply bind_Returns in Hrun as ([] & p0 & Hbegin & Hrun).
  apply rooted_onBeginParse in Hbegin.
  pose proof (rooted_run_ops _ _ _ _ Hbegin Hrun) as Hq.
  split; [eapply rooted_back_defined; exact Hq|].
  intros Hempty. rewrite pop_unfold, Hempty. cbn.
  destruct Hq as (saved & Hst & Hroot).
  rewrite Hempty in Hst. symmetry in Hst. apply app_eq_nil in Hst as [_ ->].
  destruct (_root q) as [r|].
  - rewrite Hroot. cbn. now rewrite Nat.eqb_refl.
  - destruct Hroot as [-> _]. reflexivity.
Qed.

(** *** The reentry guard *)

(** C9 — a parser that holds a root refuses to parse again: both entry
    points return null at once, and neither the parser nor the store
    changes (no callback runs, no message is delivered). *)
Theorem parse_refuses_with_root (p : XMLParser)
    (fs : string -> option xml) (path : string) (fp : xml) :
  _root p <> nullptr ->
  parse_path fs path p = Returns nullptr p /\
  parse_fp fp p = Returns nullptr p.
Proof.
  intros Hroot. unfold parse_path, parse_fp. run.
  destruct (_root p); [cbn; auto|]. now elim Hroot.
Qed.

(** *** Attachment to a dictionary *)

Lemma last_Some_nonempty {A} (l : list A) (x : A) :
  last l = Some x -> (match l with [] => true | _ => false end) = false.
Proof. destruct l; [discriminate|reflexivity]. Qed.

Lemma pop_dictionary_frame (p : XMLParser) (top : State) (d : nat)
    (entries : list (string * ptr)) :
  current (_state p) <> _root p ->
  last (_stack p) = Some top ->
  current top = Some d ->
  plist.read (heap p) d = Some (plist.Dictionary entries) ->
  let k := value (key top) in
  let attached h items :=
    Returns tt
      (set_cdata ""
         (set_state (set_key_flags false false top)
            (set_heap (plist.write d (plist.Dictionary items) h) (restore top p)))) in
  if valid (key top) then
    match plist.find_entry k entries with
    | None => pop p = attached (heap p) (entries ++ [(k, current (_state p))])
    | Some old =>
        forall h, plist.release old (heap p) = Some h ->
        pop p = attached h (plist.replace_entry k (current (_state p)) entries)
    end
  else pop p = Returns tt (set_cdata "" (restore top p)).
Proof.
  intros Hne Hlast Hd Hread k attached.
  rewrite pop_unfold, (last_Some_nonempty _ _ Hlast), Hlast.
  apply ptr_eqb_neq in Hne. rewrite Hne. cbn [andb].
  unfold attach. run. cbn [restore set_stack set_state _state heap current].
  rewrite Hd. unfold plist.CastTo. rewrite Hread. cbn.
  unfold isExpectingKey, inDictionary, plist.CastTo. cbn. rewrite Hd, Hread. cbn.
  destruct (valid (key top)) eqn:Hvalid; cbn; [|reflexivity].
  rewrite Hread. fold k.
  destruct (plist.find_entry k entries) as [old|]; [|reflexivity].
  intros h Hrel. unfold Object_release. run. cbn. rewrite Hrel. reflexivity.
Qed.

Lemma pop_array_frame (p : XMLParser) (top : State) (a : nat) (items : list ptr) :
  current (_state p) <> _root p ->
  last (_stack p) = Some top ->
  current top = Some a ->
  plist.read (heap p) a = Some (plist.Array items) ->
  pop p =
  Returns tt
    (set_cdata ""
       (set_heap (plist.write a (plist.Array (items ++ [current (_state p)])) (heap p))
          (restore top p))).
Proof.
  intros Hne Hlast Ha Hread.
  rewrite pop_unfold, (last_Some_nonempty _ _ Hlast), Hlast.
  apply ptr_eqb_neq in Hne. rewrite Hne. cbn [andb].
  unfold attach. run. cbn [restore set_stack set_state _state heap current].
  rewrite Ha. unfold plist.CastTo. rewrite Hread. cbn.
  unfold Array_append, member. run. cbn. rewrite Hread. reflexivity.
Qed.

(** *** Key/value alternation *)

Lemma read_Some_lt (h : plist.Heap) (a : nat) (o : plist.Object) :
  plist.read h a = Some o -> a < length h.
Proof.
  unfold plist.read. destruct (h !! a) eqn:Hl; [|discriminate].
  intros _. eapply lookup_lt_Some; eauto.
Qed.

Lemma read_app (h h' : plist.Heap) (a : nat) (o : plist.Object) :
  plist.read h a = Some o -> plist.read (h ++ h') a = Some o.
Proof.
  intros Hr. pose proof (read_Some_lt _ _ _ Hr) as Hlt.
  unfold plist.read in *. now rewrite lookup_app_l.
Qed.

Lemma inDictionary_read (p : XMLParser) :
  inDictionary p = true ->
  exists d entries, current (_state p) = Some d /\
                    plist.read (heap p) d = Some (plist.Dictionary entries).
Proof.
  unfold inDictionary, plist.CastTo.
  destruct (current (_state p)) as [d|]; [|discriminate].
  destruct (plist.read (heap p) d) as [o|] eqn:Hr; [|discriminate].
  destruct o; try discriminate. eauto.
Qed.

Lemma read_inDictionary (p : XMLParser) (d : nat) (entries : list (string * ptr)) :
  current (_state p) = Some d ->
  plist.read (heap p) d = Some (plist.Dictionary entries) ->
  inDictionary p = true.
Proof.
  intros Hc Hr. unfold inDictionary, plist.CastTo. now rewrite Hc, Hr.
Qed.

Lemma deliver_all_cons (e : event) (rest : list event) (p : XMLParser) :
  deliver_all (e :: rest) p =
  if _stopped p then Returns tt p
  else match deliver e p with
       | Returns _ q => deliver_all rest q
       | Throws x q => Throws x q
       | Undefined => Undefined
       end.
Proof.
  change (deliver_all (e :: rest) p)
    with ((stopped <- gets _stopped ;;
           if stopped then ret tt else (deliver e ;; deliver_all rest)) p).
  run. destruct (_stopped p); reflexivity.
Qed.

Lemma deliver_all_stopped (events : list event) (p : XMLParser) :
  _stopped p = true -> deliver_all events p = Returns tt p.
Proof.
  intros Hs. destruct events; [reflexivity|].
  now rewrite deliver_all_cons, Hs.
Qed.

(** C7 — key and value elements alternate inside a dictionary.  When the
    current node is a dictionary and an element inside it opens (depth 2 or
    more): a [key] while a key is already valid is reported as an unexpected
    key, any other element while no key is valid is reported as found where a
    key was expected; no node is pushed, and the parse aborts: a stop is
    requested and none of the events that follow is delivered. *)
Theorem dictionary_alternation (p : XMLParser) (name : string)
    (attrs : string_map) (rest : list event) :
  _stopped p = false ->
  2 <= _depth p ->
  inDictionary p = true ->
  valid (key (_state p)) = String.eqb name "key" ->
  exists q,
    deliver_all (StartElement name attrs :: rest) p = Returns tt q /\
    _errors q = _errors p ++ [if String.eqb name "key" then unexpected_key
                              else key_expected name] /\
    _stopped q = true /\
    _root q = _root p /\ _state q = _state p /\ _stack q = _stack p.
Proof.
  intros Hrun Hdepth Hdict Hvalid.
  destruct (inDictionary_read p Hdict) as (d & entries & Hc & Hr).
  rewrite deliver_all_cons, Hrun.
  unfold deliver. run. unfold onStartElement, new_Dictionary. run.
  cbn [plist.alloc]. cbv beta iota.
  destruct (_depth p =? 0) eqn:H0; [apply Nat.eqb_eq in H0; lia|].
  destruct (_depth p =? 1) eqn:H1; [apply Nat.eqb_eq in H1; lia|].
  cbn [andb]. unfold beginObject. run.
  set (p' := set_heap _ p).
  assert (Hdict' : inDictionary p' = true).
  { apply (read_inDictionary p' d entries); [exact Hc|].
    subst p'. cbn. now apply read_app. }
  rewrite Hdict'. unfold isExpectingKey. rewrite Hdict'.
  change (valid (key (_state p'))) with (valid (key (_state p))).
  rewrite Hvalid.
  destruct (String.eqb name "key"); cbn [negb andb]; cbv beta iota;
    (rewrite deliver_all_stopped; [|reflexivity]);
    (eexists; split; [reflexivity|cbn; auto]).
Qed.

(** *** Leaf coercion *)

(** C1 (what the code does) — closing a [real] element never stores into
    the real node.  With a real leaf as the current node, the end handler
    casts it to [Integer], gets null, and calls [setValue] through it: the
    behaviour is undefined whenever [std::stod] accepts the text, and is the
    exception of [std::stod] otherwise; in neither case is the node given
    the value or popped. *)
Theorem real_close_never_stores (p : XMLParser) (a : nat) (d : double)
    (depth : nat) :
  current (_state p) = Some a ->
  plist.read (heap p) a = Some (plist.Real d) ->
  onEndElement "real" depth p =
  match stod (_cdata p) with
  | Value _ => Undefined
  | Raises e => Throws e p
  end.
Proof.
  intros Hc Hr. unfold onEndElement, endObject. cbn [String.eqb Ascii.eqb Bool.eqb].
  cbv beta iota. unfold endReal. run.
  destruct (stod (_cdata p)); [|reflexivity].
  unfold plist.CastTo. rewrite Hc, Hr. reflexivity.
Qed.

(** C5 (as the code has it) — a failed integer conversion leaves the handler
    as an exception.  When [std::stoi] rejects the buffered text (no digit
    after the optional white space and sign, or a value outside [int]), the
    close of the [integer] element throws that exception with the parser and
    the store as they were: no value is stored, the node is not popped,
    nothing is reported through the error callback, no stop is requested. *)
Theorem integer_close_throws (p : XMLParser) (e : exception) (depth : nat) :
  stoi (_cdata p) = Raises e ->
  onEndElement "integer" depth p = Throws e p.
Proof.
  intros Hstoi. unfold onEndElement, endObject. cbn [String.eqb Ascii.eqb Bool.eqb].
  cbv beta iota. unfold endInteger. run. now rewrite Hstoi.
Qed.

(** The text a successful conversion accepts may be followed by anything:
    the value of the digits is stored and the node popped. *)
Lemma integer_close_stores (p : XMLParser) (a : nat) (z v : Z) (depth : nat) :
  current (_state p) = Some a ->
  plist.read (heap p) a = Some (plist.Integer z) ->
  stoi (_cdata p) = Value v ->
  onEndElement "integer" depth p =
  (pop ;; ret tt) (set_heap (plist.write a (plist.Integer v) (heap p)) p).
Proof.
  intros Hc Hr Hstoi. unfold onEndElement, endObject.
  cbn [String.eqb Ascii.eqb Bool.eqb]. cbv beta iota. unfold endInteger. run.
  rewrite Hstoi. unfold plist.CastTo. rewrite Hc, Hr. cbn.
  unfold Integer_setValue, member. run. rewrite Hr.
  destruct (pop _) as [[] q| |]; reflexivity.
Qed.

(** *** Elements after the root *)

(** An element that opens at depth 1 when a root is recorded is reported and
    otherwise passed over: no node is pushed and no stop is requested; the
    [new Dictionary] of the handler stays in the store. *)
Lemma element_after_root (p : XMLParser) (name : string) (attrs : string_map) :
  _depth p = 1 ->
  _root p <> nullptr ->
  deliver (StartElement name attrs) p =
  Returns tt
    (set_depth 2
       (set_errors (_errors p ++ [after_root name])
          (set_heap (heap p ++ [plist.Live plist.operator_new (plist.Dictionary [])])
             p))).
Proof.
  intros Hd Hroot. unfold deliver. run.
  unfold onStartElement, new_Dictionary. run. cbn [plist.alloc]. cbv beta iota.
  rewrite Hd. cbn [Nat.eqb andb set_heap _root].
  destruct (_root p); [reflexivity|]. now elim Hroot.
Qed.

(** *** Character data *)

Lemma reject_cdata_spec (cdata : string) (p : XMLParser) :
  reject_cdata cdata p =
  Returns tt
    (match unexpected cdata with
     | O => p
     | S _ =>
         set_stopped true
           (set_errors (_errors p ++ repeat "unexpected cdata" (unexpected cdata)) p)
     end).
Proof.
  revert p. induction cdata as [|c rest IH]; intros p; [reflexivity|].
  cbn [reject_cdata unexpected]. run. destruct (isspace c); cbn [negb]; cbv beta iota.
  - rewrite IH. reflexivity.
  - rewrite IH. cbn [Nat.add]. destruct (unexpected rest) as [|n].
    + reflexivity.
    + destruct p; cbn. unfold set_stopped, set_errors; cbn.
      now rewrite <- app_assoc.
Qed.

(** *** Ownership in the store *)

Scheme owns_mut := Minimality for owns Sort Prop
  with owns_all_mut := Minimality for owns_all Sort Prop.
Combined Scheme owns_mutind from owns_mut, owns_all_mut.

Lemma lookup_free_all (ns : list nat) (h : plist.Heap) (i : nat) :
  free_all ns h !! i =
  (fun c => if bool_decide (i ∈ ns) then plist.Freed else c) <$> h !! i.
Proof. unfold free_all. now rewrite list_lookup_imap. Qed.

Lemma lookup_free_all_notin (ns : list nat) (h : plist.Heap) (i : nat) :
  i ∉ ns -> free_all ns h !! i = h !! i.
Proof.
  intros Hi. rewrite lookup_free_all, bool_decide_eq_false_2 by exact Hi.
  now destruct (h !! i).
Qed.

Lemma lookup_free_all_in (ns : list nat) (h : plist.Heap) (i : nat) :
  i ∈ ns -> i < length h -> free_all ns h !! i = Some plist.Freed.
Proof.
  intros Hi Hlt. rewrite lookup_free_all, bool_decide_eq_true_2 by exact Hi.
  destruct (lookup_lt_is_Some_2 h i Hlt) as [c ->]. reflexivity.
Qed.

Lemma length_free_all (ns : list nat) (h : plist.Heap) :
  length (free_all ns h) = length h.
Proof. unfold free_all. apply length_imap. Qed.

Lemma free_all_cons (a : nat) (ns : list nat) (h : plist.Heap) :
  free_all ns (<[a := plist.Freed]> h) = free_all (a :: ns) h.
Proof.
  apply list_eq. intros i. rewrite !lookup_free_all.
  destruct (decide (a = i)) as [->|Hne].
  - destruct (decide (i < length h)) as [Hlt|Hge].
    + rewrite list_lookup_insert_eq by exact Hlt.
      destruct (lookup_lt_is_Some_2 h i Hlt) as [c ->]. cbn.
      rewrite (bool_decide_eq_true_2 (i ∈ i :: ns)) by left.
      now destruct (bool_decide _).
    + rewrite list_insert_ge by lia. rewrite lookup_ge_None_2 by lia. reflexivity.
  - rewrite list_lookup_insert_ne by exact Hne.
    destruct (h !! i) as [c|]; [|reflexivity]. cbn.
    destruct (decide (i ∈ ns)) as [Hin|Hout].
    + rewrite !bool_decide_eq_true_2; [reflexivity|now right|exact Hin].
    + rewrite !bool_decide_eq_false_2; [reflexivity| |exact Hout].
      rewrite elem_of_cons. intros [?|?]; congruence.
Qed.

Lemma free_all_app (ns ms : list nat) (h : plist.Heap) :
  free_all ms (free_all ns h) = free_all (ns ++ ms) h.
Proof.
  apply list_eq. intros i. rewrite !lookup_free_all.
  destruct (h !! i) as [c|]; [|reflexivity]. cbn. f_equal.
  destruct (decide (i ∈ ns)) as [Hn|Hn], (decide (i ∈ ms)) as [Hm|Hm];
    repeat first
      [ rewrite (bool_decide_eq_true_2 (i ∈ ns)) by exact Hn
      | rewrite (bool_decide_eq_false_2 (i ∈ ns)) by exact Hn
      | rewrite (bool_decide_eq_true_2 (i ∈ ms)) by exact Hm
      | rewrite (bool_decide_eq_false_2 (i ∈ ms)) by exact Hm
      | rewrite (bool_decide_eq_true_2 (i ∈ ns ++ ms)) by (rewrite elem_of_app; tauto)
      | rewrite (bool_decide_eq_false_2 (i ∈ ns ++ ms)) by (rewrite elem_of_app; tauto) ];
    reflexivity.
Qed.

Lemma agree_refl (ns : list nat) (h : plist.Heap) : agree ns h h.
Proof. now intros x _. Qed.

Lemma agree_app (ns ms : list nat) (h h' : plist.Heap) :
  agree (ns ++ ms) h h' <-> agree ns h h' /\ agree ms h h'.
Proof.
  unfold agree. setoid_rewrite elem_of_app. firstorder.
Qed.

Lemma agree_trans (ns : list nat) (h1 h2 h3 : plist.Heap) :
  agree ns h1 h2 -> agree ns h2 h3 -> agree ns h1 h3.
Proof. intros H12 H23 x Hx. rewrite (H23 x Hx). now apply H12. Qed.

Lemma agree_free_all (ns ms : list nat) (h : plist.Heap) :
  (forall x, x ∈ ms -> x ∉ ns) -> agree ms h (free_all ns h).
Proof.
  intros Hdisj x Hx. now rewrite lookup_free_all_notin by auto.
Qed.

Lemma agree_insert (ms : list nat) (h : plist.Heap) (a : nat) (c : plist.cell) :
  a ∉ ms -> agree ms h (<[a := c]> h).
Proof.
  intros Ha x Hx. rewrite list_lookup_insert_ne; [reflexivity|].
  intros ->. contradiction.
Qed.

Lemma agree_alloc (ms : list nat) (h more : plist.Heap) :
  (forall x, x ∈ ms -> x < length h) -> agree ms h (h ++ more).
Proof.
  intros Hlt x Hx. now rewrite lookup_app_l by auto.
Qed.

(** Ownership reads only the cells owned. *)
Lemma owns_agree_mut (h : plist.Heap) :
  (forall p ns, owns h p ns -> forall h', agree ns h h' -> owns h' p ns) /\
  (forall ps ns, owns_all h ps ns -> forall h', agree ns h h' -> owns_all h' ps ns).
Proof.
  apply owns_mutind.
  - intros a c cs ns Hl Hs _ IH h' Hag.
    pose proof (Hag a ltac:(left)) as Ha. rewrite Hl in Ha.
    destruct (h' !! a) as [c'|] eqn:Hl'; [|discriminate]. simpl in Ha.
    injection Ha as Ha. econstructor; [exact Hl'|rewrite Ha; exact Hs|].
    apply IH. intros x Hx. apply Hag. now right.
  - constructor.
  - intros p ps ns ms _ IH1 _ IH2 h' Hag.
    apply agree_app in Hag as [H1 H2]. constructor; auto.
Qed.

Lemma owns_agree (h h' : plist.Heap) (p : ptr) (ns : list nat) :
  owns h p ns -> agree ns h h' -> owns h' p ns.
Proof. intros Ho. now apply (proj1 (owns_agree_mut h)). Qed.

Lemma owns_all_agree (h h' : plist.Heap) (ps : list ptr) (ns : list nat) :
  owns_all h ps ns -> agree ns h h' -> owns_all h' ps ns.
Proof. intros Ho. now apply (proj2 (owns_agree_mut h)). Qed.

(** What is owned is live. *)
Lemma owns_live_mut (h : plist.Heap) :
  (forall p ns, owns h p ns ->
     forall x, x ∈ ns -> exists c cs, h !! x = Some c /\ shape c = Some cs) /\
  (forall ps ns, owns_all h ps ns ->
     forall x, x ∈ ns -> exists c cs, h !! x = Some c /\ shape c = Some cs).
Proof.
  apply owns_mutind.
  - intros a c cs ns Hl Hs _ IH x Hx. apply elem_of_cons in Hx as [->|Hx]; eauto.
  - intros x Hx. inversion Hx.
  - intros p ps ns ms _ IH1 _ IH2 x Hx. apply elem_of_app in Hx as [Hx|Hx]; auto.
Qed.

Lemma owns_all_lt (h : plist.Heap) (ps : list ptr) (ns : list nat) (x : nat) :
  owns_all h ps ns -> x ∈ ns -> x < length h.
Proof.
  intros Ho Hx. destruct (proj2 (owns_live_mut h) _ _ Ho x Hx) as (c & _ & Hl & _).
  eapply lookup_lt_Some; eauto.
Qed.

Lemma owns_lt (h : plist.Heap) (p : ptr) (ns : list nat) (x : nat) :
  owns h p ns -> x ∈ ns -> x < length h.
Proof.
  intros Ho Hx. destruct (proj1 (owns_live_mut h) _ _ Ho x Hx) as (c & _ & Hl & _).
  eapply lookup_lt_Some; eauto.
Qed.

Lemma owns_all_app (h : plist.Heap) (ps qs : list ptr) (ns : list nat) :
  owns_all h (ps ++ qs) ns <->
  exists n1 n2, ns = n1 ++ n2 /\ owns_all h ps n1 /\ owns_all h qs n2.
Proof.
  revert ns. induction ps as [|p ps IH]; intros ns; cbn.
  - split.
    + intros Ho. exists [], ns. repeat split; [constructor|exact Ho].
    + intros (n1 & n2 & -> & H1 & H2). inversion H1; subst. exact H2.
  - split.
    + intros Ho. inversion Ho as [|? ? n0 ms Hp Hrest]; subst.
      apply IH in Hrest as (n1 & n2 & -> & H1 & H2).
      exists (n0 ++ n1), n2. rewrite app_assoc.
      repeat split; [constructor; assumption|exact H2].
    + intros (n1 & n2 & -> & H1 & H2).
      inversion H1 as [|? ? n0 ms Hp Hrest]; subst.
      rewrite <- app_assoc. constructor; [exact Hp|].
      apply IH. eauto.
Qed.

Lemma owns_all_singleton (h : plist.Heap) (p : ptr) (ns : list nat) :
  owns_all h [p] ns <-> owns h p ns.
Proof.
  split.
  - intros Ho. inversion Ho as [|? ? n0 ms Hp Hrest]; subst.
    inversion Hrest; subst. now rewrite app_nil_r.
  - intros Ho. rewrite <- (app_nil_r ns). constructor; [exact Ho|constructor].
Qed.

Lemma NoDup_bounded_length (ns : list nat) (n : nat) :
  NoDup ns -> (forall x, x ∈ ns -> x < n) -> length ns <= n.
Proof.
  intros Hnd Hlt. rewrite <- (length_seq n 0).
  apply submseteq_length, NoDup_submseteq; [exact Hnd|].
  intros x Hx. apply elem_of_seq. specialize (Hlt x Hx). lia.
Qed.

(** Releasing a node frees exactly the cells it owns. *)
Lemma destroy_owns_mut (h : plist.Heap) :
  (forall p ns, owns h p ns ->
     forall h' fuel, agree ns h h' -> NoDup ns -> length ns <= fuel ->
     plist.destroy fuel p h' = Some (free_all ns h')) /\
  (forall ps ns, owns_all h ps ns ->
     forall h' fuel, agree ns h h' -> NoDup ns -> length ns <= fuel ->
     plist.release_all (plist.destroy fuel) ps h' = Some (free_all ns h')).
Proof.
  apply owns_mutind.
  - intros a c cs ns Hl Hs _ IH h' fuel Hag Hnd Hfuel.
    destruct fuel as [|fuel]; [cbn in Hfuel; lia|]. cbn [plist.destroy].
    pose proof (Hag a ltac:(left)) as Ha. rewrite Hl in Ha.
    destruct (h' !! a) as [c'|] eqn:Hl'; [|discriminate]. simpl in Ha.
    injection Ha as Ha. rewrite Hs in Ha.
    destruct c' as [how o|]; [|discriminate]. cbn in Ha. injection Ha as ->.
    apply NoDup_cons in Hnd as [Hnotin Hnd].
    rewrite IH; [now rewrite free_all_cons| |exact Hnd|cbn in Hfuel; lia].
    eapply agree_trans; [|apply agree_insert; exact Hnotin].
    intros x Hx. apply Hag. now right.
  - intros h' fuel _ _ _. cbn. f_equal. apply list_eq. intros i.
    rewrite lookup_free_all_notin; [reflexivity|]. inversion 1.
  - intros p ps ns ms _ IH1 _ IH2 h' fuel Hag Hnd Hfuel.
    apply agree_app in Hag as [Hag1 Hag2].
    apply NoDup_app in Hnd as (Hnd1 & Hdisj & Hnd2).
    rewrite length_app in Hfuel.
    change (plist.release_all (plist.destroy fuel) (p :: ps) h')
      with (match plist.destroy fuel p h' with
            | Some h'' => plist.release_all (plist.destroy fuel) ps h''
            | None => None
            end).
    rewrite IH1; [|exact Hag1|exact Hnd1|lia].
    rewrite IH2; [now rewrite free_all_app| |exact Hnd2|lia].
    eapply agree_trans; [exact Hag2|]. apply agree_free_all.
    intros x Hx Hx'. exact (Hdisj x Hx' Hx).
Qed.

Lemma release_owns (h : plist.Heap) (p : ptr) (ns : list nat) :
  owns h p ns -> NoDup ns -> plist.release p h = Some (free_all ns h).
Proof.
  intros Ho Hnd. unfold plist.release.
  apply (proj1 (destroy_owns_mut h) p ns Ho); [apply agree_refl|exact Hnd|].
  apply Nat.le_le_succ_r, NoDup_bounded_length; [exact Hnd|].
  intros x Hx. eapply owns_lt; eauto.
Qed.

Lemma read_lookup (h : plist.Heap) (a : nat) (o : plist.Object) :
  plist.read h a = Some o <-> exists how, h !! a = Some (plist.Live how o).
Proof.
  unfold plist.read. destruct (h !! a) as [[how o'|]|]; split;
    try discriminate; try (intros [? [=]]; fail).
  - intros [= ->]. eauto.
  - intros [how' [= -> ->]]. reflexivity.
Qed.

Lemma write_insert (h : plist.Heap) (a : nat) (how : plist.allocation)
    (o o' : plist.Object) :
  h !! a = Some (plist.Live how o) ->
  plist.write a o' h = <[a := plist.Live how o']> h.
Proof. intros Hl. unfold plist.write. now rewrite Hl. Qed.

Lemma parent_frame_keeps (h h' : plist.Heap) (s : State) :
  keeps_types h h' -> parent_frame h s -> parent_frame h' s.
Proof.
  intros Hk (a & o & Hc & Hr & Ho).
  destruct (Hk a o Hr) as (o' & Hr' & Ht).
  exists a, o'. repeat split; [exact Hc|exact Hr'|].
  destruct o; try contradiction; destruct o'; try discriminate; exact Ho.
Qed.

Lemma keeps_types_app (h more : plist.Heap) : keeps_types h (h ++ more).
Proof. intros a o Hr. exists o. split; [now apply read_app|reflexivity]. Qed.

Lemma keeps_types_insert (h : plist.Heap) (a : nat) (how : plist.allocation)
    (o o' : plist.Object) :
  h !! a = Some (plist.Live how o) ->
  plist.type o' = plist.type o ->
  keeps_types h (<[a := plist.Live how o']> h).
Proof.
  intros Hl Ht x ox Hx. destruct (decide (a = x)) as [<-|Hne].
  - exists o'. apply read_lookup in Hx as [how' Hx].
    rewrite Hl in Hx. injection Hx as <- <-. split; [|exact Ht].
    apply read_lookup. exists how. apply list_lookup_insert_eq.
    eapply lookup_lt_Some; eauto.
  - exists ox. split; [|reflexivity]. unfold plist.read in *.
    now rewrite list_lookup_insert_ne.
Qed.

Lemma owns_inv (h : plist.Heap) (p : ptr) (ns : list nat) :
  owns h p ns ->
  exists a c cs ns',
    p = Some a /\ ns = a :: ns' /\ h !! a = Some c /\ shape c = Some cs /\
    owns_all h cs ns'.
Proof. intros Ho. inversion Ho; subst. eauto 10. Qed.

Lemma owns_all_elem (h : plist.Heap) (ps : list ptr) (ns : list nat) (p : ptr) :
  owns_all h ps ns -> p ∈ ps -> exists a, p = Some a /\ a ∈ ns.
Proof.
  induction 1 as [|q ps ns ms Hq Hps IH]; intros Hin; [inversion Hin|].
  apply elem_of_cons in Hin as [->|Hin].
  - apply owns_inv in Hq as (a & c & cs & ns' & -> & -> & _).
    exists a. split; [reflexivity|]. apply elem_of_app. left. left.
  - destruct (IH Hin) as (a & -> & Ha). exists a. split; [reflexivity|].
    apply elem_of_app. now right.
Qed.

(** *** The state of a parse *)

Lemma consistent_ext (h0 : plist.Heap) (p q : XMLParser) :
  heap q = heap p -> _root q = _root p -> _stack q = _stack p ->
  current (_state q) = current (_state p) ->
  consistent h0 p -> consistent h0 q.
Proof.
  intros Hh Hr Hs Hc. unfold consistent, rooted, held.
  now rewrite Hh, Hr, Hs, Hc.
Qed.

Lemma held_current (p : XMLParser) :
  _root p <> None -> current (_state p) ∈ held p.
Proof.
  unfold held. destruct (_root p); [|congruence]. intros _.
  apply elem_of_app. right. left.
Qed.

Lemma consistent_root_None (h0 : plist.Heap) (p : XMLParser) :
  consistent h0 p -> _root p = None ->
  current (_state p) = None /\ _stack p = [].
Proof.
  intros ((saved & Hst & Hroot) & _) Hnone. rewrite Hnone in Hroot.
  destruct Hroot as [Hc ->]. auto.
Qed.

Lemma consistent_current (h0 : plist.Heap) (p : XMLParser) :
  consistent h0 p -> _root p <> None ->
  exists a, current (_state p) = Some a /\ length h0 <= a /\ a < length (heap p).
Proof.
  intros (_ & _ & _ & ns & Ho & _ & Hge & _) Hroot.
  destruct (owns_all_elem _ _ _ _ Ho (held_current p Hroot)) as (a & Hc & Ha).
  exists a. split; [exact Hc|]. split.
  - rewrite Forall_forall in Hge. auto.
  - eapply owns_all_lt; eauto.
Qed.

Lemma consistent_current_ge (h0 : plist.Heap) (p : XMLParser) (a : nat) :
  consistent h0 p -> current (_state p) = Some a -> length h0 <= a.
Proof.
  intros Hp Hc. destruct (_root p) as [r|] eqn:Hr.
  - destruct (consistent_current h0 p Hp) as (a' & Hc' & Hge & _); congruence.
  - destruct (consistent_root_None h0 p Hp Hr) as [Hnone _]. congruence.
Qed.

Lemma earlier_length (h0 h : plist.Heap) :
  (forall x, x < length h0 -> h !! x = h0 !! x) ->
  forall x, x < length h0 -> x < length h.
Proof.
  intros Hearlier x Hx. apply lookup_lt_is_Some. rewrite Hearlier by exact Hx.
  now apply lookup_lt_is_Some.
Qed.

Lemma earlier_le (h0 h : plist.Heap) :
  (forall x, x < length h0 -> h !! x = h0 !! x) -> length h0 <= length h.
Proof.
  intros Hearlier. destruct (decide (length h0 = 0)) as [->|Hne]; [lia|].
  pose proof (earlier_length h0 h Hearlier (length h0 - 1)). lia.
Qed.

Lemma consistent_alloc_stray (h0 : plist.Heap) (p : XMLParser) (o : plist.Object) :
  consistent h0 p ->
  consistent h0 (set_heap (heap p ++ [plist.Live plist.operator_new o]) p).
Proof.
  intros (Hrooted & Hframes & Hearlier & ns & Ho & Hnd & Hge & Hcover).
  split; [exact Hrooted|]. split; [|split].
  - cbn. eapply Forall_impl; [exact Hframes|].
    intros s. apply parent_frame_keeps, keeps_types_app.
  - cbn. intros x Hx. rewrite lookup_app_l; [auto|].
    apply (earlier_length h0 _ Hearlier). exact Hx.
  - exists ns. cbn. repeat split; [|exact Hnd|exact Hge|].
    + eapply owns_all_agree; [exact Ho|]. apply agree_alloc.
      intros x Hx. eapply owns_all_lt; eauto.
    + intros a o' Ha Hl. destruct (decide (a < length (heap p))) as [Hlt|Hnlt].
      * rewrite lookup_app_l in Hl by exact Hlt. eauto.
      * rewrite lookup_app_r in Hl by lia.
        destruct (a - length (heap p)) as [|n]; cbn in Hl; [|discriminate].
        discriminate.
Qed.

Lemma consistent_write (h0 : plist.Heap) (p : XMLParser) (a : nat)
    (how : plist.allocation) (o o' : plist.Object) :
  consistent h0 p ->
  heap p !! a = Some (plist.Live how o) ->
  length h0 <= a ->
  plist.type o' = plist.type o ->
  plist.children o' = plist.children o ->
  consistent h0 (set_heap (<[a := plist.Live how o']> (heap p)) p).
Proof.
  intros (Hrooted & Hframes & Hearlier & ns & Ho & Hnd & Hge & Hcover)
    Hl Ha Ht Hc.
  split; [exact Hrooted|]. split; [|split].
  - cbn. eapply Forall_impl; [exact Hframes|].
    intros s. eapply parent_frame_keeps, keeps_types_insert; eauto.
  - cbn. intros x Hx. rewrite list_lookup_insert_ne by lia. auto.
  - exists ns. cbn. repeat split; [|exact Hnd|exact Hge|].
    + eapply owns_all_agree; [exact Ho|]. intros x Hx.
      destruct (decide (a = x)) as [<-|Hne].
      * rewrite list_lookup_insert_eq by (eapply lookup_lt_Some; eauto).
        rewrite Hl. cbn. now rewrite Hc.
      * now rewrite list_lookup_insert_ne.
    + intros x ox Hx Hlx. destruct (decide (a = x)) as [<-|Hne].
      * rewrite list_lookup_insert_eq in Hlx by (eapply lookup_lt_Some; eauto).
        injection Hlx as -> _. eauto.
      * rewrite list_lookup_insert_ne in Hlx by exact Hne. eauto.
Qed.

Lemma owns_fresh_leaf (h : plist.Heap) (how : plist.allocation) (o : plist.Object) :
  plist.children o = [] ->
  owns (h ++ [plist.Live how o]) (Some (length h)) [length h].
Proof.
  intros Hc. econstructor; [apply list_lookup_middle; reflexivity|cbn; now rewrite Hc|].
  constructor.
Qed.

Lemma push_child (object : ptr) (p : XMLParser) (r c : nat) :
  _root p = Some r -> current (_state p) = Some c ->
  push object p =
  Returns tt
    (set_state (set_key_flags false false (set_current object (_state p)))
       (set_stack (_stack p ++ [_state p]) p)).
Proof.
  intros Hr Hc. rewrite push_unfold. destruct p; cbn in *. now rewrite Hc, Hr.
Qed.

Lemma push_first (object : ptr) (p : XMLParser) :
  _root p = None -> current (_state p) = None ->
  push object p =
  Returns tt
    (set_root object
       (set_state (set_key_flags false false (set_current object (_state p))) p)).
Proof.
  intros Hr Hc. rewrite push_unfold. destruct p; cbn in *. now rewrite Hc, Hr.
Qed.

(** A node from a factory is pushed: under a frame that can take it, or as
    the root. *)
Lemma consistent_push_New (h0 : plist.Heap) (p q : XMLParser) (o : plist.Object) :
  consistent h0 p ->
  plist.children o = [] ->
  (_root p <> None -> parent_frame (heap p) (_state p)) ->
  (x <- New o ;; push x) p = Returns tt q ->
  consistent h0 q.
Proof.
  intros Hp Hleaf Hparent Hrun.
  assert (Hq : push (Some (length (heap p)))
                 (set_heap (heap p ++ [plist.Live plist.factory o]) p)
               = Returns tt q) by exact Hrun.
  clear Hrun.
  pose proof Hp as (Hrooted & Hframes & Hearlier & ns & Ho & Hnd & Hge & Hcover).
  pose proof (rooted_push [] _ (set_heap _ p) q Hrooted Hq) as Hrooted'.
  set (a := length (heap p)) in *.
  set (h' := heap p ++ [plist.Live plist.factory o]) in *.
  assert (Hag : agree ns (heap p) h').
  { apply agree_alloc. intros x Hx. eapply owns_all_lt; eauto. }
  assert (Hfresh : a ∉ ns).
  { intros Hin. pose proof (owns_all_lt _ _ _ _ Ho Hin). unfold a in *. lia. }
  assert (Hcover' : forall x ox, length h0 <= x ->
            h' !! x = Some (plist.Live plist.factory ox) -> x ∈ ns ++ [a]).
  { intros x ox Hx Hl. apply elem_of_app.
    destruct (decide (x < length (heap p))) as [Hlt|Hnlt].
    - left. unfold h' in Hl. rewrite lookup_app_l in Hl by exact Hlt. eauto.
    - right. apply lookup_lt_Some in Hl. unfold h' in Hl.
      rewrite length_app in Hl. cbn in Hl.
      assert (x = a) as -> by (unfold a; lia). left. }
  assert (Hnd' : NoDup (ns ++ [a])).
  { apply NoDup_app. repeat split; [exact Hnd| |apply NoDup_singleton].
    intros x Hx Hx'. apply list_elem_of_singleton in Hx'. congruence. }
  assert (Hge' : Forall (fun x => length h0 <= x) (ns ++ [a])).
  { apply Forall_app. split; [exact Hge|]. constructor; [|constructor].
    unfold a. now apply earlier_le. }
  assert (Hmore' : forall x, x < length h0 -> h' !! x = h0 !! x).
  { intros x Hx. unfold h'. rewrite lookup_app_l; [auto|].
    now apply (earlier_length h0). }
  assert (Hkeep : keeps_types (heap p) h') by apply keeps_types_app.
  split; [exact Hrooted'|]. clear Hrooted'.
  destruct (_root p) as [r|] eqn:Hr.
  - (* a child of the current node *)
    specialize (Hparent ltac:(discriminate)).
    destruct (consistent_current h0 p Hp ltac:(congruence)) as (c & Hc & _).
    rewrite (push_child _ _ r c) in Hq by assumption. injection Hq as <-.
    unfold held in *. cbn. rewrite Hr in *.
    destruct (proj1 (owns_all_app _ _ _ _) Ho) as (n1 & n2 & -> & Ho1 & Ho2).
    apply agree_app in Hag as [Hag1 Hag2].
    split; [|split; [exact Hmore'|]].
    + apply Forall_app. split.
      * eapply Forall_impl; [exact Hframes|].
        intros f. now apply parent_frame_keeps.
      * constructor; [|constructor]. now apply (parent_frame_keeps (heap p)).
    + exists ((n1 ++ n2) ++ [a]).
      repeat split; [|exact Hnd'|exact Hge'|exact Hcover'].
      rewrite map_app. cbn. rewrite <- !app_assoc.
      apply owns_all_app. exists n1, (n2 ++ [a]). split; [reflexivity|]. split.
      * eapply owns_all_agree; eauto.
      * apply owns_all_app. exists n2, [a]. split; [reflexivity|]. split.
        -- eapply owns_all_agree; eauto.
        -- apply owns_all_singleton. now apply owns_fresh_leaf.
  - (* the root *)
    destruct (consistent_root_None h0 p Hp Hr) as [Hc Hs].
    rewrite push_first in Hq by assumption. injection Hq as <-.
    unfold held in *. cbn. rewrite Hr, Hs in *. inversion Ho; subst.
    split; [constructor|]. split; [exact Hmore'|].
    exists [a]. repeat split.
    + apply owns_all_singleton. now apply owns_fresh_leaf.
    + apply NoDup_singleton.
    + exact Hge'.
    + exact Hcover'.
Qed.

(** *** Attaching a completed node *)

Lemma free_all_nil (h : plist.Heap) : free_all [] h = h.
Proof.
  apply list_eq. intros i. rewrite lookup_free_all_notin; [reflexivity|].
  inversion 1.
Qed.

Lemma find_entry_split (k : string) (entries : list (string * ptr)) (old : ptr) :
  plist.find_entry k entries = Some old ->
  exists pre k' suf,
    entries = pre ++ (k', old) :: suf /\
    forall v, plist.replace_entry k v entries = pre ++ (k', v) :: suf.
Proof.
  induction entries as [|[k' v'] entries IH]; cbn; [discriminate|].
  destruct (String.eqb k' k).
  - intros [= ->]. exists [], k', entries. auto.
  - intros Hf. destruct (IH Hf) as (pre & k'' & suf & -> & Hrep).
    exists ((k', v') :: pre), k'', suf. split; [reflexivity|].
    intros v. cbn. now rewrite Hrep.
Qed.

(** The parent takes the completed node after its other children. *)
Lemma owns_append (h : plist.Heap) (pa ca : nat) (how : plist.allocation)
    (o o' : plist.Object) (n_par n_c : list nat) :
  h !! pa = Some (plist.Live how o) ->
  plist.children o' = plist.children o ++ [Some ca] ->
  owns h (Some pa) n_par ->
  owns h (Some ca) n_c ->
  NoDup (n_par ++ n_c) ->
  owns (<[pa := plist.Live how o']> h) (Some pa) (n_par ++ n_c).
Proof.
  intros Hl Hc' Hpar Hc Hnd.
  destruct (owns_inv _ _ _ Hpar) as (a & c & cs & kids & [= <-] & -> & Hl' & Hs & Hkids).
  rewrite Hl in Hl'. injection Hl' as <-. cbn in Hs. injection Hs as <-.
  cbn in Hnd. apply NoDup_cons in Hnd as [Hpa Hnd].
  cbn. econstructor.
  - apply list_lookup_insert_eq. eapply lookup_lt_Some; eauto.
  - cbn. rewrite Hc'. reflexivity.
  - assert (Hag : agree (kids ++ n_c) h (<[pa := plist.Live how o']> h))
      by now apply agree_insert.
    apply agree_app in Hag as [Hag1 Hag2].
    apply owns_all_app. exists kids, n_c. split; [reflexivity|]. split.
    + eapply owns_all_agree; eauto.
    + apply owns_all_singleton. eapply owns_agree; eauto.
Qed.

(** The parent takes the completed node in place of a child it releases. *)
Lemma owns_replace (h : plist.Heap) (pa ca : nat) (how : plist.allocation)
    (k : string) (entries : list (string * ptr)) (old : ptr)
    (n_par n_c : list nat) :
  h !! pa = Some (plist.Live how (plist.Dictionary entries)) ->
  plist.find_entry k entries = Some old ->
  owns h (Some pa) n_par ->
  owns h (Some ca) n_c ->
  NoDup (n_par ++ n_c) ->
  exists n_old n_par',
    plist.release old h = Some (free_all n_old h) /\
    (pa ∉ n_old) /\
    owns (<[pa := plist.Live how
                    (plist.Dictionary (plist.replace_entry k (Some ca) entries))]>
            (free_all n_old h))
      (Some pa) n_par' /\
    NoDup n_par' /\
    (forall x, x ∈ n_old -> x ∈ n_par) /\
    (forall x, x ∈ n_par' -> x ∈ n_par \/ x ∈ n_c) /\
    (forall x, x ∈ n_par \/ x ∈ n_c -> x ∈ n_par' \/ x ∈ n_old).
Proof.
  intros Hl Hfind Hpar Hc Hnd.
  destruct (owns_inv _ _ _ Hpar) as (a & c & cs & kids & [= <-] & -> & Hl' & Hs & Hkids).
  rewrite Hl in Hl'. injection Hl' as <-. cbn in Hs. injection Hs as <-.
  destruct (find_entry_split _ _ _ Hfind) as (pre & k' & suf & -> & Hrep).
  rewrite Hrep. rewrite map_app in Hkids. cbn in Hkids.
  apply owns_all_app in Hkids as (k1 & k23 & -> & Hk1 & Hk23).
  inversion Hk23 as [|? ? n_old k2 Hold Hk2]; subst. clear Hk23.
  cbn in Hnd. apply NoDup_cons in Hnd as [Hpa Hnd].
  assert (Hnd_old : NoDup n_old).
  { rewrite <- !app_assoc in Hnd.
    apply NoDup_app in Hnd as (_ & _ & Hnd).
    now apply NoDup_app in Hnd as (Hnd & _). }
  exists n_old, (pa :: k1 ++ n_c ++ k2).
  assert (Hpa_old : pa ∉ n_old).
  { intros Hin. apply Hpa. rewrite !elem_of_app. auto. }
  assert (Hdisj : forall x, x ∈ k1 ++ n_c ++ k2 -> x ∉ n_old).
  { intros x Hx Hx'. rewrite <- !app_assoc in Hnd.
    apply NoDup_app in Hnd as (_ & Hd1 & Hnd).
    apply NoDup_app in Hnd as (_ & Hd2 & Hnd).
    apply NoDup_app in Hnd as (_ & Hd3 & _).
    rewrite !elem_of_app in Hx. destruct Hx as [Hx|[Hx|Hx]].
    - apply (Hd1 x Hx). rewrite !elem_of_app. auto.
    - apply (Hd2 x Hx'). rewrite !elem_of_app. auto.
    - apply (Hd2 x Hx'). rewrite !elem_of_app. auto. }
  assert (Hnd' : NoDup (pa :: k1 ++ n_c ++ k2)).
  { apply NoDup_cons. split.
    - intros Hin. apply Hpa. rewrite !elem_of_app in *. tauto.
    - rewrite <- !app_assoc in Hnd.
      apply NoDup_app in Hnd as (N1 & D1 & Hnd).
      apply NoDup_app in Hnd as (N2 & D2 & Hnd).
      apply NoDup_app in Hnd as (N3 & D3 & N4).
      apply NoDup_app. repeat split; [exact N1| |].
      + intros x Hx Hx'. apply (D1 x Hx). rewrite !elem_of_app in *. tauto.
      + apply NoDup_app. repeat split; [exact N4| |exact N3].
        intros x Hx Hx'. exact (D3 x Hx' Hx). }
  repeat split.
  - now apply release_owns.
  - exact Hpa_old.
  - set (h1 := free_all n_old h).
    set (h2 := <[pa := _]> h1).
    assert (Hag : agree (k1 ++ n_c ++ k2) h h2).
    { eapply agree_trans; [apply agree_free_all; exact Hdisj|].
      apply agree_insert. intros Hin. apply Hpa. rewrite !elem_of_app in *. tauto. }
    apply agree_app in Hag as [Hag1 Hag]. apply agree_app in Hag as [Hagc Hag2].
    econstructor.
    + apply list_lookup_insert_eq. unfold h1. rewrite length_free_all.
      eapply lookup_lt_Some; eauto.
    + cbn. rewrite map_app. reflexivity.
    + apply owns_all_app. exists k1, (n_c ++ k2). split; [reflexivity|]. split.
      * eapply owns_all_agree; eauto.
      * cbn. constructor; [eapply owns_agree; eauto|eapply owns_all_agree; eauto].
  - exact Hnd'.
  - intros x Hx. right. rewrite !elem_of_app. auto.
  - intros x Hx. apply elem_of_cons in Hx as [->|Hx]; [left; left|].
    rewrite !elem_of_app in Hx. rewrite elem_of_cons, !elem_of_app. tauto.
  - intros x [Hx|Hx].
    + apply elem_of_cons in Hx as [->|Hx]; [left; left|].
      rewrite !elem_of_app in Hx. rewrite elem_of_cons, !elem_of_app. tauto.
    + left. rewrite elem_of_cons, !elem_of_app. tauto.
Qed.

(** The state after the top frame took the completed node: the frames below
    are as before, and the restored node owns what the two owned, less what
    it released. *)
Lemma consistent_reparent (h0 : plist.Heap) (p q : XMLParser)
    (fs : list State) (pa : nat) (n_fs n_par n_c n_old n_par' : list nat) :
  rooted [] q ->
  _root q <> None ->
  _stack q = fs ->
  current (_state q) = Some pa ->
  Forall (parent_frame (heap p)) fs ->
  (forall x, x < length h0 -> heap p !! x = h0 !! x) ->
  owns_all (heap p) (map current fs) n_fs ->
  NoDup (n_fs ++ n_par ++ n_c) ->
  Forall (fun a => length h0 <= a) (n_fs ++ n_par ++ n_c) ->
  (forall a o, length h0 <= a ->
               heap p !! a = Some (plist.Live plist.factory o) ->
               a ∈ n_fs ++ n_par ++ n_c) ->
  pa ∈ n_par ->
  (forall x, x <> pa -> x ∉ n_old -> heap q !! x = heap p !! x) ->
  (forall x, x ∈ n_old -> heap q !! x = Some plist.Freed) ->
  owns (heap q) (Some pa) n_par' ->
  NoDup n_par' ->
  (forall x, x ∈ n_old -> x ∈ n_par) ->
  (forall x, x ∈ n_par' -> x ∈ n_par \/ x ∈ n_c) ->
  (forall x, x ∈ n_par \/ x ∈ n_c -> x ∈ n_par' \/ x ∈ n_old) ->
  consistent h0 q.
Proof.
  intros Hrooted Hroot Hstack Hcur Hframes Hearlier Hfs Hnd Hge Hcover Hpa
    Hsame Hfreed Hown Hnd' Hold Hsub Hsup.
  apply NoDup_app in Hnd as (Hnd_fs & Hdisj & Hnd_rest).
  assert (Hout : forall x, x ∈ n_fs -> x <> pa /\ x ∉ n_old).
  { intros x Hx. split.
    - intros ->. apply (Hdisj pa Hx). apply elem_of_app. auto.
    - intros Hx'. apply (Hdisj x Hx). apply elem_of_app. auto. }
  assert (Hag : agree n_fs (heap p) (heap q)).
  { intros x Hx. destruct (Hout x Hx). now rewrite Hsame. }
  split; [exact Hrooted|]. split; [|split].
  - rewrite Hstack. rewrite Forall_forall in Hframes |- *.
    intros f Hf. destruct (Hframes f Hf) as (a & o & Hc & Hr & Ho).
    exists a, o. repeat split; [exact Hc| |exact Ho].
    assert (Ha : a ∈ n_fs).
    { destruct (owns_all_elem _ _ _ (current f) Hfs) as (a' & Ha' & Hin).
      - apply list_elem_of_fmap. eauto.
      - congruence. }
    destruct (Hout a Ha). unfold plist.read in *. now rewrite Hsame.
  - intros x Hx. rewrite <- Hearlier by exact Hx. apply Hsame.
    + intros ->. rewrite Forall_forall in Hge.
      specialize (Hge pa). rewrite !elem_of_app in Hge.
      specialize (Hge ltac:(auto)). lia.
    + intros Hin. rewrite Forall_forall in Hge.
      specialize (Hge x). rewrite !elem_of_app in Hge.
      specialize (Hge ltac:(auto)). lia.
  - exists (n_fs ++ n_par'). unfold held.
    destruct (_root q); [|congruence]. rewrite Hstack, Hcur.
    repeat split.
    + apply owns_all_app. exists n_fs, n_par'. split; [reflexivity|]. split.
      * eapply owns_all_agree; eauto.
      * now apply owns_all_singleton.
    + apply NoDup_app. repeat split; [exact Hnd_fs| |exact Hnd'].
      intros x Hx Hx'. apply (Hdisj x Hx). apply elem_of_app. auto.
    + rewrite Forall_forall in Hge |- *. intros x Hx. apply Hge.
      rewrite !elem_of_app in *. destruct Hx as [Hx|Hx]; [auto|].
      destruct (Hsub x Hx); auto.
    + intros a o Ha Hl. rewrite elem_of_app.
      destruct (decide (a = pa)) as [->|Hne].
      * right. destruct (Hsup pa ltac:(auto)) as [Hin|Hin]; [exact Hin|].
        rewrite (Hfreed pa Hin) in Hl. discriminate.
      * destruct (decide (a ∈ n_old)) as [Hin|Hnotin].
        { rewrite (Hfreed a Hin) in Hl. discriminate. }
        rewrite Hsame in Hl by assumption.
        specialize (Hcover a o Ha Hl). rewrite !elem_of_app in Hcover.
        destruct Hcover as [Hin|Hin]; [auto|].
        destruct (Hsup a Hin); [auto|contradiction].
Qed.

Lemma consistent_pop (h0 : plist.Heap) (p q : XMLParser) :
  consistent h0 p -> pop p = Returns tt q -> consistent h0 q.
Proof.
  intros Hp Hpop.
  pose proof Hp as (Hrooted & Hframes & Hearlier & ns & Ho & Hnd & Hge & Hcover).
  pose proof (rooted_pop [] p q Hrooted Hpop) as Hrooted'.
  destruct (ptr_eqb (current (_state p)) (_root p)) eqn:Heq.
  { (* at the root, or nothing to pop *)
    rewrite pop_unfold, Heq in Hpop.
    destruct (_ && _); injection Hpop as <-;
      (eapply consistent_ext; [..|exact Hp]; reflexivity). }
  apply ptr_eqb_neq in Heq.
  assert (Hroot : _root p <> None).
  { intros Hnone. destruct (consistent_root_None h0 p Hp Hnone). congruence. }
  destruct (consistent_current h0 p Hp Hroot) as (ca & Hca & _).
  destruct (last (_stack p)) as [top|] eqn:Hlast.
  2:{ rewrite pop_unfold, Hlast in Hpop. apply ptr_eqb_neq in Heq.
      rewrite Heq, Hca in Hpop. cbn in Hpop. rewrite andb_false_r in Hpop.
      discriminate. }
  pose proof (removelast_nonempty _ _ Hlast) as Hstack.
  set (fs := removelast (_stack p)) in *.
  rewrite Hstack in Hframes. apply Forall_app in Hframes as [Hfs Htop].
  apply Forall_inv in Htop. destruct Htop as (pa & o & Hpa & Hr & Hkind).
  apply read_lookup in Hr as Hl. destruct Hl as [how Hl].
  unfold held in Ho. destruct (_root p) as [r|] eqn:Hr'; [|congruence].
  rewrite Hstack, map_app, <- app_assoc in Ho. cbn in Ho. rewrite Hpa, Hca in Ho.
  apply owns_all_app in Ho as (n_fs & n_rest & -> & Hown_fs & Ho).
  change [Some pa; Some ca] with ([Some pa] ++ [Some ca]) in Ho.
  apply owns_all_app in Ho as (n_par & n_c & -> & Hown_par & Hown_c).
  apply owns_all_singleton in Hown_par, Hown_c.
  assert (Hpa_in : pa ∈ n_par).
  { destruct (owns_inv _ _ _ Hown_par) as (? & ? & ? & ? & [= <-] & -> & _). left. }
  assert (Hnd_pc : NoDup (n_par ++ n_c)).
  { apply NoDup_app in Hnd. tauto. }
  assert (Hadd : forall o',
            plist.type o' = plist.type o ->
            plist.children o' = plist.children o ++ [Some ca] ->
            forall q', heap q' = plist.write pa o' (heap p) ->
                       rooted [] q' -> _root q' <> None -> _stack q' = fs ->
                       current (_state q') = Some pa ->
                       consistent h0 q').
  { intros o' _ Hc' q' Hheap Hrq Hroot' Hsq Hcq.
    rewrite (write_insert _ _ _ _ _ Hl) in Hheap.
    eapply (consistent_reparent h0 p q' fs pa n_fs n_par n_c [] (n_par ++ n_c));
      try eassumption.
    - intros x Hx _. rewrite Hheap. now rewrite list_lookup_insert_ne.
    - intros x Hx. inversion Hx.
    - rewrite Hheap. eapply owns_append; eauto.
    - intros x Hx. inversion Hx.
    - intros x Hx. now apply elem_of_app in Hx.
    - intros x Hx. left. now apply elem_of_app. }
  assert (Hq_root : forall q', _root q' = _root p -> _root q' <> None) by congruence.
  assert (Heq' : current (_state p) <> _root p) by congruence.
  destruct o; try contradiction.
  - (* the parent is an array *)
    rewrite (pop_array_frame p top pa items) in Hpop by assumption.
    injection Hpop as <-. rewrite Hca in *.
    apply (Hadd (plist.Array (items ++ [Some ca]))); auto; cbn; congruence.
  - (* the parent is a dictionary, with a valid key *)
    pose proof (pop_dictionary_frame p top pa entries Heq' Hlast Hpa Hr) as Hd.
    cbv zeta in Hd. rewrite Hkind, Hca in Hd.
    destruct (plist.find_entry (value (key top)) entries) as [old|] eqn:Hfind.
    + destruct (owns_replace _ _ _ _ _ _ _ _ _ Hl Hfind Hown_par Hown_c Hnd_pc)
        as (n_old & n_par' & Hrel & Hpa_old & Hown' & Hnd' & Hold & Hsub & Hsup).
      rewrite (Hd _ Hrel) in Hpop. injection Hpop as <-.
      assert (Hl1 : free_all n_old (heap p) !! pa
                    = Some (plist.Live how (plist.Dictionary entries))).
      { now rewrite lookup_free_all_notin. }
      eapply (consistent_reparent h0 p _ fs pa n_fs n_par n_c n_old n_par');
        try eassumption; cbn [heap set_cdata set_state set_heap restore set_stack
                                _root _stack _state current set_key_flags];
        try rewrite (write_insert _ _ _ _ _ Hl1); try congruence;
        try reflexivity.
      * intros x Hx Hx'. rewrite list_lookup_insert_ne by congruence.
        now apply lookup_free_all_notin.
      * intros x Hx. rewrite list_lookup_insert_ne by congruence.
        apply lookup_free_all_in; [exact Hx|].
        eapply owns_lt; [exact Hown_par|auto].
    + rewrite Hd in Hpop. injection Hpop as <-.
      apply (Hadd (plist.Dictionary (entries ++ [(value (key top), Some ca)])));
        auto; cbn; try congruence.
      now rewrite map_app.
Qed.

(** *** What the handlers report *)

Lemma reported_same (p q : XMLParser) :
  _errors q = _errors p -> _stopped q = _stopped p -> reported p q.
Proof. intros He Hs. exists []. rewrite app_nil_r. auto. Qed.

Lemma reported_refl (p : XMLParser) : reported p p.
Proof. now apply reported_same. Qed.

Lemma reported_trans (p q r : XMLParser) :
  reported p q -> reported q r -> reported p r.
Proof.
  intros (m1 & He1 & Hs1) (m2 & He2 & Hs2). exists (m1 ++ m2).
  rewrite He2, He1, app_assoc. split; [reflexivity|].
  destruct Hs2 as [Hs2|[Hs2 Hm2]].
  - rewrite Hs2. destruct Hs1 as [Hs1|[Hs1 Hm1]]; [auto|].
    right. split; [exact Hs1|]. destruct m1; [congruence|discriminate].
  - right. split; [exact Hs2|]. destruct m1, m2; try discriminate; congruence.
Qed.

Lemma reported_same_parser (p q : XMLParser) : same_parser p q -> reported p q.
Proof. intros ->. now apply reported_same. Qed.

Lemma logs_weaken {A} (ok ok' : A -> bool) (m : M A) :
  (forall a, ok' a = false -> ok a = false) -> logs ok m -> logs ok' m.
Proof.
  intros Hok Hm p a q Hrun. destruct (Hm p a q Hrun) as (ms & He & Hs & Hf).
  exists ms. auto.
Qed.

Lemma logs_ret {A} (ok : A -> bool) (a : A) : ok a = true -> logs ok (ret a).
Proof.
  intros Hok p a' q [= <- <-]. exists []. rewrite app_nil_r.
  repeat split. congruence.
Qed.

Lemma logs_bind {A B} (ok : B -> bool) (m : M A) (k : A -> M B) :
  logs (fun _ => true) m -> (forall a, logs ok (k a)) -> logs ok (bind m k).
Proof.
  intros Hm Hk p b q Hrun.
  apply bind_Returns in Hrun as (a & p' & Hrun1 & Hrun2).
  destruct (Hm _ _ _ Hrun1) as (m1 & He1 & Hs1 & _).
  destruct (Hk a _ _ _ Hrun2) as (m2 & He2 & Hs2 & Hf).
  exists (m1 ++ m2). rewrite He2, He1, app_assoc, Hs2, Hs1.
  repeat split. intros Hb Happ. apply app_eq_nil in Happ as [_ ->].
  now apply Hf.
Qed.

Lemma logs_fail (message : string) :
  logs (fun b : bool => b) (error message ;; ret false).
Proof.
  intros p b q [= <- <-]. exists [message]. cbn. repeat split. discriminate.
Qed.

Lemma logs_error (message : string) : logs (fun _ => true) (error message).
Proof.
  intros p [] q [= <-]. exists [message]. cbn. repeat split. discriminate.
Qed.

Lemma logs_modify (f : XMLParser -> XMLParser) :
  (forall p, _errors (f p) = _errors p /\ _stopped (f p) = _stopped p) ->
  logs (fun _ => true) (modify f).
Proof.
  intros Hf p [] q [= <-]. destruct (Hf p) as [He Hs].
  exists []. rewrite app_nil_r. repeat split; [exact He|exact Hs|discriminate].
Qed.

Lemma logs_same {A} (ok : A -> bool) (m : M A) :
  (forall a, ok a = true) ->
  (forall p a q, m p = Returns a q -> same_parser p q) ->
  logs ok m.
Proof.
  intros Hok Hm p a q Hrun. rewrite (Hm p a q Hrun). exists [].
  rewrite app_nil_r. repeat split. rewrite Hok. discriminate.
Qed.

Lemma logs_get : logs (fun _ => true) get.
Proof. apply logs_same; [reflexivity|]. intros p a q [= <- <-]. apply same_parser_refl. Qed.

Lemma logs_gets {A} (f : XMLParser -> A) : logs (fun _ => true) (gets f).
Proof. apply logs_same; [reflexivity|]. intros p a q [= <- <-]. apply same_parser_refl. Qed.

Lemma logs_when (b : bool) (m : M unit) :
  logs (fun _ => true) m -> logs (fun _ => true) (when b m).
Proof. intros Hm. destruct b; [exact Hm|now apply logs_ret]. Qed.

Lemma logs_convert {A} (c : conversion A) : logs (fun _ => true) (convert c).
Proof.
  destruct c; cbn; [now apply logs_ret|]. intros p a q. discriminate.
Qed.

Lemma logs_undefined {A} (ok : A -> bool) : logs ok undefined.
Proof. intros p a q. discriminate. Qed.

Lemma logs_New (o : plist.Object) : logs (fun _ => true) (New o).
Proof. apply logs_same; [reflexivity|]. intros p a q [= <- <-]. reflexivity. Qed.

Lemma logs_push (object : ptr) : logs (fun _ => true) (push object).
Proof.
  intros p [] q. rewrite push_unfold. intros [= <-]. exists [].
  rewrite app_nil_r. destruct p as [e s d r st sk c h]; cbn.
  destruct (current st), r; cbn; repeat split; discriminate.
Qed.

Lemma logs_pop : logs (fun _ => true) pop.
Proof.
  intros p [] q. rewrite pop_unfold.
  destruct (_ && _).
  { intros [= <-]. exists ["stack underflow"]. cbn. repeat split. discriminate. }
  destruct (ptr_eqb _ _).
  { intros [= <-]. exists []. rewrite app_nil_r. cbn. repeat split. discriminate. }
  destruct (last (_stack p)) as [top|]; [|discriminate].
  destruct (attach _ _) as [[] r| |] eqn:Hat; try discriminate.
  intros [= <-]. apply attach_inv in Hat as (He & Hs & _).
  exists []. rewrite app_nil_r. cbn in *. repeat split; [exact He|exact Hs|discriminate].
Qed.

Lemma logs_member {A} (ok : A -> bool) this (body : nat -> plist.Object -> M A) :
  (forall a o, logs ok (body a o)) -> logs ok (member this body).
Proof.
  intros Hbody. unfold member. destruct this as [a|]; [|apply logs_undefined].
  intros p x q. run. destruct (plist.read (heap p) a) as [o|]; [|discriminate].
  apply Hbody.
Qed.

Lemma logs_store (a : nat) (o : plist.Object) : logs (fun _ => true) (store a o).
Proof. apply logs_modify. intros p. split; reflexivity. Qed.

Create HintDb logs discriminated.

#[local] Hint Resolve logs_get logs_gets logs_New logs_push logs_pop logs_store
  logs_error logs_fail logs_convert logs_undefined : logs.

Ltac logs_step :=
  first
    [ apply logs_fail
    | solve [eauto with logs]
    | apply logs_bind; [|intros ?]
    | apply logs_ret; reflexivity
    | apply logs_modify; intros ?; split; reflexivity
    | apply logs_when
    | apply logs_member; intros ? ?
    | match goal with
      | |- logs _ (if ?b then _ else _) => destruct b
      | |- logs _ (match ?x with _ => _ end) => destruct x
      end ].

Ltac logs_all := repeat logs_step.

Lemma logs_String_setValue this v : logs (fun _ => true) (String_setValue this v).
Proof. unfold String_setValue. logs_all. Qed.

Lemma logs_Integer_setValue this v : logs (fun _ => true) (Integer_setValue this v).
Proof. unfold Integer_setValue. logs_all. Qed.

Lemma logs_Data_setBase64Value this v :
  logs (fun _ => true) (Data_setBase64Value this v).
Proof. unfold Data_setBase64Value. logs_all. Qed.

Lemma logs_Date_setStringValue this v :
  logs (fun _ => true) (Date_setStringValue this v).
Proof. unfold Date_setStringValue. logs_all. Qed.

#[local] Hint Resolve logs_String_setValue logs_Integer_setValue
  logs_Data_setBase64Value logs_Date_setStringValue : logs.

Lemma logs_beginObject (name : string) : logs (fun b : bool => b) (beginObject name).
Proof.
  unfold beginObject, beginArray, beginDictionary, beginString, beginInteger,
    beginReal, beginBoolean, beginNull, beginData, beginDate, beginKey.
  logs_all.
Qed.

Lemma logs_endObject (name : string) : logs (fun b : bool => b) (endObject name).
Proof.
  unfold endObject, endKey, endArray, endDictionary, endString, endInteger,
    endReal, endBoolean, endNull, endData, endDate.
  logs_all.
Qed.

Lemma logs_reported {A} (ok : A -> bool) (m : M A) p a q :
  logs ok m -> m p = Returns a q -> reported p q.
Proof.
  intros Hm Hrun. destruct (Hm p a q Hrun) as (ms & He & Hs & _).
  exists ms. auto.
Qed.

(** A handler stops the parse only after a message. *)
Lemma reported_stop_on_failure (m : M bool) p q :
  logs (fun b : bool => b) m ->
  (ok <- m ;; when (negb ok) stop) p = Returns tt q ->
  reported p q.
Proof.
  intros Hm Hrun. apply bind_Returns in Hrun as (b & p' & Hrun & Hstop).
  destruct (Hm p b p' Hrun) as (ms & He & Hs & Hf).
  destruct b; cbn in Hstop; injection Hstop as <-.
  - exists ms. auto.
  - exists ms. cbn. auto.
Qed.

Lemma reported_onStartElement name attrs depth p q :
  onStartElement name attrs depth p = Returns tt q -> reported p q.
Proof.
  unfold onStartElement. intros Hrun.
  apply bind_Returns in Hrun as (dict & p1 & Hnew & Hrun).
  injection Hnew as _ <-.
  eapply (reported_trans _ (set_heap _ p)); [now apply reported_same|].
  destruct (depth =? 0).
  - eapply logs_reported; [|exact Hrun]. logs_all.
  - apply bind_Returns in Hrun as (p2 & p3 & [= <- <-] & Hrun).
    destruct (_ && _).
    + eapply logs_reported; [|exact Hrun]. logs_all.
    + eapply reported_stop_on_failure; [apply logs_beginObject|exact Hrun].
Qed.

Lemma reported_onEndElement name depth p q :
  onEndElement name depth p = Returns tt q -> reported p q.
Proof.
  apply reported_stop_on_failure, logs_endObject.
Qed.

Lemma repeat_nonempty {A} (x : A) (n : nat) : n <> 0 -> repeat x n <> [].
Proof. destruct n; [congruence|discriminate]. Qed.

Lemma reported_onCharacterData cdata depth p q :
  onCharacterData cdata depth p = Returns tt q -> reported p q.
Proof.
  unfold onCharacterData. run. destruct (negb (isExpectingCDATA p)).
  - rewrite reject_cdata_spec. intros [= <-].
    destruct (unexpected cdata) eqn:Hn; [apply reported_refl|].
    eexists. cbn. split; [reflexivity|]. right. split; [reflexivity|].
    discriminate.
  - intros [= <-]. now apply reported_same.
Qed.

Lemma reported_deliver e p q :
  deliver e p = Returns tt q -> reported p q.
Proof.
  unfold deliver. run. destruct e as [name attrs|text|name].
  - destruct (onStartElement _ _ _ _) as [[] r| |] eqn:Hrun; try discriminate.
    intros [= <-]. apply reported_onStartElement in Hrun.
    eapply reported_trans; [exact Hrun|]. now apply reported_same.
  - apply reported_onCharacterData.
  - intros Hrun. apply reported_onEndElement in Hrun.
    eapply reported_trans; [|exact Hrun]. now apply reported_same.
Qed.

Lemma reported_deliver_all events p q :
  deliver_all events p = Returns tt q -> reported p q.
Proof.
  revert p. induction events as [|e events IH]; intros p.
  - intros [= <-]. apply reported_refl.
  - rewrite deliver_all_cons. destruct (_stopped p).
    + intros [= <-]. apply reported_refl.
    + destruct (deliver e p) as [[] r| |] eqn:Hrun; try discriminate.
      intros Hrest. eapply reported_trans; [|apply IH; exact Hrest].
      eapply reported_deliver; eauto.
Qed.

(** *** The handlers keep the state of a parse consistent *)

Lemma idle_ret {A} (a : A) : idle (ret a).
Proof. intros p a' q [= <- <-]. auto. Qed.

Lemma idle_bind {A B} (m : M A) (k : A -> M B) :
  idle m -> (forall a, idle (k a)) -> idle (bind m k).
Proof.
  intros Hm Hk p b q Hrun.
  apply bind_Returns in Hrun as (a & p' & Hrun1 & Hrun2).
  destruct (Hm _ _ _ Hrun1) as (H1 & H2 & H3 & H4).
  destruct (Hk a _ _ _ Hrun2) as (K1 & K2 & K3 & K4).
  repeat split; congruence.
Qed.

Lemma idle_modify (f : XMLParser -> XMLParser) :
  (forall p, heap (f p) = heap p /\ _root (f p) = _root p /\
             _stack (f p) = _stack p /\
             current (_state (f p)) = current (_state p)) ->
  idle (modify f).
Proof. intros Hf p [] q [= <-]. apply Hf. Qed.

Lemma idle_get : idle get.
Proof. intros p a q [= <- <-]. auto. Qed.

Lemma idle_when (b : bool) (m : M unit) : idle m -> idle (when b m).
Proof. intros Hm. destruct b; [exact Hm|apply idle_ret]. Qed.

Lemma idle_consistent {A} (m : M A) h0 p a q :
  idle m -> consistent h0 p -> m p = Returns a q -> consistent h0 q.
Proof.
  intros Hm Hp Hrun. destruct (Hm p a q Hrun) as (Hh & Hr & Hs & Hc).
  now apply (consistent_ext h0 p q).
Qed.

Ltac idle_step :=
  first
    [ apply idle_ret
    | apply idle_get
    | apply idle_bind; [|intros ?]
    | apply idle_modify; intros ?; repeat split; reflexivity
    | apply idle_when
    | match goal with
      | |- idle (if ?b then _ else _) => destruct b
      end ].

Ltac idle_all := unfold error, stop; repeat idle_step.

Lemma idle_reject_cdata (cdata : string) : idle (reject_cdata cdata).
Proof.
  intros p [] q. rewrite reject_cdata_spec. intros [= <-].
  destruct (unexpected cdata); cbn; auto.
Qed.

Lemma CastTo_cases (T : plist.ObjectType) (h : plist.Heap) (p : ptr) :
  plist.CastTo T h p = None \/ plist.CastTo T h p = p.
Proof.
  unfold plist.CastTo. destruct p as [a|]; [|auto].
  destruct (plist.read h a) as [o|]; [|auto].
  destruct (plist.ObjectType_eqb _ _); auto.
Qed.

(** A setter of a leaf value, called on the current node. *)
Lemma consistent_setter (h0 : plist.Heap) (p q : XMLParser) (this : ptr)
    (body : nat -> plist.Object -> M unit) :
  consistent h0 p ->
  this = None \/ this = current (_state p) ->
  (forall a o p' q', body a o p' = Returns tt q' ->
     exists o', plist.type o' = plist.type o /\
                plist.children o' = plist.children o /\
                q' = set_heap (plist.write a o' (heap p')) p') ->
  member this body p = Returns tt q ->
  consistent h0 q.
Proof.
  intros Hp Hthis Hbody. unfold member.
  destruct this as [a|]; [|discriminate].
  destruct Hthis as [|Hthis]; [discriminate|]. run.
  destruct (plist.read (heap p) a) as [o|] eqn:Hr; [|discriminate].
  intros Hrun. destruct (Hbody _ _ _ _ Hrun) as (o' & Ht & Hc & ->).
  apply read_lookup in Hr as [how Hl]. rewrite (write_insert _ _ _ _ _ Hl).
  eapply consistent_write; eauto.
  eapply consistent_current_ge; eauto.
Qed.

Ltac setter_body :=
  let a := fresh in let o := fresh in
  intros a o ? ?; destruct o; try discriminate;
  intros [= <-]; eexists; refine (conj _ (conj _ eq_refl)); reflexivity.

Lemma consistent_String_setValue h0 p q T v :
  consistent h0 p ->
  String_setValue (plist.CastTo T (heap p) (current (_state p))) v p = Returns tt q ->
  consistent h0 q.
Proof.
  intros Hp. apply consistent_setter; [exact Hp|apply CastTo_cases|setter_body].
Qed.

Lemma consistent_Integer_setValue h0 p q T v :
  consistent h0 p ->
  Integer_setValue (plist.CastTo T (heap p) (current (_state p))) v p = Returns tt q ->
  consistent h0 q.
Proof.
  intros Hp. apply consistent_setter; [exact Hp|apply CastTo_cases|setter_body].
Qed.

Lemma consistent_Data_setBase64Value h0 p q T v :
  consistent h0 p ->
  Data_setBase64Value (plist.CastTo T (heap p) (current (_state p))) v p = Returns tt q ->
  consistent h0 q.
Proof.
  intros Hp. apply consistent_setter; [exact Hp|apply CastTo_cases|setter_body].
Qed.

Lemma consistent_Date_setStringValue h0 p q T v :
  consistent h0 p ->
  Date_setStringValue (plist.CastTo T (heap p) (current (_state p))) v p = Returns tt q ->
  consistent h0 q.
Proof.
  intros Hp. apply consistent_setter; [exact Hp|apply CastTo_cases|setter_body].
Qed.

Lemma consistent_begin (h0 : plist.Heap) (p q : XMLParser) (o : plist.Object)
    (rest : M bool) (b : bool) :
  consistent h0 p ->
  plist.children o = [] ->
  (_root p <> None -> parent_frame (heap p) (_state p)) ->
  idle rest ->
  (x <- New o ;; push x ;; rest) p = Returns b q ->
  consistent h0 q.
Proof.
  intros Hp Hleaf Hparent Hrest Hrun.
  apply bind_Returns in Hrun as (x & p1 & Hnew & Hrun).
  apply bind_Returns in Hrun as ([] & p2 & Hpush & Hrun).
  eapply (idle_consistent rest); [exact Hrest| |exact Hrun].
  eapply (consistent_push_New h0 p p2 o); try assumption.
  unfold bind. rewrite Hnew. exact Hpush.
Qed.

(** The current node can take a child when an element passes the checks of
    [beginObject]: it is an array, or a dictionary that holds a valid key. *)
Lemma container_parent (p : XMLParser) :
  _depth p <> 1 ->
  inContainer p = true ->
  (inDictionary p = true -> isExpectingKey p = false) ->
  parent_frame (heap p) (_state p).
Proof.
  intros Hd Hin Hkey. unfold inContainer, depth in Hin.
  apply Nat.eqb_neq in Hd. rewrite Hd in Hin. cbn in Hin.
  unfold isExpectingKey in Hkey.
  destruct (inDictionary p) eqn:Hdict.
  - specialize (Hkey eq_refl). cbn in Hkey. apply negb_false_iff in Hkey.
    destruct (inDictionary_read p Hdict) as (d & entries & Hc & Hr).
    exists d, (plist.Dictionary entries). auto.
  - cbn in Hin. unfold inArray, plist.CastTo in Hin.
    destruct (current (_state p)) as [a|] eqn:Hc; [|discriminate].
    destruct (plist.read (heap p) a) as [o|] eqn:Hr; [|discriminate].
    destruct o; try discriminate. exists a, (plist.Array items). auto.
Qed.

Lemma consistent_beginObject (h0 : plist.Heap) (p q : XMLParser)
    (name : string) (b : bool) :
  consistent h0 p ->
  (_root p <> None -> _depth p <> 1) ->
  beginObject name p = Returns b q ->
  consistent h0 q.
Proof.
  intros Hp Hdepth. unfold beginObject.
  intros Hrun. apply bind_Returns in Hrun as (p0 & p1 & [= <- <-] & Hrun).
  assert (Hvalue : forall b q,
            (inDictionary p = true -> isExpectingKey p = false) ->
            (if negb (inContainer p) then error (not_in_container name) ;; ret false
             else if String.eqb name "array" then beginArray
             else if String.eqb name "dict" then beginDictionary
             else if String.eqb name "string" then beginString
             else if String.eqb name "integer" then beginInteger
             else if String.eqb name "real" then beginReal
             else if String.eqb name "true" then beginBoolean true
             else if String.eqb name "false" then beginBoolean false
             else if String.eqb name "null" then beginNull
             else if String.eqb name "data" then beginData
             else if String.eqb name "date" then beginDate
             else error (unexpected_element name) ;; ret false) p = Returns b q ->
            consistent h0 q).
  { clear b q Hrun. intros b q Hkey.
    destruct (inContainer p) eqn:Hin; cbn [negb].
    2:{ intros Hrun. eapply idle_consistent; [|exact Hp|exact Hrun]. idle_all. }
    assert (Hparent : _root p <> None -> parent_frame (heap p) (_state p)).
    { intros Hroot. apply container_parent; auto. }
    repeat match goal with
           | |- (if ?c then _ else _) p = _ -> _ => destruct c
           end;
      try solve [intros Hrun; eapply idle_consistent; [|exact Hp|exact Hrun];
                 idle_all];
      unfold beginArray, beginDictionary, beginString, beginInteger, beginReal,
        beginBoolean, beginNull, beginData, beginDate;
      (eapply consistent_begin; [exact Hp|reflexivity|exact Hparent|idle_all]). }
  cbv zeta in Hrun.
  destruct (inDictionary p) eqn:Hdict.
  - destruct (String.eqb name "key").
    + destruct (negb (isExpectingKey p)).
      * eapply idle_consistent; [|exact Hp|exact Hrun]. idle_all.
      * eapply idle_consistent; [|exact Hp|exact Hrun]. unfold beginKey. idle_all.
    + destruct (isExpectingKey p) eqn:Hkey.
      * eapply idle_consistent; [|exact Hp|exact Hrun]. idle_all.
      * apply (Hvalue b q); [auto|exact Hrun].
  - apply (Hvalue b q); [discriminate|exact Hrun].
Qed.

Lemma consistent_pop_ret (h0 : plist.Heap) (p q : XMLParser) (b : bool) :
  consistent h0 p -> (pop ;; ret true) p = Returns b q -> consistent h0 q.
Proof.
  intros Hp Hrun. apply bind_Returns in Hrun as ([] & q' & Hpop & [= <- <-]).
  eapply consistent_pop; eauto.
Qed.

Lemma consistent_endObject (h0 : plist.Heap) (p q : XMLParser)
    (name : string) (b : bool) :
  consistent h0 p ->
  endObject name p = Returns b q ->
  consistent h0 q.
Proof.
  intros Hp. unfold endObject.
  repeat match goal with
         | |- (if ?c then _ else _) p = _ -> _ => destruct c
         end;
    unfold endKey, endArray, endDictionary, endBoolean, endNull;
    try solve [apply consistent_pop_ret; exact Hp];
    try solve [intros Hrun; eapply idle_consistent; [|exact Hp|exact Hrun];
               idle_all].
  - (* string *)
    unfold endString. intros Hrun.
    apply bind_Returns in Hrun as (p0 & p1 & [= <- <-] & Hrun).
    apply bind_Returns in Hrun as ([] & p2 & Hset & Hrun).
    eapply consistent_pop_ret; [|exact Hrun].
    eapply consistent_String_setValue; eauto.
  - (* integer *)
    unfold endInteger. intros Hrun.
    apply bind_Returns in Hrun as (p0 & p1 & [= <- <-] & Hrun).
    apply bind_Returns in Hrun as (v & p2 & Hconv & Hrun).
    destruct (stoi (_cdata p)); [|discriminate]. injection Hconv as <- <-.
    apply bind_Returns in Hrun as ([] & p2 & Hset & Hrun).
    eapply consistent_pop_ret; [|exact Hrun].
    eapply consistent_Integer_setValue; eauto.
  - (* real *)
    unfold endReal. intros Hrun.
    apply bind_Returns in Hrun as (p0 & p1 & [= <- <-] & Hrun).
    apply bind_Returns in Hrun as (d & p2 & Hconv & Hrun).
    destruct (stod (_cdata p)); [|discriminate]. injection Hconv as <- <-.
    apply bind_Returns in Hrun as ([] & p2 & Hset & Hrun).
    eapply consistent_pop_ret; [|exact Hrun].
    destruct (plist.CastTo plist.kInteger (heap p) (current (_state p)))
      as [this|] eqn:Hcast; [|discriminate].
    destruct (int64_of_double v) as [z|]; [|discriminate].
    rewrite <- Hcast in Hset.
    eapply consistent_Integer_setValue; eauto.
  - (* data *)
    unfold endData. intros Hrun.
    apply bind_Returns in Hrun as (p0 & p1 & [= <- <-] & Hrun).
    apply bind_Returns in Hrun as ([] & p2 & Hset & Hrun).
    eapply consistent_pop_ret; [|exact Hrun].
    eapply consistent_Data_setBase64Value; eauto.
  - (* date *)
    unfold endDate. intros Hrun.
    apply bind_Returns in Hrun as (p0 & p1 & [= <- <-] & Hrun).
    apply bind_Returns in Hrun as ([] & p2 & Hset & Hrun).
    eapply consistent_pop_ret; [|exact Hrun].
    eapply consistent_Date_setStringValue; eauto.
Qed.

Lemma consistent_stop_on_failure (h0 : plist.Heap) (m : M bool) (p q : XMLParser) :
  (forall b q', m p = Returns b q' -> consistent h0 q') ->
  (ok <- m ;; when (negb ok) stop) p = Returns tt q ->
  consistent h0 q.
Proof.
  intros Hm Hrun. apply bind_Returns in Hrun as (b & q' & Hrun & Hstop).
  specialize (Hm b q' Hrun).
  eapply idle_consistent; [|exact Hm|exact Hstop]. idle_all.
Qed.

Lemma consistent_deliver (h0 : plist.Heap) (e : event) (p q : XMLParser) :
  consistent h0 p -> deliver e p = Returns tt q -> consistent h0 q.
Proof.
  intros Hp. unfold deliver. intros Hrun.
  apply bind_Returns in Hrun as (d & p0 & [= <- <-] & Hrun).
  destruct e as [name attrs|text|name].
  - apply bind_Returns in Hrun as ([] & q' & Hrun & [= <-]).
    eapply (consistent_ext h0 q'); try reflexivity.
    unfold onStartElement in Hrun.
    apply bind_Returns in Hrun as (dict & p1 & [= _ <-] & Hrun).
    pose proof (consistent_alloc_stray h0 p (plist.Dictionary []) Hp) as Hp1.
    destruct (_depth p =? 0) eqn:H0.
    { eapply idle_consistent; [|exact Hp1|exact Hrun]. idle_all. }
    apply bind_Returns in Hrun as (p2 & p3 & [= <- <-] & Hrun).
    cbn [_root set_heap] in Hrun.
    destruct ((_depth p =? 1) && negb (is_null (_root p))) eqn:H1.
    { eapply idle_consistent; [|exact Hp1|exact Hrun]. idle_all. }
    eapply consistent_stop_on_failure; [|exact Hrun].
    intros b q''. apply consistent_beginObject; [exact Hp1|]. cbn.
    intros Hroot Hd. apply Nat.eqb_eq in Hd. rewrite Hd in H1.
    destruct (_root p); [discriminate|congruence].
  - unfold onCharacterData in Hrun.
    apply bind_Returns in Hrun as (p2 & p3 & [= <- <-] & Hrun).
    destruct (negb (isExpectingCDATA p)).
    + eapply idle_consistent; [apply idle_reject_cdata|exact Hp|exact Hrun].
    + eapply idle_consistent; [|exact Hp|exact Hrun]. idle_all.
  - apply bind_Returns in Hrun as ([] & p1 & [= <-] & Hrun).
    eapply consistent_stop_on_failure; [|exact Hrun].
    intros b q'. apply consistent_endObject.
    eapply consistent_ext; [..|exact Hp]; reflexivity.
Qed.

Lemma consistent_deliver_all (h0 : plist.Heap) (events : list event)
    (p q : XMLParser) :
  consistent h0 p -> deliver_all events p = Returns tt q -> consistent h0 q.
Proof.
  revert p. induction events as [|e events IH]; intros p Hp.
  - now intros [= <-].
  - rewrite deliver_all_cons. destruct (_stopped p); [now intros [= <-]|].
    destruct (deliver e p) as [[] r| |] eqn:Hrun; try discriminate.
    apply IH. eapply consistent_deliver; eauto.
Qed.

(** *** Rollback *)

Lemma free_all_ext (ns ms : list nat) (h : plist.Heap) :
  (forall x, x ∈ ns <-> x ∈ ms) -> free_all ns h = free_all ms h.
Proof.
  intros Heq. apply list_eq. intros i. rewrite !lookup_free_all.
  destruct (h !! i) as [c|]; [|reflexivity]. cbn.
  destruct (decide (i ∈ ns)) as [Hin|Hout].
  - rewrite !bool_decide_eq_true_2; [reflexivity|now apply Heq|exact Hin].
  - rewrite !bool_decide_eq_false_2; [reflexivity|now rewrite <- Heq|exact Hout].
Qed.

Lemma Object_release_owns (p : XMLParser) (this : ptr) (ns : list nat) :
  owns (heap p) this ns -> NoDup ns ->
  Object_release this p = Returns tt (set_heap (free_all ns (heap p)) p).
Proof.
  intros Ho Hnd. unfold Object_release. run.
  now rewrite (release_owns _ _ _ Ho Hnd).
Qed.

(** The loop over the saved frames releases each frame's node, when none of
    them is the current node or the root. *)
Lemma release_frames_owned (fs : list State) (p : XMLParser) (ns : list nat) :
  owns_all (heap p) (map current fs) ns ->
  NoDup ns ->
  Forall (fun f => current f <> current (_state p) /\ current f <> _root p) fs ->
  release_frames fs p = Returns tt (set_heap (free_all ns (heap p)) p).
Proof.
  revert p ns. induction fs as [|f fs IH]; intros p ns Ho Hnd Hne.
  - inversion Ho; subst. cbn. now rewrite free_all_nil, set_heap_id.
  - cbn in Ho. inversion Ho as [|? ? n1 n2 Hf Hfs]; subst.
    apply Forall_cons in Hne as [[Hc Hr] Hne].
    apply NoDup_app in Hnd as (Hnd1 & Hdisj & Hnd2).
    cbn [release_frames]. run.
    apply ptr_eqb_neq in Hc, Hr. rewrite Hc, Hr. cbn [negb andb].
    rewrite (Object_release_owns p _ _ Hf Hnd1).
    rewrite (IH _ n2); cbn.
    + now rewrite free_all_app.
    + eapply owns_all_agree; [exact Hfs|]. apply agree_free_all.
      intros x Hx Hx'. exact (Hdisj x Hx' Hx).
    + exact Hnd2.
    + exact Hne.
Qed.

(** After an unsuccessful parse [onEndParse] releases every node the
    automaton holds, each once, and with it every cell those nodes own. *)
Lemma rollback (h0 : plist.Heap) (q : XMLParser) :
  consistent h0 q ->
  exists ns,
    onEndParse false q =
    Returns tt
      (set_cdata ""
         (set_state (set_key_flags false false (set_current nullptr (_state q)))
            (set_root nullptr (set_stack [] (set_heap (free_all ns (heap q)) q))))) /\
    Forall (fun a => length h0 <= a) ns /\
    forall a o, length h0 <= a ->
                heap q !! a = Some (plist.Live plist.factory o) -> a ∈ ns.
Proof.
  intros Hq.
  pose proof Hq as ((saved & Hstack & Hroot) & _ & _ & ns & Ho & Hnd & Hge & Hcover).
  cbn in Hstack. subst saved. unfold held in Ho.
  exists ns. split; [|auto].
  unfold onEndParse. cbn [negb when]. run.
  destruct (_root q) as [r|] eqn:Hr.
  - destruct (_stack q) as [|f fs] eqn:Hs.
    + (* the root is the current node *)
      cbn in Ho. rewrite Hroot in *. apply owns_all_singleton in Ho.
      cbn [is_null negb andb ptr_eqb release_frames]. rewrite Nat.eqb_refl.
      cbn [negb andb]. run.
      rewrite (Object_release_owns (set_stack [] q) (Some r) ns Ho Hnd).
      destruct q; cbn in *. now subst.
    + (* the root is the bottom frame *)
      cbn in Ho. rewrite Hroot in Ho.
      inversion Ho as [|? ? n_r n_rest Hown_r Hrest]; subst.
      apply owns_all_app in Hrest as (n_fs & n_c & -> & Hown_fs & Hown_c).
      apply owns_all_singleton in Hown_c.
      destruct (owns_inv _ _ _ Hown_c) as (c & cc & ccs & n_c' & Hc & -> & _).
      destruct (owns_inv _ _ _ Hown_r) as (r' & rc & rcs & n_r' & [= <-] & -> & _).
      rewrite Hc in *.
      assert (Hcr : c <> r).
      { intros ->. apply NoDup_app in Hnd as (_ & Hdisj & _).
        apply (Hdisj r); [left|]. rewrite elem_of_app. right. left. }
      pose proof Hnd as Hnd0.
      apply NoDup_app in Hnd as (Hnd_r & Hdisj_r & Hnd).
      apply NoDup_app in Hnd as (Hnd_fs & Hdisj_fs & Hnd_c).
      cbn [is_null negb andb ptr_eqb].
      apply Nat.eqb_neq in Hcr as Hcr'. rewrite Hcr'. cbn [negb andb].
      rewrite (Object_release_owns q _ _ Hown_c Hnd_c). cbv beta iota.
      cbn [release_frames]. run.
      cbn [_state set_heap _root current]. rewrite Hroot, Hc, Hr.
      cbn [ptr_eqb]. rewrite Nat.eqb_refl, andb_false_r. cbv beta iota.
      rewrite (release_frames_owned fs _ n_fs); cbn [heap set_heap].
      2:{ eapply owns_all_agree; [exact Hown_fs|]. apply agree_free_all.
          intros x Hx Hx'. exact (Hdisj_fs x Hx Hx'). }
      2:{ exact Hnd_fs. }
      2:{ rewrite Forall_forall. intros g Hg. cbn.
          destruct (owns_all_elem _ _ _ (current g) Hown_fs) as (a & Ha & Hin).
          { apply list_elem_of_fmap. eauto. }
          rewrite Ha, Hc, Hr. split; intros [= ->].
          - apply (Hdisj_fs c Hin). left.
          - apply (Hdisj_r r); [left|]. rewrite elem_of_app. auto. }
      cbv beta iota. cbn [is_null negb _root set_stack set_heap].
      rewrite (Object_release_owns _ (Some r) (r :: n_r')); cbn [heap set_heap set_stack].
      2:{ eapply owns_agree; [exact Hown_r|].
          eapply agree_trans; apply agree_free_all.
          - intros x Hx Hx'. apply (Hdisj_r x Hx). rewrite elem_of_app. auto.
          - intros x Hx Hx'. apply (Hdisj_r x Hx). rewrite elem_of_app. auto. }
      2:{ exact Hnd_r. }
      rewrite !free_all_app.
      rewrite (free_all_ext ((c :: n_c') ++ n_fs ++ r :: n_r')
                 ((r :: n_r') ++ n_fs ++ c :: n_c')).
      2:{ intros x. rewrite !elem_of_app. tauto. }
      destruct q; cbn in *. now subst.
  - destruct Hroot as [Hc Hs]. rewrite Hs in *.
    inversion Ho; subst. rewrite Hc. cbn. rewrite free_all_nil.
    destruct q; cbn in *. now subst.
Qed.

Lemma consistent_begin_parse (p : XMLParser) :
  _stack p = [] -> consistent (heap p) (begin p).
Proof.
  intros Hs. split; [|split; [|split]].
  - exists []. cbn. auto.
  - cbn. rewrite Hs. constructor.
  - auto.
  - exists []. unfold held. cbn. repeat split; try constructor.
    intros a o Ha Hl. apply lookup_lt_Some in Hl. lia.
Qed.

Lemma parse_fp_unfold (fp : xml) (p : XMLParser) :
  _root p = nullptr ->
  parse_fp fp p =
  match deliver_all (events_of fp) (begin p) with
  | Returns _ q =>
      match onEndParse (negb (_stopped q)) q with
      | Returns _ q' =>
          if _stopped q then Returns nullptr q' else Returns (_root q') q'
      | Throws e q' => Throws e q'
      | Undefined => Undefined
      end
  | Throws e q => Throws e q
  | Undefined => Undefined
  end.
Proof.
  intros Hroot. unfold parse_fp, BaseXMLParser_parse_fp. run. rewrite Hroot.
  change (is_null nullptr) with true. cbn [negb]. cbv beta iota.
  change (onBeginParse (set_depth 0 (set_stopped false p)))
    with (Returns tt (begin p)).
  cbv beta iota. destruct (deliver_all _ _) as [[] q| |]; try reflexivity.
  destruct (onEndParse _ _) as [[] q'| |]; try reflexivity.
  now destruct (_stopped q).
Qed.

(** X20 — a parse that a handler stops is rolled back.
    On a parser without a root and with an empty stack, when the handlers
    run until one of them requests a stop (an element the grammar does not
    allow in its place, an unknown element, text where none is expected),
    [parse] returns null, at least one message has been delivered, and
    [onEndParse] leaves nothing behind: root and current node are null, the
    stack is empty, every node made by a factory during the attempt has been
    released, none of them twice (the releases are all defined), and the
    cells that existed before are untouched. *)
Theorem failed_parse_rolls_back (p : XMLParser) (fp : xml) (q : XMLParser) :
  _root p = nullptr ->
  _stack p = [] ->
  deliver_all (events_of fp) (begin p) = Returns tt q ->
  _stopped q = true ->
  exists q' messages,
    parse_fp fp p = Returns nullptr q' /\
    _errors q' = _errors p ++ messages /\ messages <> [] /\
    _root q' = nullptr /\ current (_state q') = nullptr /\ _stack q' = [] /\
    (forall x, x < length (heap p) -> heap q' !! x = heap p !! x) /\
    (forall a o, length (heap p) <= a ->
                 heap q' !! a <> Some (plist.Live plist.factory o)).
Proof.
  intros Hroot Hstack Hrun Hstopped.
  pose proof (consistent_deliver_all _ _ _ _ (consistent_begin_parse p Hstack) Hrun)
    as Hq.
  destruct (reported_deliver_all _ _ _ Hrun) as (messages & Herrors & Hstop).
  destruct (rollback _ _ Hq) as (ns & Hend & Hge & Hcover).
  eexists. exists messages. split; [|split; [|split; [|split; [|split; [|split; [|split]]]]]].
  - rewrite (parse_fp_unfold fp p Hroot), Hrun, Hstopped.
    cbn [negb]. rewrite Hend. reflexivity.
  - exact Herrors.
  - destruct Hstop as [Hsame|[_ Hne]]; [|exact Hne].
    cbn in Hsame. congruence.
  - reflexivity.
  - reflexivity.
  - reflexivity.
  - intros x Hx. cbn. rewrite lookup_free_all_notin.
    + destruct Hq as (_ & _ & Hearlier & _). auto.
    + intros Hin. rewrite Forall_forall in Hge. specialize (Hge x Hin). lia.
  - intros a o Ha Hl. cbn in Hl. rewrite lookup_free_all in Hl.
    destruct (heap q !! a) as [c|] eqn:Hla; [|discriminate]. cbn in Hl.
    destruct (decide (a ∈ ns)) as [Hin|Hout].
    + rewrite bool_decide_eq_true_2 in Hl by exact Hin. discriminate.
    + rewrite bool_decide_eq_false_2 in Hl by exact Hout.
      injection Hl as ->. eauto.
Qed.

Lemma deliver_all_app (l1 l2 : list event) (p : XMLParser) :
  deliver_all (l1 ++ l2) p =
  match deliver_all l1 p with
  | Returns _ q => deliver_all l2 q
  | Throws e q => Throws e q
  | Undefined => Undefined
  end.
Proof.
  revert p. induction l1 as [|e l1 IH]; intros p; [reflexivity|].
  cbn [app]. rewrite !deliver_all_cons.
  destruct (_stopped p) eqn:Hs; [now rewrite deliver_all_stopped|].
  destruct (deliver e p) as [[] r| |]; [apply IH|reflexivity|reflexivity].
Qed.

(** C3 (what the code does) — the text of a [data] element is rejected.
    For the document [<plist><data>text</data></plist>], whenever the text
    has a character that is not white space (as all base64 text has), every
    such character is reported as unexpected character data, the parse is
    stopped and [parse] returns null: no data node is returned, and the one
    that was made is released. *)
Theorem data_text_is_rejected (text : string) :
  unexpected text <> 0 ->
  exists q,
    parse_fp (data_document text) XMLParser_new = Returns nullptr q /\
    _errors q = repeat "unexpected cdata" (unexpected text) /\
    _stopped q = true /\
    forall a o, heap q !! a <> Some (plist.Live plist.factory o).
Proof.
  intros Htext. rewrite parse_fp_unfold by reflexivity.
  change (events_of (data_document text))
    with ([StartElement "plist" []; StartElement "data" []]
          ++ [CharacterData text] ++ [EndElement "data"; EndElement "plist"]).
  rewrite deliver_all_app.
  set (opened := deliver_all [StartElement "plist" []; StartElement "data" []]
                   (begin XMLParser_new)).
  vm_compute in opened. subst opened. cbv beta iota.
  rewrite deliver_all_app, deliver_all_cons. cbn [_stopped].
  unfold deliver at 1. run. cbn [_depth]. unfold onCharacterData. run.
  match goal with
  | |- context [isExpectingCDATA ?s] =>
      change (isExpectingCDATA s) with false
  end.
  cbn [negb]. rewrite reject_cdata_spec.
  destruct (unexpected text) as [|n] eqn:Hn; [congruence|].
  cbv beta iota. rewrite !deliver_all_stopped by reflexivity.
  cbv beta iota. cbn [_stopped set_stopped negb].
  eexists. split; [vm_compute; reflexivity|]. cbn [_errors _stopped heap].
  split; [reflexivity|]. split; [reflexivity|].
  intros [|[|[|a]]] o; discriminate.
Qed.

(** C6 (what the code does) — a second element at depth 1 does not abort
    the parse.  For [<plist><dict/><dict/></plist>] the second [dict] is
    reported as an unexpected element after the root, but no stop is
    requested: the parse runs to its end and [parse] returns the root made
    from the first [dict]. *)
Theorem second_root_element_is_passed_over :
  exists q,
    parse_fp two_roots_document XMLParser_new = Returns (Some 2) q /\
    _errors q = [after_root "dict"] /\
    _stopped q = false /\
    _root q = Some 2 /\
    heap q !! 2 = Some (plist.Live plist.factory (plist.Dictionary [])).
Proof.
  eexists. split; [vm_compute; reflexivity|]. cbn. auto.
Qed.

(** *** Character data, once more *)

Lemma append_empty (s : string) : String.append s "" = s.
Proof. induction s as [|c s IH]; [reflexivity|]. cbn. now rewrite IH. Qed.

Lemma append_associative (a b c : string) :
  String.append (String.append a b) c = String.append a (String.append b c).
Proof. induction a as [|x a IH]; [reflexivity|]. cbn. now rewrite IH. Qed.

Lemma set_cdata_id (p : XMLParser) : set_cdata (_cdata p) p = p.
Proof. now destruct p. Qed.

Lemma deliver_text (text : string) (p : XMLParser) :
  isExpectingCDATA p = true ->
  deliver (CharacterData text) p =
  Returns tt (set_cdata (String.append (_cdata p) text) p).
Proof.
  intros He. unfold deliver. run. unfold onCharacterData. run.
  now rewrite He.
Qed.

Lemma deliver_all_text (chunks : list string) (rest : list event) (p : XMLParser) :
  isExpectingCDATA p = true ->
  _stopped p = false ->
  deliver_all (map CharacterData chunks ++ rest) p =
  deliver_all rest (set_cdata (String.append (_cdata p) (joined chunks)) p).
Proof.
  revert p. induction chunks as [|c chunks IH]; intros p He Hs.
  - cbn [map app joined fold_right]. now rewrite append_empty, set_cdata_id.
  - cbn [map app]. rewrite deliver_all_cons, Hs, deliver_text by exact He.
    rewrite IH by assumption. cbn [_cdata set_cdata joined fold_right].
    now rewrite append_associative.
Qed.

(** X1 — character data where none is expected.  When the current node
    takes no text, [onCharacterData] reports "unexpected cdata" once for
    every character of the text that is not white space, going on to the end
    of the text after the first of them, and requests a stop; text of white
    space only is passed over.  In both cases the buffer, the nodes and the
    frames are as they were. *)
Theorem unexpected_text_is_reported_per_character (p : XMLParser)
    (cdata : string) (depth : nat) :
  isExpectingCDATA p = false ->
  exists q,
    onCharacterData cdata depth p = Returns tt q /\
    _errors q = _errors p ++ repeat "unexpected cdata" (unexpected cdata) /\
    _stopped q = (_stopped p || negb (unexpected cdata =? 0)) /\
    _cdata q = _cdata p /\ heap q = heap p /\ _root q = _root p /\
    _state q = _state p /\ _stack q = _stack p.
Proof.
  intros He. unfold onCharacterData. run. rewrite He. cbn [negb].
  rewrite reject_cdata_spec. eexists. split; [reflexivity|].
  destruct (unexpected cdata) as [|n].
  - cbn [repeat Nat.eqb negb]. rewrite app_nil_r, orb_false_r. auto 10.
  - cbn [Nat.eqb negb _errors _stopped set_stopped set_errors _cdata heap
         _root _state _stack].
    rewrite orb_true_r. auto 10.
Qed.

(** X2 — text delivered in pieces.  While the current node takes text, the
    pieces of character data that the driver delivers one after the other
    are appended to the buffer unchanged, white space included: delivering
    them leaves the automaton where delivering their concatenation as one
    piece leaves it. *)
Theorem text_in_pieces_is_text_in_one_piece (p : XMLParser)
    (chunks : list string) (rest : list event) :
  isExpectingCDATA p = true ->
  _stopped p = false ->
  deliver_all (map CharacterData chunks ++ rest) p =
  deliver_all (CharacterData (joined chunks) :: rest) p.
Proof.
  intros He Hs. rewrite deliver_all_cons, Hs, deliver_text by exact He.
  revert p He Hs. induction chunks as [|c chunks IH]; intros p He Hs.
  - cbn [map app joined fold_right]. now rewrite append_empty, set_cdata_id.
  - cbn [map app]. rewrite deliver_all_cons, Hs, deliver_text by exact He.
    rewrite IH by assumption. cbn [_cdata set_cdata joined fold_right].
    now rewrite append_associative.
Qed.

Lemma events_of_text (chunks : list string) :
  flat_map events_of (map Text chunks) = map CharacterData chunks.
Proof. induction chunks as [|c chunks IH]; [reflexivity|]. cbn. now rewrite IH. Qed.

(** X3 — a [string] document keeps its text.  For every text, in whatever
    pieces the driver delivers it, [<plist><string>text</string></plist>]
    parses without a message to a string node that holds exactly the text:
    nothing is trimmed and no piece is lost. *)
Theorem string_document_keeps_its_text (chunks : list string) :
  exists q,
    parse_fp (string_document chunks) XMLParser_new = Returns (Some 2) q /\
    _errors q = [] /\
    _root q = Some 2 /\
    _stack q = [] /\
    heap q !! 2 = Some (plist.Live plist.factory (plist.String (joined chunks))).
Proof.
  rewrite parse_fp_unfold by reflexivity.
  unfold string_document, element. cbn [events_of flat_map].
  rewrite app_nil_r, events_of_text.
  cbn [app]. rewrite <- app_assoc. cbn [app].
  change (StartElement "plist" [] :: StartElement "string" [] ::
          map CharacterData chunks ++ [EndElement "string"; EndElement "plist"])
    with ([StartElement "plist" []; StartElement "string" []]
          ++ (map CharacterData chunks
                ++ [EndElement "string"; EndElement "plist"])).
  rewrite deliver_all_app.
  set (opened := deliver_all [StartElement "plist" []; StartElement "string" []]
                   (begin XMLParser_new)).
  vm_compute in opened. subst opened. cbv beta iota.
  rewrite deliver_all_text by reflexivity.
  cbn [_cdata String.append].
  generalize (joined chunks). intros text.
  eexists. split; [vm_compute; reflexivity|]. cbn. auto.
Qed.

(** X4 — the text of a [date] element is rejected.  [isExpectingCDATA]
    names the integer, real and string nodes and the open key, not the date
    node: for [<plist><date>text</date></plist>], whenever the text has a
    character that is not white space, each such character is reported as
    unexpected character data, the parse is stopped, [parse] returns null and
    the date node that was made is released. *)
Theorem date_text_is_rejected (text : string) :
  unexpected text <> 0 ->
  exists q,
    parse_fp (date_document text) XMLParser_new = Returns nullptr q /\
    _errors q = repeat "unexpected cdata" (unexpected text) /\
    _stopped q = true /\
    forall a o, heap q !! a <> Some (plist.Live plist.factory o).
Proof.
  intros Htext. rewrite parse_fp_unfold by reflexivity.
  change (events_of (date_document text))
    with ([StartElement "plist" []; StartElement "date" []]
          ++ [CharacterData text] ++ [EndElement "date"; EndElement "plist"]).
  rewrite deliver_all_app.
  set (opened := deliver_all [StartElement "plist" []; StartElement "date" []]
                   (begin XMLParser_new)).
  vm_compute in opened. subst opened. cbv beta iota.
  rewrite deliver_all_app, deliver_all_cons. cbn [_stopped].
  unfold deliver at 1. run. cbn [_depth]. unfold onCharacterData. run.
  match goal with
  | |- context [isExpectingCDATA ?s] =>
      change (isExpectingCDATA s) with false
  end.
  cbn [negb]. rewrite reject_cdata_spec.
  destruct (unexpected text) as [|n] eqn:Hn; [congruence|].
  cbv beta iota. rewrite !deliver_all_stopped by reflexivity.
  cbv beta iota. cbn [_stopped set_stopped negb].
  eexists. split; [vm_compute; reflexivity|]. cbn [_errors _stopped heap].
  split; [reflexivity|]. split; [reflexivity|].
  intros [|[|[|a]]] o; discriminate.
Qed.

(** *** Integer documents *)

Lemma stoi_range (text : string) (v : Z) :
  stoi text = Value v -> (INT_MIN <= v <= INT_MAX)%Z.
Proof.
  unfold stoi. destruct (read_sign (skip_spaces text)) as [negative s].
  destruct (read_digits s 0%Z 0) as [[magnitude count] rest].
  destruct count as [|count]; [discriminate|].
  destruct (_ && _)%Z eqn:Hr; [|discriminate].
  intros [= <-]. apply andb_true_iff in Hr as [Hlo Hhi].
  apply Z.leb_le in Hlo, Hhi. split; assumption.
Qed.

(** X5 — an [integer] document.  For every text,
    [<plist><integer>text</integer></plist>] parses to an integer node that
    holds what [std::stoi] reads from the text, which lies in the range of
    [int]; when [std::stoi] throws, the exception leaves [parse]: nothing is
    reported, [onEndParse] does not run, and the integer node stays
    allocated, holding 0. *)
Theorem integer_document_parse (text : string) :
  match stoi text with
  | Value v =>
      (INT_MIN <= v <= INT_MAX)%Z /\
      exists q,
        parse_fp (integer_document text) XMLParser_new = Returns (Some 2) q /\
        _errors q = [] /\
        heap q !! 2 = Some (plist.Live plist.factory (plist.Integer v))
  | Raises e =>
      exists q,
        parse_fp (integer_document text) XMLParser_new = Throws e q /\
        _errors q = [] /\ _stopped q = false /\ _root q = Some 2 /\
        heap q !! 2 = Some (plist.Live plist.factory (plist.Integer 0))
  end.
Proof.
  assert (Hopen : forall q,
    parse_fp (integer_document text) XMLParser_new = q <->
    match deliver_all [EndElement "integer"; EndElement "plist"]
            (mkXMLParser [] false 2 (Some 2)
               (mkState (Some 2) (mkKey "" false false)) [] text
               [plist.Live plist.operator_new (plist.Dictionary []);
                plist.Live plist.operator_new (plist.Dictionary []);
                plist.Live plist.factory (plist.Integer 0)]) with
    | Returns _ q0 =>
        match onEndParse (negb (_stopped q0)) q0 with
        | Returns _ q' =>
            if _stopped q0 then Returns nullptr q' else Returns (_root q') q'
        | Throws e q' => Throws e q'
        | Undefined => Undefined
        end
    | Throws e q0 => Throws e q0
    | Undefined => Undefined
    end = q).
  { intros q. rewrite parse_fp_unfold by reflexivity.
    change (events_of (integer_document text))
      with ([StartElement "plist" []; StartElement "integer" []]
            ++ (map CharacterData [text]
                  ++ [EndElement "integer"; EndElement "plist"])).
    rewrite deliver_all_app.
    set (opened := deliver_all [StartElement "plist" []; StartElement "integer" []]
                     (begin XMLParser_new)).
    vm_compute in opened. subst opened. cbv beta iota.
    rewrite deliver_all_text by reflexivity.
    cbn [_cdata String.append joined fold_right]. rewrite append_empty.
    reflexivity. }
  destruct (stoi text) as [v|e] eqn:Hv.
  - split; [exact (stoi_range _ _ Hv)|].
    eexists. split.
    + apply Hopen. rewrite deliver_all_cons. cbn [_stopped].
      unfold deliver at 1. run. cbn [_depth set_depth Nat.pred].
      rewrite (integer_close_stores _ 2 0%Z v) by (reflexivity || exact Hv).
      vm_compute. reflexivity.
    + cbn. auto.
  - eexists. split.
    + apply Hopen. rewrite deliver_all_cons. cbn [_stopped].
      unfold deliver at 1. run. cbn [_depth set_depth Nat.pred].
      unfold onEndElement. change (endObject "integer") with endInteger.
      unfold endInteger. run. cbn [_cdata set_depth]. rewrite Hv. reflexivity.
    + cbn. auto.
Qed.

(** *** Elements after the root *)

Lemma CastTo_stray (T : plist.ObjectType) (h : plist.Heap) (c : ptr) :
  T <> plist.kDictionary ->
  plist.CastTo T h c = nullptr ->
  plist.CastTo T (h ++ [plist.Live plist.operator_new (plist.Dictionary [])]) c
  = nullptr.
Proof.
  intros HT. unfold plist.CastTo, plist.read. destruct c as [a|]; [|reflexivity].
  destruct (decide (a < length h)) as [Hlt|Hge].
  - now rewrite lookup_app_l by exact Hlt.
  - rewrite lookup_ge_None_2 by lia. intros _.
    rewrite lookup_app_r by lia.
    destruct (a - length h) as [|n]; [|reflexivity].
    cbn. destruct T; try reflexivity. now elim HT.
Qed.

Lemma text_leaf_cases (name : string) (T : plist.ObjectType) :
  text_leaf name = Some T ->
  (name = "string" /\ T = plist.kString) \/
  (name = "data" /\ T = plist.kData) \/
  (name = "date" /\ T = plist.kDate).
Proof.
  unfold text_leaf.
  destruct (String.eqb name "string") eqn:E1;
    [apply String.eqb_eq in E1; intros [= <-]; auto|].
  destruct (String.eqb name "data") eqn:E2;
    [apply String.eqb_eq in E2; intros [= <-]; auto|].
  destruct (String.eqb name "date") eqn:E3;
    [apply String.eqb_eq in E3; intros [= <-]; auto|].
  discriminate.
Qed.

(** X6 — a [string], [data] or [date] element after the root.  An element
    that opens at depth 1 when the root is already there is reported and
    passed over, but its end event still runs the end handler of its name on
    the current node.  When that node is not of the type the handler casts
    to, the setter is called through the null result of the cast: the
    behaviour is undefined, whatever events follow. *)
Theorem leaf_after_root_is_undefined (p : XMLParser) (name : string)
    (T : plist.ObjectType) (attrs : string_map) (rest : list event) :
  text_leaf name = Some T ->
  _stopped p = false ->
  _depth p = 1 ->
  _root p <> nullptr ->
  plist.CastTo T (heap p) (current (_state p)) = nullptr ->
  deliver_all (StartElement name attrs :: EndElement name :: rest) p = Undefined.
Proof.
  intros Hname Hs Hd Hroot Hcast.
  rewrite deliver_all_cons, Hs, element_after_root by assumption.
  rewrite deliver_all_cons. cbn [_stopped set_depth set_errors set_heap].
  rewrite Hs. unfold deliver. run.
  cbn [_depth set_depth Nat.pred]. unfold onEndElement. run.
  assert (HT : T <> plist.kDictionary).
  { destruct (text_leaf_cases _ _ Hname) as [[_ ->]|[[_ ->]|[_ ->]]]; discriminate. }
  pose proof (CastTo_stray T _ _ HT Hcast) as Hnull.
  destruct (text_leaf_cases _ _ Hname) as [[-> ->]|[[-> ->]|[-> ->]]].
  - change (endObject "string") with endString. unfold endString. run.
    cbn [heap _state set_depth set_errors set_heap]. now rewrite Hnull.
  - change (endObject "data") with endData. unfold endData. run.
    cbn [heap _state set_depth set_errors set_heap]. now rewrite Hnull.
  - change (endObject "date") with endDate. unfold endDate. run.
    cbn [heap _state set_depth set_errors set_heap]. now rewrite Hnull.
Qed.

(** *** The frames of a parse *)

Lemma owns_all_heads (h : plist.Heap) (ps : list ptr) (ns : list nat) :
  owns_all h ps ns -> NoDup ns -> NoDup ps.
Proof.
  induction 1 as [|p ps ns ms Hp Hps IH]; intros Hnd; [constructor|].
  apply NoDup_app in Hnd as (Hn & Hdisj & Hm).
  constructor; [|now apply IH].
  intros Hin. destruct (owns_all_elem _ _ _ _ Hps Hin) as (a & -> & Ha).
  destruct (owns_inv _ _ _ Hp) as (a' & c & cs & ns' & [= <-] & -> & _).
  apply (Hdisj a); [left|exact Ha].
Qed.

(** X7 — no completed node is dropped in a parse.  In every state that the
    events of a parse lead to, each saved frame is the frame of an array, or
    of a dictionary that holds a valid key; and when the current node is not
    the root there is a frame to restore.  So the [pop] of a parse always
    attaches the completed node: the branch that restores a dictionary
    without a key, and attaches nothing, is not reached. *)
Theorem saved_frames_take_children (p : XMLParser) (events : list event)
    (q : XMLParser) :
  _stack p = [] ->
  deliver_all events (begin p) = Returns tt q ->
  Forall (parent_frame (heap q)) (_stack q) /\
  (current (_state q) <> _root q ->
   exists top, last (_stack q) = Some top /\ parent_frame (heap q) top).
Proof.
  intros Hs Hrun.
  pose proof (consistent_deliver_all _ _ _ _ (consistent_begin_parse p Hs) Hrun)
    as Hq.
  pose proof Hq as (Hrooted & Hframes & _). split; [exact Hframes|].
  intros Hcur.
  assert (Hroot : _root q <> None).
  { intros Hn. destruct (consistent_root_None _ _ Hq Hn) as [Hc _]. congruence. }
  destruct (consistent_current _ _ Hq Hroot) as (a & Ha & _).
  assert (Hne : _stack q <> []).
  { apply (rooted_back_defined [] q Hrooted); [rewrite Ha; discriminate|exact Hcur]. }
  destruct (last (_stack q)) as [top|] eqn:Hlast.
  - exists top. split; [reflexivity|].
    rewrite (removelast_nonempty _ _ Hlast) in Hframes.
    apply Forall_app in Hframes as [_ Htop]. now apply Forall_inv in Htop.
  - apply last_None in Hlast. contradiction.
Qed.

(** X8 — the nodes of the frames are distinct.  In every state that the
    events of a parse lead to, once there is a root, the nodes of the saved
    frames and the current node are pairwise different live nodes made
    during this parse, and the first of them is the root.  So no node is
    released twice by the comparisons of [onEndParse], and only the bottom
    frame is skipped there as the root. *)
Theorem held_nodes_are_distinct (p : XMLParser) (events : list event)
    (q : XMLParser) :
  _stack p = [] ->
  deliver_all events (begin p) = Returns tt q ->
  _root q <> nullptr ->
  let nodes := map current (_stack q) ++ [current (_state q)] in
  NoDup nodes /\
  head nodes = Some (_root q) /\
  forall n, n ∈ nodes ->
    exists a o, n = Some a /\ length (heap p) <= a /\
                plist.read (heap q) a = Some o.
Proof.
  intros Hs Hrun Hroot nodes.
  pose proof (consistent_deliver_all _ _ _ _ (consistent_begin_parse p Hs) Hrun)
    as Hq.
  pose proof Hq as (Hrooted & _ & _ & ns & Hown & Hnd & Hge & _).
  assert (Hheld : held q = nodes).
  { unfold held. destruct (_root q); [reflexivity|now elim Hroot]. }
  rewrite Hheld in Hown. split; [exact (owns_all_heads _ _ _ Hown Hnd)|]. split.
  - destruct Hrooted as (saved & Hst & Hmatch). cbn [app] in Hst.
    destruct (_root q) as [r|] eqn:Hr; [|now elim Hroot].
    subst nodes. rewrite Hst. destruct saved as [|f saved]; cbn.
    + now rewrite Hmatch.
    + now rewrite Hmatch.
  - intros n Hn. destruct (owns_all_elem _ _ _ _ Hown Hn) as (a & -> & Ha).
    destruct (proj2 (owns_live_mut (heap q)) _ _ Hown a Ha) as (c & cs & Hc & Hshape).
    destruct c as [how o|]; [|discriminate].
    exists a, o. split; [reflexivity|]. split.
    + rewrite Forall_forall in Hge. apply (Hge a Ha).
    + unfold plist.read. now rewrite Hc.
Qed.

(** *** Elements open and close at the same level *)

Lemma still_ret {A} (a : A) : still (ret a).
Proof. intros p a' q [= <- <-]. auto. Qed.

Lemma still_bind {A B} (m : M A) (k : A -> M B) :
  still m -> (forall a, still (k a)) -> still (bind m k).
Proof.
  intros Hm Hk p b q Hrun. apply bind_Returns in Hrun as (a & p' & Hm' & Hk').
  destruct (Hm _ _ _ Hm') as (? & ? & ? & ?).
  destruct (Hk _ _ _ _ Hk') as (? & ? & ? & ?).
  repeat split; congruence.
Qed.

Lemma still_modify (f : XMLParser -> XMLParser) :
  (forall p, _stack (f p) = _stack p /\
             current (_state (f p)) = current (_state p) /\
             _root (f p) = _root p /\ _depth (f p) = _depth p) ->
  still (modify f).
Proof. intros Hf p [] q [= <-]. apply Hf. Qed.

Lemma still_get : still get.
Proof. intros p a q [= <- <-]. auto. Qed.

Lemma still_gets {A} (f : XMLParser -> A) : still (gets f).
Proof. intros p a q [= <- <-]. auto. Qed.

Lemma still_when (b : bool) (m : M unit) : still m -> still (when b m).
Proof. intros Hm. destruct b; [exact Hm|apply still_ret]. Qed.

Lemma still_undefined {A} : still (@undefined _ A).
Proof. intros p a q [=]. Qed.

Lemma still_convert {A} (c : conversion A) : still (convert c).
Proof. destruct c; intros p a q [=]; subst; auto. Qed.

Lemma still_on_heap (f : plist.Heap -> option plist.Heap) : still (on_heap f).
Proof.
  intros p [] q. unfold on_heap. destruct (f (heap p)); [|discriminate].
  intros [= <-]. auto.
Qed.

Lemma still_New (o : plist.Object) : still (New o).
Proof. intros p a q [= _ <-]. auto. Qed.

Lemma still_member {A} this (body : nat -> plist.Object -> M A) :
  (forall a o, still (body a o)) -> still (member this body).
Proof.
  intros Hb. unfold member. destruct this as [a|]; [|apply still_undefined].
  apply still_bind; [apply still_gets|]. intros h.
  destruct (plist.read h a); [apply Hb|apply still_undefined].
Qed.

Ltac still_step :=
  first
    [ apply still_ret
    | apply still_get
    | apply still_gets
    | apply still_undefined
    | apply still_convert
    | apply still_on_heap
    | apply still_New
    | apply still_modify; intros ?; repeat split; reflexivity
    | apply still_when
    | apply still_member; intros ? ?
    | apply still_bind; [|intros ?]
    | match goal with
      | |- still (if ?b then _ else _) => destruct b
      | |- still (match ?x with _ => _ end) => destruct x
      end ].

Ltac still_all :=
  unfold error, stop, store, Object_release; repeat still_step.

Lemma still_reject_cdata (cdata : string) : still (reject_cdata cdata).
Proof.
  intros p [] q. rewrite reject_cdata_spec. intros [= <-].
  destruct (unexpected cdata); cbn; auto.
Qed.

Lemma still_onCharacterData (cdata : string) (depth : nat) :
  still (onCharacterData cdata depth).
Proof.
  unfold onCharacterData. apply still_bind; [apply still_get|]. intros p.
  destruct (negb (isExpectingCDATA p)); [apply still_reject_cdata|still_all].
Qed.

Lemma level_refl (p : XMLParser) : level p p.
Proof. unfold level. auto. Qed.

Lemma level_trans (p q r : XMLParser) : level p q -> level q r -> level p r.
Proof.
  intros (Hs & Hd & Hc) (Hs' & Hd' & Hc'). unfold level.
  split; [congruence|]. split; [congruence|].
  destruct Hc as [Hc|Hc]; [|now right].
  destruct Hc' as [Hc'|Hc']; [left|right]; congruence.
Qed.

Lemma running_before (events : list event) (p q : XMLParser) :
  deliver_all events p = Returns tt q -> _stopped q = false -> _stopped p = false.
Proof.
  intros Hrun Hq. destruct (_stopped p) eqn:Hp; [|reflexivity].
  rewrite deliver_all_stopped in Hrun by exact Hp. injection Hrun as <-.
  congruence.
Qed.

(** The frames after a [begin] handler that makes a node and pushes it. *)
Lemma begin_frames (o : plist.Object) (rest : M bool) (p : XMLParser)
    (b : bool) (q : XMLParser) :
  still rest ->
  (x <- New o ;; push x ;; rest) p = Returns b q ->
  _depth q = _depth p /\
  current (_state q) = Some (length (heap p)) /\
  _stack q = if is_null (current (_state p)) then _stack p
             else _stack p ++ [_state p].
Proof.
  intros Hrest Hrun.
  apply bind_Returns in Hrun as (x & p1 & Hnew & Hrun).
  apply bind_Returns in Hrun as ([] & p2 & Hpush & Hrun).
  injection Hnew as <- <-. rewrite push_unfold in Hpush. injection Hpush as <-.
  destruct (Hrest _ _ _ Hrun) as (-> & -> & _ & ->).
  destruct p as [e s d r [c k] st cd h]; cbn.
  destruct c as [c|], r as [r|]; cbn; auto.
Qed.

Lemma beginObject_frames (name : string) (p q : XMLParser) :
  beginObject name p = Returns true q ->
  _depth q = _depth p /\
  ((name = "key" /\ _stack q = _stack p /\
    current (_state q) = current (_state p)) \/
   (String.eqb name "key" = false /\ String.eqb name "plist" = false /\
    current (_state q) = Some (length (heap p)) /\
    _stack q = if is_null (current (_state p)) then _stack p
               else _stack p ++ [_state p])).
Proof.
  unfold beginObject.
  intros Hrun. apply bind_Returns in Hrun as (p0 & p1 & [= <- <-] & Hrun).
  assert (Hvalue :
            (if negb (inContainer p) then error (not_in_container name) ;; ret false
             else if String.eqb name "array" then beginArray
             else if String.eqb name "dict" then beginDictionary
             else if String.eqb name "string" then beginString
             else if String.eqb name "integer" then beginInteger
             else if String.eqb name "real" then beginReal
             else if String.eqb name "true" then beginBoolean true
             else if String.eqb name "false" then beginBoolean false
             else if String.eqb name "null" then beginNull
             else if String.eqb name "data" then beginData
             else if String.eqb name "date" then beginDate
             else error (unexpected_element name) ;; ret false) p
            = Returns true q ->
            _depth q = _depth p /\
            String.eqb name "key" = false /\ String.eqb name "plist" = false /\
            current (_state q) = Some (length (heap p)) /\
            _stack q = if is_null (current (_state p)) then _stack p
                       else _stack p ++ [_state p]).
  { clear Hrun.
    destruct (inContainer p); cbn [negb]; [|run; discriminate].
    repeat match goal with
           | |- (if String.eqb name ?s then _ else _) p = _ -> _ =>
               let E := fresh "E" in
               destruct (String.eqb name s) eqn:E;
               [ apply String.eqb_eq in E; subst name;
                 unfold beginArray, beginDictionary, beginString, beginInteger,
                   beginReal, beginBoolean, beginNull, beginData, beginDate;
                 intros Hrun; apply begin_frames in Hrun; [|still_all];
                 destruct Hrun as (? & ? & ?); auto
               | ]
           end.
    run. discriminate. }
  cbv zeta in Hrun.
  destruct (inDictionary p).
  - destruct (String.eqb name "key") eqn:Ek.
    + apply String.eqb_eq in Ek. subst name.
      destruct (negb (isExpectingKey p)); [revert Hrun; run; discriminate|].
      assert (Hk : still beginKey) by (unfold beginKey; still_all).
      destruct (Hk _ _ _ Hrun) as (? & ? & ? & ?). auto.
    + destruct (isExpectingKey p); [revert Hrun; run; discriminate|].
      destruct (Hvalue Hrun) as (? & ?). auto.
  - destruct (Hvalue Hrun) as (? & ?). auto.
Qed.

Lemma still_then_pop (m : M unit) (p : XMLParser) (b : bool) (q : XMLParser) :
  still m ->
  (m ;; pop ;; ret true) p = Returns b q ->
  exists p',
    _stack p' = _stack p /\ current (_state p') = current (_state p) /\
    _root p' = _root p /\ _depth p' = _depth p /\ pop p' = Returns tt q.
Proof.
  intros Hm Hrun. apply bind_Returns in Hrun as ([] & p' & Hset & Hrun).
  apply bind_Returns in Hrun as ([] & q' & Hpop & [= _ <-]).
  destruct (Hm _ _ _ Hset) as (? & ? & ? & ?). exists p'. auto.
Qed.

Lemma endObject_frames (name : string) (p q : XMLParser) :
  endObject name p = Returns true q ->
  ((name = "plist" \/ name = "key") /\
   _stack q = _stack p /\ current (_state q) = current (_state p) /\
   _depth q = _depth p) \/
  (String.eqb name "plist" = false /\ String.eqb name "key" = false /\
   exists p',
     _stack p' = _stack p /\ current (_state p') = current (_state p) /\
     _root p' = _root p /\ _depth p' = _depth p /\ pop p' = Returns tt q).
Proof.
  unfold endObject.
  destruct (String.eqb name "plist") eqn:Ep.
  { apply String.eqb_eq in Ep. intros [= <-]. left. auto. }
  destruct (String.eqb name "key") eqn:Ek.
  { apply String.eqb_eq in Ek. intros Hrun. left.
    assert (Hk : still endKey) by (unfold endKey; still_all).
    destruct (Hk _ _ _ Hrun) as (? & ? & ? & ?). auto. }
  intros Hrun. right. split; [reflexivity|]. split; [reflexivity|].
  revert Hrun.
  repeat match goal with
         | |- (if ?c then _ else _) p = _ -> _ => destruct c
         end;
    unfold endArray, endDictionary, endBoolean, endNull;
    try solve [intros Hrun; apply (still_then_pop (ret tt)) in Hrun;
               [exact Hrun|apply still_ret]];
    try solve [run; discriminate].
  - (* string *)
    unfold endString. intros Hrun.
    apply bind_Returns in Hrun as (p0 & p1 & [= <- <-] & Hrun).
    apply still_then_pop in Hrun; [exact Hrun|].
    unfold String_setValue. still_all.
  - (* integer *)
    unfold endInteger. intros Hrun.
    apply bind_Returns in Hrun as (p0 & p1 & [= <- <-] & Hrun).
    apply bind_Returns in Hrun as (v & p2 & Hconv & Hrun).
    destruct (stoi (_cdata p)); [|discriminate]. injection Hconv as <- <-.
    apply still_then_pop in Hrun; [exact Hrun|].
    unfold Integer_setValue. still_all.
  - (* real *)
    unfold endReal. intros Hrun.
    apply bind_Returns in Hrun as (p0 & p1 & [= <- <-] & Hrun).
    apply bind_Returns in Hrun as (d & p2 & Hconv & Hrun).
    destruct (stod (_cdata p)); [|discriminate]. injection Hconv as <- <-.
    apply still_then_pop in Hrun; [exact Hrun|].
    unfold Integer_setValue. still_all.
  - (* data *)
    unfold endData. intros Hrun.
    apply bind_Returns in Hrun as (p0 & p1 & [= <- <-] & Hrun).
    apply still_then_pop in Hrun; [exact Hrun|].
    unfold Data_setBase64Value. still_all.
  - (* date *)
    unfold endDate. intros Hrun.
    apply bind_Returns in Hrun as (p0 & p1 & [= <- <-] & Hrun).
    apply still_then_pop in Hrun; [exact Hrun|].
    unfold Date_setStringValue. still_all.
Qed.

(** The frames after the start of an element that does not stop the parse:
    the element is passed over (at depth 0, or at depth 1 after the root), it
    opens a key, or it pushes a node. *)
Lemma deliver_start_frames (name : string) (attrs : string_map)
    (p p1 : XMLParser) :
  deliver (StartElement name attrs) p = Returns tt p1 ->
  _stopped p = false ->
  _stopped p1 = false ->
  _depth p1 = S (_depth p) /\
  ((_depth p <= 1 /\ _stack p1 = _stack p /\
    current (_state p1) = current (_state p)) \/
   (1 <= _depth p /\ name = "key" /\ _stack p1 = _stack p /\
    current (_state p1) = current (_state p)) \/
   (1 <= _depth p /\
    String.eqb name "key" = false /\ String.eqb name "plist" = false /\
    (exists n, current (_state p1) = Some n) /\
    _stack p1 = if is_null (current (_state p)) then _stack p
                else _stack p ++ [_state p])).
Proof.
  unfold deliver. intros Hrun Hp Hp1.
  apply bind_Returns in Hrun as (d & p0 & [= <- <-] & Hrun).
  apply bind_Returns in Hrun as ([] & q' & Hrun & [= <-]).
  cbn [_depth _stack _state _stopped set_depth] in *.
  split; [reflexivity|].
  unfold onStartElement in Hrun.
  apply bind_Returns in Hrun as (dict & p2 & [= _ <-] & Hrun).
  destruct (_depth p =? 0) eqn:H0.
  { apply Nat.eqb_eq in H0. left.
    assert (Hst : still (when (negb (String.eqb name "plist"))
                           (error (expecting_plist name)))) by still_all.
    destruct (Hst _ _ _ Hrun) as (? & ? & ? & ?). split; [lia|auto]. }
  apply Nat.eqb_neq in H0.
  apply bind_Returns in Hrun as (p3 & p4 & [= <- <-] & Hrun).
  cbn [_root set_heap] in Hrun.
  destruct ((_depth p =? 1) && negb (is_null (_root p))) eqn:H1.
  { left. apply andb_true_iff in H1 as [H1 _]. apply Nat.eqb_eq in H1.
    assert (Hst : still (error (after_root name))) by still_all.
    destruct (Hst _ _ _ Hrun) as (? & ? & ? & ?). split; [lia|auto]. }
  apply bind_Returns in Hrun as (ok & p5 & Hbegin & Hstop).
  destruct ok.
  - injection Hstop as <-. apply beginObject_frames in Hbegin as (_ & Hcases).
    cbn [_stack _state heap set_heap] in Hcases.
    destruct Hcases as [(-> & ? & ?)|(? & ? & ? & ?)].
    + right. left. repeat split; [lia|auto..].
    + right. right. repeat split; [lia|eauto..].
  - revert Hstop. run. intros [= <-]. discriminate.
Qed.

(** The frames after the end of an element that does not stop the parse. *)
Lemma deliver_end_frames (name : string) (p q : XMLParser) :
  deliver (EndElement name) p = Returns tt q ->
  _stopped q = false ->
  _depth q = pred (_depth p) /\
  (((name = "plist" \/ name = "key") /\
    _stack q = _stack p /\ current (_state q) = current (_state p)) \/
   (String.eqb name "plist" = false /\ String.eqb name "key" = false /\
    ((_stack p = [] /\ current (_state p) = None /\
      _stack q = [] /\ current (_state q) = None) \/
     (current (_state p) = _root p /\ _stack q = _stack p /\
      current (_state q) = current (_state p)) \/
     (current (_state p) <> _root p /\
      exists top, last (_stack p) = Some top /\
                  _stack q = removelast (_stack p) /\
                  current (_state q) = current top)))).
Proof.
  unfold deliver. intros Hrun Hq.
  apply bind_Returns in Hrun as (d & p0 & [= <- <-] & Hrun).
  apply bind_Returns in Hrun as ([] & p1 & [= <-] & Hrun).
  unfold onEndElement in Hrun.
  apply bind_Returns in Hrun as (ok & p2 & Hend & Hstop).
  destruct ok; [|revert Hstop; run; intros [= <-]; discriminate].
  injection Hstop as <-.
  apply endObject_frames in Hend.
  cbn [_stack _state _root _depth set_depth] in Hend.
  destruct Hend as [(Hname & ? & ? & ?)|(? & ? & p' & Hs & Hc & Hr & Hd & Hpop)].
  - split; [assumption|]. left. auto.
  - apply pop_inv in Hpop as (Hroot & _ & Hdepth & Hcases).
    split; [congruence|]. right. split; [assumption|]. split; [assumption|].
    rewrite Hs, Hc, Hr in Hcases.
    destruct Hcases as [(? & ? & ? & Hst)|[(? & ? & Hst)|(? & top & ? & ? & ?)]].
    + left. rewrite Hst, Hc. auto.
    + right. left. rewrite Hst, Hc. auto.
    + right. right. eauto.
Qed.

(** Above a saved frame the current node is not the root. *)
Lemma current_above_frames (h0 : plist.Heap) (p : XMLParser) :
  consistent h0 p -> _stack p <> [] -> current (_state p) <> _root p.
Proof.
  intros Hp Hne Heq.
  pose proof Hp as ((saved & Hst & Hmatch) & _ & _ & ns & Hown & Hnd & _).
  cbn [app] in Hst. subst saved.
  destruct (_root p) as [r|] eqn:Hr.
  - unfold held in Hown. rewrite Hr in Hown.
    apply owns_all_heads in Hown; [|exact Hnd].
    destruct (_stack p) as [|f fs]; [now elim Hne|].
    cbn in Hown. apply NoDup_cons in Hown as [Hnotin _].
    apply Hnotin. rewrite Hmatch, <- Heq. apply elem_of_app. right.
    apply list_elem_of_singleton. reflexivity.
  - destruct (consistent_root_None _ _ Hp Hr) as [_ Hs]. contradiction.
Qed.

Lemma xml_induction (P : xml -> Prop) :
  (forall name attrs content, Forall P content -> P (Element name attrs content)) ->
  (forall text, P (Text text)) ->
  forall x, P x.
Proof.
  intros HE HT. fix IH 1. intros [name attrs content|text]; [|apply HT].
  apply HE. induction content as [|c content IHc]; constructor.
  - apply IH.
  - exact IHc.
Qed.

Lemma level_events_of (h0 : plist.Heap) (x : xml) :
  forall p q,
    consistent h0 p ->
    (_depth p <= 1 -> _stack p = []) ->
    deliver_all (events_of x) p = Returns tt q ->
    _stopped q = false ->
    level p q.
Proof.
  induction x as [name attrs content IH|text] using xml_induction;
    intros p q Hp Hflat Hrun Hq.
  - assert (Hlist : forall p q,
              consistent h0 p ->
              (_depth p <= 1 -> _stack p = []) ->
              deliver_all (flat_map events_of content) p = Returns tt q ->
              _stopped q = false ->
              level p q).
    { clear p q Hp Hflat Hrun Hq.
      induction IH as [|c content Hc _ IHl]; cbn [flat_map]; intros p q Hp Hflat Hrun Hq.
      - injection Hrun as <-. apply level_refl.
      - rewrite deliver_all_app in Hrun.
        destruct (deliver_all (events_of c) p) as [[] p1| |] eqn:E1;
          try discriminate.
        pose proof (running_before _ _ _ Hrun Hq) as Hp1.
        pose proof (Hc p p1 Hp Hflat E1 Hp1) as L1.
        apply (level_trans p p1 q L1).
        apply IHl; [eapply consistent_deliver_all; eauto| |exact Hrun|exact Hq].
        destruct L1 as (Hs1 & Hd1 & _). rewrite Hs1, Hd1. exact Hflat. }
    pose proof (running_before _ _ _ Hrun Hq) as Hs.
    cbn [events_of] in Hrun. rewrite deliver_all_cons, Hs in Hrun.
    destruct (deliver (StartElement name attrs) p) as [[] p1| |] eqn:Hstart;
      try discriminate.
    rewrite deliver_all_app in Hrun.
    destruct (deliver_all (flat_map events_of content) p1) as [[] p2| |] eqn:Hkids;
      try discriminate.
    pose proof (running_before _ _ _ Hrun Hq) as Hs2.
    pose proof (running_before _ _ _ Hkids Hs2) as Hs1.
    rewrite deliver_all_cons, Hs2 in Hrun.
    destruct (deliver (EndElement name) p2) as [[] p3| |] eqn:Hend;
      try discriminate.
    injection Hrun as ->.
    pose proof (consistent_deliver _ _ _ _ Hp Hstart) as Hp1.
    pose proof (consistent_deliver_all _ _ _ _ Hp1 Hkids) as Hp2.
    destruct (deliver_start_frames _ _ _ _ Hstart Hs Hs1) as (Hd1 & Hopen).
    destruct (deliver_end_frames _ _ _ Hend Hq) as (Hd3 & Hclose).
    assert (Hflat1 : _depth p1 <= 1 -> _stack p1 = []).
    { intros Hle.
      destruct Hopen as [(_ & -> & _)|[(? & _)|(? & _)]]; [apply Hflat|..]; lia. }
    destruct (Hlist p1 p2 Hp1 Hflat1 Hkids Hs2) as (Hst2 & Hd2 & Hc2).
    assert (Hkey : String.eqb "key" "key" = false -> False) by discriminate.
    assert (Hplist : String.eqb "plist" "plist" = false -> False) by discriminate.
    unfold level. split; [|split; [lia|]].
    + (* the stack *)
      destruct Hopen as [(Hle & Hst1 & Hc1)|[(_ & Hname & Hst1 & Hc1)|
                          (_ & Ek & Epl & (n & Hn) & Hst1)]].
      * pose proof (Hflat Hle) as Hnil.
        destruct Hclose as [(_ & Hst3 & _)|(_ & _ & [(_ & _ & Hst3 & _)|
                             [(_ & Hst3 & _)|(_ & top & Hlast & _)]])];
          try congruence.
        rewrite Hst2, Hst1, Hnil in Hlast. discriminate.
      * subst name.
        destruct Hclose as [(_ & Hst3 & _)|(_ & Ek & _)]; [congruence|].
        now elim Hkey.
      * destruct Hclose as [([Hname | Hname] & _)|(_ & _ & Hpop)];
          [subst name; now elim Hplist|subst name; now elim Hkey|].
        destruct (current (_state p)) as [c|] eqn:Hc; cbn [is_null negb] in Hst1.
        -- assert (Hne : _stack p2 <> []).
           { rewrite Hst2, Hst1. intros Hnil. now apply app_nil in Hnil as [_ ?]. }
           destruct Hpop as [(Hnil & _)|[(Hroot & _)|(_ & top & Hlast & Hst3 & _)]].
           ++ contradiction.
           ++ now elim (current_above_frames _ _ Hp2 Hne).
           ++ rewrite Hst3, Hst2, Hst1. apply removelast_last.
        -- assert (Hempty : _stack p = []).
           { destruct (_root p) as [r|] eqn:Hr.
             - destruct (consistent_current h0 p Hp) as (a & Ha & _); congruence.
             - now destruct (consistent_root_None _ _ Hp Hr). }
           destruct Hpop as [(_ & _ & Hst3 & _)|[(_ & Hst3 & _)|(_ & top & Hlast & _)]];
             try congruence.
           rewrite Hst2, Hst1, Hempty in Hlast. discriminate.
    + (* the current node *)
      destruct Hopen as [(Hle & Hst1 & Hc1)|[(_ & Hname & Hst1 & Hc1)|
                          (_ & Ek & Epl & (n & Hn) & Hst1)]].
      * pose proof (Hflat Hle) as Hnil.
        destruct Hclose as [(_ & _ & Hc3)|(_ & _ & [(_ & Hnone & _ & Hc3)|
                             [(_ & _ & Hc3)|(_ & top & Hlast & _)]])].
        -- destruct Hc2; [left|right]; congruence.
        -- destruct Hc2; [left|right]; congruence.
        -- destruct Hc2; [left|right]; congruence.
        -- rewrite Hst2, Hst1, Hnil in Hlast. discriminate.
      * subst name.
        destruct Hclose as [(_ & _ & Hc3)|(_ & Ek & _)]; [|now elim Hkey].
        destruct Hc2; [left|right]; congruence.
      * destruct Hclose as [([Hname | Hname] & _)|(_ & _ & Hpop)];
          [subst name; now elim Hplist|subst name; now elim Hkey|].
        destruct (current (_state p)) as [c|] eqn:Hc; cbn [is_null negb] in Hst1;
          [left|now right].
        assert (Hne : _stack p2 <> []).
        { rewrite Hst2, Hst1. intros Hnil. now apply app_nil in Hnil as [_ ?]. }
        destruct Hpop as [(Hnil & _)|[(Hroot & _)|(_ & top & Hlast & _ & Hc3)]].
        -- contradiction.
        -- now elim (current_above_frames _ _ Hp2 Hne).
        -- rewrite Hst2, Hst1, last_snoc in Hlast. injection Hlast as <-.
           rewrite Hc3. exact Hc.
  - cbn [events_of] in Hrun. rewrite deliver_all_cons in Hrun.
    destruct (_stopped p); [injection Hrun as <-; apply level_refl|].
    destruct (deliver (CharacterData text) p) as [[] p1| |] eqn:Htext;
      try discriminate.
    injection Hrun as <-. unfold deliver in Htext.
    apply bind_Returns in Htext as (d & p0 & [= <- <-] & Htext).
    destruct (still_onCharacterData _ _ _ _ _ Htext) as (? & ? & ? & ?).
    unfold level. auto.
Qed.

(** X9 — elements open and close at the same level.  For every document,
    in a parse that runs to the end of the document without a stop (and
    without an exception), the end event of each element restores the frames
    its start event found: after the last event no frame is left on the
    stack, the depth is 0 again, and the current node is the root (null when
    no node was made). *)
Theorem complete_document_leaves_no_frame (p : XMLParser) (fp : xml)
    (q : XMLParser) :
  _stack p = [] ->
  deliver_all (events_of fp) (begin p) = Returns tt q ->
  _stopped q = false ->
  _stack q = [] /\ _depth q = 0 /\ current (_state q) = _root q.
Proof.
  intros Hs Hrun Hq.
  pose proof (consistent_begin_parse p Hs) as Hp.
  pose proof (consistent_deliver_all _ _ _ _ Hp Hrun) as Hcq.
  assert (Hflat : _depth (begin p) <= 1 -> _stack (begin p) = [])
    by (intros _; exact Hs).
  destruct (level_events_of _ _ _ _ Hp Hflat Hrun Hq) as (Hst & Hd & _).
  cbn [begin _stack _depth set_state set_root set_depth set_stopped] in Hst, Hd.
  rewrite Hs in Hst. split; [exact Hst|]. split; [exact Hd|].
  destruct Hcq as ((saved & Hsaved & Hmatch) & _).
  cbn [app] in Hsaved. rewrite Hst in Hsaved. subst saved.
  destruct (_root q); [exact Hmatch|apply Hmatch].
Qed.

(** X10 — what a successful parse returns.  When [parse], on a parser
    without root and with an empty stack, returns a node, the parser holds
    that node as its root and nothing else: no current node, no frame.  The
    node is the root of a tree in the store: it owns, without sharing, every
    node that a factory made during the parse (none is lost and none is
    reachable twice), and the cells that were allocated before the parse are
    untouched. *)
Theorem parsed_root_owns_every_node (p : XMLParser) (fp : xml) (r : nat)
    (q : XMLParser) :
  _root p = nullptr ->
  _stack p = [] ->
  parse_fp fp p = Returns (Some r) q ->
  _root q = Some r /\ current (_state q) = nullptr /\ _stack q = [] /\
  _stopped q = false /\
  (forall x, x < length (heap p) -> heap q !! x = heap p !! x) /\
  exists ns,
    owns (heap q) (Some r) ns /\ NoDup ns /\
    forall a o, length (heap p) <= a ->
                heap q !! a = Some (plist.Live plist.factory o) -> a ∈ ns.
Proof.
  intros Hroot Hs. rewrite parse_fp_unfold by exact Hroot.
  destruct (deliver_all (events_of fp) (begin p)) as [[] q0| |] eqn:Hrun;
    try discriminate.
  destruct (_stopped q0) eqn:Hq0.
  { cbn [negb]. destruct (onEndParse false q0); discriminate. }
  cbn [negb]. unfold onEndParse. run. intros [= Hr <-].
  cbn [_root _state _stack _stopped heap set_cdata set_state set_current
       set_key_flags current] in *.
  pose proof (consistent_begin_parse p Hs) as Hp.
  pose proof (consistent_deliver_all _ _ _ _ Hp Hrun) as Hcq.
  assert (Hflat : _depth (begin p) <= 1 -> _stack (begin p) = [])
    by (intros _; exact Hs).
  destruct (level_events_of _ _ _ _ Hp Hflat Hrun Hq0) as (Hst & _).
  cbn [begin _stack set_state set_root set_depth set_stopped] in Hst.
  rewrite Hs in Hst.
  destruct Hcq as ((saved & Hsaved & Hmatch) & _ & Hold & ns & Hown & Hnd & _ & Hcover).
  cbn [app] in Hsaved. rewrite Hst in Hsaved. subst saved. rewrite Hr in Hmatch.
  unfold held in Hown. rewrite Hr, Hst, Hmatch in Hown. cbn [map app] in Hown.
  apply owns_all_singleton in Hown.
  cbn [begin heap set_state set_root set_depth set_stopped] in Hold, Hcover.
  repeat split; try assumption. exists ns. auto.
Qed.

(** *** More documents *)

(** X11 — a second [string] element overwrites a string root.  For all
    texts [a] and [b], in [<plist><string>a</string><string>b</string></plist>]
    the second element is reported as an unexpected element after the root,
    but its text is buffered and its end handler stores it into the current
    node, which is the root: [parse] returns the string node of the first
    element, now holding [b]. *)
Theorem second_string_overwrites_root (a b : string) :
  exists q,
    parse_fp (two_strings_document a b) XMLParser_new = Returns (Some 2) q /\
    _errors q = [after_root "string"] /\
    _stopped q = false /\
    heap q !! 2 = Some (plist.Live plist.factory (plist.String b)).
Proof.
  eexists. split; [vm_compute; reflexivity|]. cbn. auto.
Qed.

(** X12 — a parser that has returned a tree parses no more.  The root that
    a successful [parse] returns stays in the parser (nothing resets it), so
    both overloads of [parse] refuse every later document: they return null
    and leave the parser as it is. *)
Theorem parser_is_single_use (p : XMLParser) (fp : xml) (r : nat)
    (q : XMLParser) (fp' : xml) (fs : string -> option xml) (path : string) :
  parse_fp fp p = Returns (Some r) q ->
  _root q = Some r /\
  parse_fp fp' q = Returns nullptr q /\
  parse_path fs path q = Returns nullptr q.
Proof.
  intros Hrun.
  assert (Hroot : _root q = Some r).
  { destruct (_root p) as [r0|] eqn:Hr0.
    - unfold parse_fp in Hrun. revert Hrun. run. rewrite Hr0. discriminate.
    - rewrite parse_fp_unfold in Hrun by exact Hr0.
      destruct (deliver_all (events_of fp) (begin p)) as [[] q0| |];
        try discriminate.
      destruct (onEndParse (negb (_stopped q0)) q0) as [[] q1| |];
        try discriminate.
      destruct (_stopped q0); [discriminate|]. injection Hrun as Hr <-.
      exact Hr. }
  split; [exact Hroot|].
  unfold parse_fp, parse_path. run. rewrite Hroot. auto.
Qed.

(** X13 — a document that is one bare value element.  For [<array/>],
    [<dict/>], [<true/>], [<false/>] and [<null/>] as the whole document, on
    a parser without root and with an empty stack, the start event reports
    that [plist] was expected and makes no node, and the end event pops with
    no node and no frame, which reports "stack underflow"; neither requests a
    stop, and [parse] returns null.  The store has one cell more, the
    dictionary of [onStartElement]. *)
Theorem bare_element_underflows (p : XMLParser) (name : string) :
  In name textless_elements ->
  _root p = nullptr ->
  _stack p = [] ->
  exists q,
    parse_fp (element name []) p = Returns nullptr q /\
    _errors q = _errors p ++ [expecting_plist name; "stack underflow"] /\
    _stopped q = false /\
    _root q = nullptr /\
    heap q = heap p ++ [plist.Live plist.operator_new (plist.Dictionary [])].
Proof.
  unfold textless_elements. cbn [In].
  destruct p as [e s d r [c k] st cd h]. cbn [_root _stack].
  intros Hname -> ->.
  exists (mkXMLParser ((e ++ [expecting_plist name]) ++ ["stack underflow"])
            false 0 nullptr (mkState nullptr (mkKey (value k) false false))
            [] "" (h ++ [plist.Live plist.operator_new (plist.Dictionary [])])).
  split.
  - destruct Hname as [<-|[<-|[<-|[<-|[<-|[]]]]]]; vm_compute; reflexivity.
  - cbn [_errors _stopped _root heap]. rewrite <- app_assoc. auto.
Qed.

Lemma deliver_all_blank (chunks : list string) (rest : list event) (p : XMLParser) :
  isExpectingCDATA p = false ->
  _stopped p = false ->
  Forall (fun c => unexpected c = 0) chunks ->
  deliver_all (map CharacterData chunks ++ rest) p = deliver_all rest p.
Proof.
  intros He Hs Hblank. induction Hblank as [|c chunks Hc _ IH]; [reflexivity|].
  cbn [map app]. rewrite deliver_all_cons, Hs. unfold deliver. run.
  unfold onCharacterData. run. rewrite He. cbn [negb].
  rewrite reject_cdata_spec, Hc. exact IH.
Qed.

(** X14 — an empty [plist].  For a [plist] element that holds nothing but
    white space, in whatever pieces it is delivered, [parse] returns null
    although nothing was reported and no stop was requested: a null result
    does not tell a failure from a document without a value. *)
Theorem empty_plist_is_null_without_message (chunks : list string) :
  Forall (fun c => unexpected c = 0) chunks ->
  exists q,
    parse_fp (text_only_document chunks) XMLParser_new = Returns nullptr q /\
    _errors q = [] /\
    _stopped q = false /\
    _root q = nullptr.
Proof.
  intros Hblank. rewrite parse_fp_unfold by reflexivity.
  unfold text_only_document, element. cbn [events_of].
  rewrite events_of_text.
  change (StartElement "plist" [] :: map CharacterData chunks
            ++ [EndElement "plist"])
    with ([StartElement "plist" []]
          ++ (map CharacterData chunks ++ [EndElement "plist"])).
  rewrite deliver_all_app.
  set (opened := deliver_all [StartElement "plist" []] (begin XMLParser_new)).
  vm_compute in opened. subst opened. cbv beta iota.
  rewrite deliver_all_blank by (reflexivity || exact Hblank).
  eexists. split; [vm_compute; reflexivity|]. cbn. auto.
Qed.

(** *** Values and the documents that write them *)

Lemma tree_induction (P : tree -> Prop) :
  (forall text, P (TString text)) ->
  (forall text, P (TInteger text)) ->
  (forall b, P (TBoolean b)) ->
  P TNull ->
  (forall items, Forall P items -> P (TArray items)) ->
  (forall entries, Forall (fun e => P (snd e)) entries -> P (TDictionary entries)) ->
  forall t, P t.
Proof.
  intros HS HI HB HN HA HD. fix IH 1. intros [text|text|b| |items|entries].
  - apply HS.
  - apply HI.
  - apply HB.
  - apply HN.
  - apply HA. induction items as [|t items IHi]; constructor; [apply IH|exact IHi].
  - apply HD. induction entries as [|[k t] entries IHe]; constructor;
      [apply IH|exact IHe].
Qed.

Lemma holds_mono (lo lo' : nat) (h h' : plist.Heap) :
  lo' <= lo ->
  (forall a o, lo <= a -> plist.read h a = Some o -> plist.read h' a = Some o) ->
  forall t p, holds lo h p t -> holds lo' h' p t.
Proof.
  intros Hle Hread t.
  induction t as [text|text|b| |items IH|entries IH] using tree_induction;
    intros p Hp; inversion Hp as [a ? Ha Hr|a ? v Ha Hv Hr|a ? Ha Hr|a Ha Hr|
                                  a ps ? Ha Hr Hall|a es ? Ha Hr Hall]; subst.
  - apply holds_string; [lia|eauto].
  - apply (holds_integer _ _ _ _ v); [lia|exact Hv|eauto].
  - apply holds_boolean; [lia|eauto].
  - apply holds_null; [lia|eauto].
  - apply (holds_array _ _ a ps); [lia|eauto|].
    clear Hr Hp. induction Hall as [|q t ps items Hq _ IHall]; constructor.
    + apply Forall_inv in IH. now apply IH.
    + apply IHall. now apply Forall_inv_tail in IH.
  - apply (holds_dictionary _ _ a es); [lia|eauto|].
    clear Hr Hp. induction Hall as [|e kt es entries [Hk Hq] _ IHall]; constructor.
    + apply Forall_inv in IH. split; [exact Hk|now apply IH].
    + apply IHall. now apply Forall_inv_tail in IH.
Qed.

Lemma read_fresh (h : plist.Heap) (c : plist.cell) (how : plist.allocation)
    (o : plist.Object) :
  plist.read (h ++ [c; plist.Live how o]) (S (length h)) = Some o.
Proof.
  unfold plist.read. rewrite lookup_app_r by lia.
  replace (S (length h) - length h) with 1 by lia. reflexivity.
Qed.

Lemma read_below (h h' : plist.Heap) (a : nat) :
  a < length h -> plist.read (h ++ h') a = plist.read h a.
Proof. intros Hlt. unfold plist.read. now rewrite lookup_app_l. Qed.

Lemma read_same (h h' : plist.Heap) (a : nat) :
  h' !! a = h !! a -> plist.read h' a = plist.read h a.
Proof. intros Heq. unfold plist.read. now rewrite Heq. Qed.

Lemma read_write_same (h : plist.Heap) (a : nat) (o o' : plist.Object) :
  plist.read h a = Some o -> plist.read (plist.write a o' h) a = Some o'.
Proof.
  intros Hr. apply read_lookup in Hr as [how Hl].
  rewrite (write_insert _ _ _ _ _ Hl). unfold plist.read.
  rewrite list_lookup_insert_eq; [reflexivity|].
  now apply lookup_lt_Some in Hl.
Qed.

Lemma lookup_write_other (h : plist.Heap) (a b : nat) (o : plist.Object) :
  a <> b -> plist.write a o h !! b = h !! b.
Proof.
  intros Hne. unfold plist.write. destruct (h !! a) as [[how o'|]|]; try reflexivity.
  now apply list_lookup_insert_ne.
Qed.

Lemma length_write (h : plist.Heap) (a : nat) (o : plist.Object) :
  length (plist.write a o h) = length h.
Proof.
  unfold plist.write. destruct (h !! a) as [[how o'|]|]; try reflexivity.
  apply length_insert.
Qed.

Lemma made_cases (name : string) (o : plist.Object) :
  made name = Some o ->
  (name = "array" /\ o = plist.Array []) \/
  (name = "dict" /\ o = plist.Dictionary []) \/
  (name = "string" /\ o = plist.String "") \/
  (name = "integer" /\ o = plist.Integer 0) \/
  (name = "true" /\ o = plist.Boolean true) \/
  (name = "false" /\ o = plist.Boolean false) \/
  (name = "null" /\ o = plist.Null).
Proof.
  unfold made.
  repeat match goal with
         | |- (if String.eqb name ?s then _ else _) = _ -> _ =>
             let E := fresh "E" in
             destruct (String.eqb name s) eqn:E;
             [apply String.eqb_eq in E; intros [= <-]; auto 10|]
         end.
  discriminate.
Qed.

Lemma beginObject_made (name : string) (o : plist.Object) (p : XMLParser) :
  made name = Some o ->
  inContainer p = true ->
  (inDictionary p = true -> valid (key (_state p)) = true) ->
  beginObject name p = Returns true (pushed o p).
Proof.
  intros Hmade Hin Hvalid. unfold beginObject. run. cbv zeta.
  rewrite Hin. cbn [negb]. unfold isExpectingKey.
  destruct (inDictionary p) eqn:Hdict;
    [rewrite (Hvalid eq_refl); cbn [negb andb]|];
    destruct (made_cases _ _ Hmade) as
        [[-> ->]|[[-> ->]|[[-> ->]|[[-> ->]|[[-> ->]|[[-> ->]|[-> ->]]]]]]];
    cbn [String.eqb Ascii.eqb Bool.eqb];
    unfold beginArray, beginDictionary, beginString, beginInteger, beginBoolean,
      beginNull, New;
    run; cbn [plist.alloc]; rewrite push_unfold;
    destruct p as [e s d r [c k] st cd h]; destruct c, r; reflexivity.
Qed.

Lemma open_value (p : XMLParser) (name : string) (attrs : string_map)
    (o : plist.Object) :
  takes_value p ->
  made name = Some o ->
  exists p1, deliver (StartElement name attrs) p = Returns tt p1 /\ opened p o p1.
Proof.
  intros (Hs & Hslot) Hmade.
  set (p' := set_heap (heap p ++ [plist.Live plist.operator_new (plist.Dictionary [])]) p).
  assert (Hdepth : (_depth p =? 0) = false /\
                   (_depth p =? 1) && negb (is_null (_root p)) = false).
  { destruct (current (_state p)).
    - destruct Hslot as (Hd & _). split; [apply Nat.eqb_neq; lia|].
      replace (_depth p =? 1) with false; [reflexivity|].
      symmetry. apply Nat.eqb_neq. lia.
    - destruct Hslot as (-> & -> & _). split; reflexivity. }
  assert (Hready : inContainer p' = true /\
                   (inDictionary p' = true -> valid (key (_state p')) = true)).
  { unfold inContainer, inDictionary, inArray, depth, p'.
    cbn [heap _state _depth set_heap].
    destruct (current (_state p)) as [c|].
    - destruct Hslot as (_ & _ & Hread). unfold plist.CastTo.
      destruct (plist.read (heap p) c) as [o0|] eqn:Hr; [|contradiction].
      rewrite (read_app _ _ _ _ Hr).
      destruct o0; try contradiction; cbn.
      + split; [apply orb_true_r|discriminate].
      + split; [now rewrite orb_true_r|intros _; apply Hread].
    - destruct Hslot as (-> & _). cbn. split; [reflexivity|discriminate]. }
  destruct Hdepth as [H0 H1]. destruct Hready as [Hin Hvalid].
  exists (set_depth (S (_depth p)) (pushed o p')). split.
  - unfold deliver, onStartElement, new_Dictionary. run.
    cbn [plist.alloc]. cbv beta iota. fold p'. rewrite H0.
    change (_root p') with (_root p). rewrite H1.
    rewrite (beginObject_made _ _ _ Hmade Hin Hvalid). reflexivity.
  - unfold opened, pushed, p'.
    cbn [heap _errors _stopped _depth _stack _state _root _cdata set_heap
         set_depth current key value].
    rewrite length_app, <- app_assoc. cbn [length app].
    replace (length (heap p) + 1) with (S (length (heap p))) by lia.
    repeat split; try reflexivity; try assumption.
    destruct o; intros [Ht|Ht]; try discriminate; reflexivity.
Qed.

(** The pop that completes the node [n] opened where [p] takes a value. *)
Lemma pop_value (p p2 : XMLParser) (n : nat) :
  takes_value p ->
  n = S (length (heap p)) ->
  _errors p2 = _errors p ->
  _stopped p2 = false ->
  _depth p2 = _depth p ->
  _stack p2 = (if is_null (current (_state p)) then _stack p
               else _stack p ++ [_state p]) ->
  current (_state p2) = Some n ->
  _root p2 = (if is_null (_root p) then Some n else _root p) ->
  (forall a, a < length (heap p) -> heap p2 !! a = heap p !! a) ->
  n < length (heap p2) ->
  exists q,
    pop p2 = Returns tt q /\ took_value p n q /\
    forall a, length (heap p) <= a -> heap q !! a = heap p2 !! a.
Proof.
  intros (Hs & Hslot) Hn He Hs2 Hd Hst Hc Hr Hold Hlen.
  unfold took_value.
  destruct (current (_state p)) as [c|] eqn:Hcur; cbn [is_null] in Hst.
  - destruct Hslot as (_ & (r & Hroot & Hrlt) & Hread).
    rewrite Hroot in Hr. cbn [is_null] in Hr.
    assert (Hne : current (_state p2) <> _root p2).
    { rewrite Hc, Hr. intros [= ->]. lia. }
    assert (Hlast : last (_stack p2) = Some (_state p))
      by (rewrite Hst; apply last_snoc).
    destruct (plist.read (heap p) c) as [o|] eqn:Hpc; [|contradiction].
    pose proof (read_Some_lt _ _ _ Hpc) as Hclt.
    assert (Hp2c : plist.read (heap p2) c = Some o).
    { rewrite <- Hpc. apply read_same. now apply Hold. }
    destruct o as [| | | | | | |ps|es]; try contradiction.
    + rewrite (pop_array_frame p2 (_state p) c ps Hne Hlast Hcur Hp2c).
      eexists. split; [reflexivity|].
      cbn [_errors _stopped _depth _stack _cdata heap _root _state set_cdata
           set_heap restore set_stack set_state].
      rewrite Hst, removelast_last, length_write, Hc.
      split; [|intros a Ha; apply lookup_write_other; lia].
      repeat split; try assumption; try reflexivity.
      * now rewrite Hr.
      * intros a Ha Hac. rewrite lookup_write_other by congruence. now apply Hold.
      * eapply read_write_same. exact Hp2c.
    + destruct Hread as [Hvalid Hfind].
      pose proof (pop_dictionary_frame p2 (_state p) c es Hne Hlast Hcur Hp2c)
        as Hpop.
      cbv zeta in Hpop. rewrite Hvalid, Hfind in Hpop. rewrite Hpop.
      eexists. split; [reflexivity|].
      cbn [_errors _stopped _depth _stack _cdata heap _root _state set_cdata
           set_heap restore set_stack set_state].
      rewrite Hst, removelast_last, length_write, Hc.
      split; [|intros a Ha; apply lookup_write_other; lia].
      repeat split; try assumption; try reflexivity.
      * now rewrite Hr.
      * intros a Ha Hac. rewrite lookup_write_other by congruence. now apply Hold.
      * eapply read_write_same. exact Hp2c.
  - destruct Hslot as (_ & Hroot & Hempty).
    rewrite Hroot in Hr. cbn [is_null] in Hr.
    rewrite pop_unfold, Hc, Hr, ptr_eqb_refl, andb_false_r.
    eexists. split; [reflexivity|].
    cbn [_errors _stopped _depth _stack _cdata heap _root _state set_cdata].
    split; [|reflexivity]. repeat split; assumption.
Qed.

(** The end of a value element that takes no text. *)
Lemma close_value (p p2 : XMLParser) (n : nat) (name : string) :
  takes_value p ->
  n = S (length (heap p)) ->
  In name textless_elements ->
  _errors p2 = _errors p ->
  _stopped p2 = false ->
  _depth p2 = S (_depth p) ->
  _stack p2 = (if is_null (current (_state p)) then _stack p
               else _stack p ++ [_state p]) ->
  current (_state p2) = Some n ->
  _root p2 = (if is_null (_root p) then Some n else _root p) ->
  (forall a, a < length (heap p) -> heap p2 !! a = heap p !! a) ->
  n < length (heap p2) ->
  exists q,
    deliver (EndElement name) p2 = Returns tt q /\ took_value p n q /\
    forall a, length (heap p) <= a -> heap q !! a = heap p2 !! a.
Proof.
  intros Hp Hn Hname He Hs2 Hd Hst Hc Hr Hold Hlen.
  destruct (pop_value p (set_depth (_depth p) p2) n) as (q & Hpop & Htook & Hnew);
    try assumption; try reflexivity.
  exists q. split; [|split; assumption].
  unfold deliver. run. rewrite Hd. cbn [Nat.pred]. unfold onEndElement. run.
  unfold textless_elements in Hname. cbn [In] in Hname.
  destruct Hname as [<-|[<-|[<-|[<-|[<-|[]]]]]];
    unfold endObject; cbn [String.eqb Ascii.eqb Bool.eqb orb];
    unfold endArray, endDictionary, endBoolean, endNull; run;
    now rewrite Hpop.
Qed.

(** The end of a [string] element. *)
Lemma close_string (p p2 : XMLParser) (n : nat) (old : string) :
  takes_value p ->
  n = S (length (heap p)) ->
  _errors p2 = _errors p ->
  _stopped p2 = false ->
  _depth p2 = S (_depth p) ->
  _stack p2 = (if is_null (current (_state p)) then _stack p
               else _stack p ++ [_state p]) ->
  current (_state p2) = Some n ->
  _root p2 = (if is_null (_root p) then Some n else _root p) ->
  (forall a, a < length (heap p) -> heap p2 !! a = heap p !! a) ->
  plist.read (heap p2) n = Some (plist.String old) ->
  exists q,
    deliver (EndElement "string") p2 = Returns tt q /\ took_value p n q /\
    plist.read (heap q) n = Some (plist.String (_cdata p2)).
Proof.
  intros Hp Hn He Hs2 Hd Hst Hc Hr Hold Hnode.
  pose proof (read_Some_lt _ _ _ Hnode) as Hlen.
  set (p3 := set_heap (plist.write n (plist.String (_cdata p2)) (heap p2))
               (set_depth (_depth p) p2)).
  destruct (pop_value p p3 n) as (q & Hpop & Htook & Hnew);
    try assumption; try reflexivity.
  { intros a Ha. unfold p3. cbn [heap set_heap].
    rewrite lookup_write_other by lia. now apply Hold. }
  { unfold p3. cbn [heap set_heap]. now rewrite length_write. }
  exists q. split; [|split; [exact Htook|]].
  - unfold deliver. run. rewrite Hd. cbn [Nat.pred]. unfold onEndElement. run.
    change (endObject "string") with endString. unfold endString. run.
    cbn [heap _state _cdata set_depth]. rewrite Hc. unfold plist.CastTo.
    rewrite Hnode. cbn [plist.type plist.ObjectType_eqb].
    unfold String_setValue, member. run. cbn [heap set_depth]. rewrite Hnode.
    change (heap (set_depth (_depth p) p2)) with (heap p2).
    fold p3. now rewrite Hpop.
  - rewrite (read_same (heap p3) (heap q)) by (apply Hnew; lia).
    unfold p3. cbn [heap set_heap]. eapply read_write_same. exact Hnode.
Qed.

Lemma element_run (name : string) (attrs : string_map) (content : list event)
    (p p1 p2 q : XMLParser) :
  _stopped p = false ->
  deliver (StartElement name attrs) p = Returns tt p1 ->
  deliver_all content p1 = Returns tt p2 ->
  _stopped p2 = false ->
  deliver (EndElement name) p2 = Returns tt q ->
  deliver_all (StartElement name attrs :: content ++ [EndElement name]) p
  = Returns tt q.
Proof.
  intros Hs H1 H2 Hs2 H3.
  now rewrite deliver_all_cons, Hs, H1, deliver_all_app, H2, deliver_all_cons,
    Hs2, H3.
Qed.

Lemma opened_inside (p : XMLParser) (o : plist.Object) (p1 : XMLParser) :
  opened p o p1 ->
  inside p (S (length (heap p))) p1 /\
  plist.read (heap p1) (S (length (heap p))) = Some o /\
  valid (key (_state p1)) = false /\
  (plist.type o = plist.kString \/ plist.type o = plist.kInteger ->
   _cdata p1 = "").
Proof.
  intros (Hh & He & Hs & Hd & Hst & Hstate & Hr & Hcd). unfold inside.
  rewrite Hh, Hstate. cbn [current key valid].
  repeat split; try assumption.
  - intros a Ha. now rewrite lookup_app_l.
  - rewrite length_app. cbn. lia.
  - apply read_fresh.
Qed.

Lemma takes_value_depth (p : XMLParser) : takes_value p -> 1 <= _depth p.
Proof.
  intros (_ & Hslot). destruct (current (_state p)).
  - destruct Hslot as (? & _). lia.
  - destruct Hslot as (-> & _). lia.
Qed.

Lemma inside_root (p : XMLParser) (n : nat) (s : XMLParser) :
  takes_value p -> n = S (length (heap p)) -> inside p n s ->
  exists r, _root s = Some r /\ r < length (heap s).
Proof.
  intros (_ & Hslot) Hn (_ & _ & _ & _ & _ & Hr & _ & Hlen).
  destruct (current (_state p)).
  - destruct Hslot as (_ & (r & Hroot & Hlt) & _). rewrite Hroot in Hr.
    exists r. split; [exact Hr|lia].
  - destruct Hslot as (_ & Hroot & _). rewrite Hroot in Hr. exists n. auto.
Qed.

Lemma inside_takes_array (p : XMLParser) (n : nat) (s : XMLParser)
    (ps : list ptr) :
  takes_value p -> n = S (length (heap p)) -> inside p n s ->
  plist.read (heap s) n = Some (plist.Array ps) ->
  takes_value s.
Proof.
  intros Hp Hn Hin Hread. pose proof (inside_root _ _ _ Hp Hn Hin) as Hroot.
  pose proof (takes_value_depth _ Hp) as Hd.
  destruct Hin as (_ & Hs & Hds & _ & Hc & _). unfold takes_value.
  rewrite Hc, Hread. repeat split; [assumption|lia|assumption].
Qed.

Lemma inside_takes_dictionary (p : XMLParser) (n : nat) (s : XMLParser)
    (es : list (string * ptr)) :
  takes_value p -> n = S (length (heap p)) -> inside p n s ->
  plist.read (heap s) n = Some (plist.Dictionary es) ->
  valid (key (_state s)) = true ->
  plist.find_entry (value (key (_state s))) es = None ->
  takes_value s.
Proof.
  intros Hp Hn Hin Hread Hvalid Hfind.
  pose proof (inside_root _ _ _ Hp Hn Hin) as Hroot.
  pose proof (takes_value_depth _ Hp) as Hd.
  destruct Hin as (_ & Hs & Hds & _ & Hc & _). unfold takes_value.
  rewrite Hc, Hread. repeat split; [assumption|lia|assumption..].
Qed.

(** After a child was taken, the state is inside the element again. *)
Lemma took_inside (p : XMLParser) (n : nat) (s s' : XMLParser) :
  n = S (length (heap p)) ->
  inside p n s ->
  took_value s (S (length (heap s))) s' ->
  inside p n s' /\
  (forall a, a < length (heap s) -> a <> n -> heap s' !! a = heap s !! a).
Proof.
  intros Hn (He & Hs & Hd & Hst & Hc & Hr & Hold & Hlen)
    (He' & Hs' & Hd' & Hst' & _ & Hlen' & Hmatch).
  rewrite Hc in Hmatch. destruct Hmatch as (Hr' & Hold' & Hnode).
  split; [|exact Hold']. unfold inside.
  repeat split; try congruence.
  - destruct (plist.read (heap s) n) as [[]|]; try contradiction;
      destruct Hnode as [-> _]; [exact Hc|].
    cbn [current set_key_flags]. exact Hc.
  - intros a Ha. rewrite Hold' by lia. now apply Hold.
  - lia.
Qed.

Ltac fields :=
  cbn [set_errors set_stopped set_depth set_root set_state set_stack set_cdata
       set_heap set_current set_key_flags set_key_value
       _errors _stopped _depth _root _state _stack _cdata heap
       current key value valid active negb andb orb is_null Nat.eqb Nat.pred].

(** The end of an [integer] element whose text [std::stoi] converts. *)
Lemma close_integer (p p2 : XMLParser) (n : nat) (old v : Z) :
  takes_value p ->
  n = S (length (heap p)) ->
  _errors p2 = _errors p ->
  _stopped p2 = false ->
  _depth p2 = S (_depth p) ->
  _stack p2 = (if is_null (current (_state p)) then _stack p
               else _stack p ++ [_state p]) ->
  current (_state p2) = Some n ->
  _root p2 = (if is_null (_root p) then Some n else _root p) ->
  (forall a, a < length (heap p) -> heap p2 !! a = heap p !! a) ->
  plist.read (heap p2) n = Some (plist.Integer old) ->
  stoi (_cdata p2) = Value v ->
  exists q,
    deliver (EndElement "integer") p2 = Returns tt q /\ took_value p n q /\
    plist.read (heap q) n = Some (plist.Integer v).
Proof.
  intros Hp Hn He Hs2 Hd Hst Hc Hr Hold Hnode Hv.
  pose proof (read_Some_lt _ _ _ Hnode) as Hlen.
  set (p3 := set_heap (plist.write n (plist.Integer v) (heap p2))
               (set_depth (_depth p) p2)).
  destruct (pop_value p p3 n) as (q & Hpop & Htook & Hnew);
    try assumption; try reflexivity.
  { intros a Ha. unfold p3. cbn [heap set_heap].
    rewrite lookup_write_other by lia. now apply Hold. }
  { unfold p3. cbn [heap set_heap]. now rewrite length_write. }
  exists q. split; [|split; [exact Htook|]].
  - unfold deliver. run. rewrite Hd. cbn [Nat.pred]. unfold onEndElement. run.
    change (endObject "integer") with endInteger. unfold endInteger. run.
    cbn [heap _state _cdata set_depth]. rewrite Hv. unfold convert. run.
    rewrite Hc. unfold plist.CastTo.
    rewrite Hnode. cbn [plist.type plist.ObjectType_eqb].
    unfold Integer_setValue, member. run. cbn [heap set_depth]. rewrite Hnode.
    change (heap (set_depth (_depth p) p2)) with (heap p2).
    fold p3. now rewrite Hpop.
  - rewrite (read_same (heap p3) (heap q)) by (apply Hnew; lia).
    unfold p3. cbn [heap set_heap]. eapply read_write_same. exact Hnode.
Qed.

(** A [key] element inside a dictionary that expects a key. *)
Lemma key_element (p : XMLParser) (n : nat) (s : XMLParser) (k : string)
    (es : list (string * ptr)) :
  takes_value p -> n = S (length (heap p)) -> inside p n s ->
  plist.read (heap s) n = Some (plist.Dictionary es) ->
  valid (key (_state s)) = false ->
  exists s',
    deliver_all (events_of (Element "key" [] [Text k])) s = Returns tt s' /\
    inside p n s' /\
    plist.read (heap s') n = Some (plist.Dictionary es) /\
    _state s' = mkState (Some n) (mkKey k true false) /\
    (forall a, a < length (heap s) -> heap s' !! a = heap s !! a).
Proof.
  intros Hp Hn Hin Hread Hvalid.
  pose proof (takes_value_depth _ Hp) as Hdp.
  destruct Hin as (He & Hs & Hd & Hst & Hc & Hr & Hold & Hlen).
  pose (stray := plist.Live plist.operator_new (plist.Dictionary [])).
  exists (set_cdata ""
            (set_state (mkState (Some n) (mkKey k true false))
               (set_heap (heap s ++ [stray]) s))).
  assert (Hread' : plist.read (heap s ++ [stray]) n = Some (plist.Dictionary es))
    by now apply read_app.
  split; [|split; [|split; [|split]]].
  - cbn [events_of flat_map app].
    destruct s as [e st d r [c [kv kva kact]] stack cd h].
    cbn [_stopped _state _depth _root _stack heap current key valid value
         _errors] in *.
    subst st c kva. destruct (_depth p) as [|dp]; [lia|]. subst d.
    rewrite deliver_all_cons. cbn [_stopped].
    unfold deliver at 1, onStartElement, new_Dictionary. run.
    cbn [plist.alloc _depth _root set_heap heap Nat.eqb andb]. cbv beta iota.
    unfold beginObject. run. cbv zeta.
    match goal with
    | |- context [inDictionary ?x] =>
        assert (Hdict : inDictionary x = true)
          by (apply (read_inDictionary x n es); [reflexivity|exact Hread'])
    end.
    rewrite Hdict. cbn [String.eqb Ascii.eqb Bool.eqb].
    unfold isExpectingKey. rewrite Hdict.
    fields. unfold beginKey. run. fields.
    rewrite deliver_all_cons. fields.
    unfold deliver at 1, onCharacterData. run. fields.
    match goal with
    | |- context [isExpectingCDATA ?x] =>
        assert (Hcd : isExpectingCDATA x = true)
    end.
    { unfold isExpectingCDATA.
      match goal with
      | |- context [inDictionary ?x] =>
          assert (Hdict' : inDictionary x = true)
            by (apply (read_inDictionary x n es); [reflexivity|exact Hread'])
      end.
      rewrite Hdict'. fields. apply orb_true_r. }
    rewrite Hcd. fields. cbn [String.append].
    rewrite deliver_all_cons. fields.
    unfold deliver at 1, onEndElement. run. fields.
    change (endObject "key") with endKey. unfold endKey. run.
    reflexivity.
  - unfold inside.
    cbn [_errors _stopped _depth _stack _state _root heap current
         set_cdata set_state set_heap].
    repeat split; try assumption.
    + intros a Ha. rewrite lookup_app_l; [now apply Hold|].
      apply lookup_lt_is_Some. rewrite Hold by exact Ha.
      now apply lookup_lt_is_Some.
    + rewrite length_app. cbn. lia.
  - exact Hread'.
  - reflexivity.
  - intros a Ha. cbn [heap set_cdata set_state set_heap]. now rewrite lookup_app_l.
Qed.

Lemma find_entry_app (k : string) (es es' : list (string * ptr)) :
  plist.find_entry k (es ++ es') =
  match plist.find_entry k es with
  | Some v => Some v
  | None => plist.find_entry k es'
  end.
Proof.
  induction es as [|[k' v] es IH]; [reflexivity|].
  cbn. destruct (String.eqb k' k); [reflexivity|exact IH].
Qed.

Lemma existsb_eqb_false (k : string) (ks : list string) (k' : string) :
  existsb (String.eqb k) ks = false -> In k' ks -> String.eqb k k' = false.
Proof.
  induction ks as [|x ks IH]; [contradiction|].
  cbn. intros Hex [->|Hin]; apply orb_false_iff in Hex as [Hx Hks]; auto.
Qed.

(** The items of an array element, one after the other. *)
Lemma array_items (p : XMLParser) (n : nat) (items : list tree) :
  takes_value p ->
  n = S (length (heap p)) ->
  Forall (fun t =>
            well_written t = true ->
            forall s, takes_value s ->
            exists q,
              deliver_all (events_of (xml_of t)) s = Returns tt q /\
              took_value s (S (length (heap s))) q /\
              holds (S (length (heap s))) (heap q) (Some (S (length (heap s)))) t)
    items ->
  forallb well_written items = true ->
  forall s ps done,
    inside p n s ->
    plist.read (heap s) n = Some (plist.Array ps) ->
    Forall2 (holds (S n) (heap s)) ps done ->
    exists s' ps',
      deliver_all (flat_map events_of (map xml_of items)) s = Returns tt s' /\
      inside p n s' /\
      plist.read (heap s') n = Some (plist.Array ps') /\
      Forall2 (holds (S n) (heap s')) ps' (done ++ items).
Proof.
  intros Hp Hn IH. induction IH as [|t items Ht _ IHitems];
    intros Hkeys s ps done Hin Hread Hdone.
  - exists s, ps. rewrite app_nil_r. auto.
  - cbn [forallb] in Hkeys. apply andb_true_iff in Hkeys as [Hkt Hkeys].
    pose proof (inside_takes_array _ _ _ _ Hp Hn Hin Hread) as Hs.
    destruct (Ht Hkt s Hs) as (q & Hrun & Htook & Hholds).
    destruct (took_inside _ _ _ _ Hn Hin Htook) as (Hinq & Hold).
    pose proof Hin as (_ & _ & _ & _ & Hc & _ & _ & Hlen).
    pose proof Htook as (_ & _ & _ & _ & _ & _ & Hmatch).
    rewrite Hc, Hread in Hmatch. destruct Hmatch as (_ & _ & _ & Hreadq).
    assert (Hstable : forall a o, S n <= a -> plist.read (heap s) a = Some o ->
                                  plist.read (heap q) a = Some o).
    { intros a o Ha Hr. rewrite <- Hr. apply read_same, Hold; [|lia].
      exact (read_Some_lt _ _ _ Hr). }
    destruct (IHitems Hkeys q (ps ++ [Some (S (length (heap s)))]) (done ++ [t]))
      as (s' & ps' & Hrun' & Hin' & Hread' & Hall'); try assumption.
    { apply Forall2_app.
      - eapply Forall2_impl; [exact Hdone|]. intros x y Hxy.
        eapply holds_mono; [|exact Hstable|exact Hxy]. lia.
      - constructor; [|constructor].
        eapply holds_mono; [| |exact Hholds]; [lia|auto]. }
    exists s', ps'. rewrite <- app_assoc in Hall'. cbn [app] in Hall'.
    split; [|split; [exact Hin'|split; [exact Hread'|exact Hall']]].
    cbn [map flat_map]. now rewrite deliver_all_app, Hrun.
Qed.

(** The entries of a dictionary element, one after the other. *)
Lemma dictionary_entries (p : XMLParser) (n : nat) (entries : list (string * tree)) :
  takes_value p ->
  n = S (length (heap p)) ->
  Forall (fun e =>
            well_written (snd e) = true ->
            forall s, takes_value s ->
            exists q,
              deliver_all (events_of (xml_of (snd e))) s = Returns tt q /\
              took_value s (S (length (heap s))) q /\
              holds (S (length (heap s))) (heap q) (Some (S (length (heap s))))
                (snd e))
    entries ->
  unique (map fst entries) = true ->
  forallb (fun e => well_written (snd e)) entries = true ->
  forall s es done,
    inside p n s ->
    plist.read (heap s) n = Some (plist.Dictionary es) ->
    valid (key (_state s)) = false ->
    Forall (fun e => plist.find_entry (fst e) es = None) entries ->
    Forall2 (holds_entry (S n) (heap s)) es done ->
    exists s' es',
      deliver_all (flat_map events_of (flat_map entry_xml entries)) s
      = Returns tt s' /\
      inside p n s' /\
      plist.read (heap s') n = Some (plist.Dictionary es') /\
      Forall2 (holds_entry (S n) (heap s')) es' (done ++ entries).
Proof.
  intros Hp Hn IH. induction IH as [|[k t] entries Ht _ IHentries];
    intros Huniq Hkeys s es done Hin Hread Hvalid Hfresh Hdone.
  - exists s, es. rewrite app_nil_r. auto.
  - cbn [map fst unique] in Huniq. apply andb_true_iff in Huniq as [Hk Huniq].
    apply negb_true_iff in Hk.
    cbn [forallb snd] in Hkeys. apply andb_true_iff in Hkeys as [Hkt Hkeys].
    cbn [snd] in Ht.
    apply Forall_cons in Hfresh as [Hfind Hfresh]. cbn [fst] in Hfind.
    destruct (key_element p n s k es Hp Hn Hin Hread Hvalid)
      as (s1 & Hrunk & Hin1 & Hread1 & Hstate1 & Hold1).
    assert (Hs1 : takes_value s1).
    { apply (inside_takes_dictionary p n s1 es); try assumption;
        rewrite Hstate1; [reflexivity|exact Hfind]. }
    destruct (Ht Hkt s1 Hs1) as (q & Hrun & Htook & Hholds).
    destruct (took_inside _ _ _ _ Hn Hin1 Htook) as (Hinq & Hold).
    pose proof Hin as (_ & _ & _ & _ & _ & _ & _ & Hlen).
    pose proof Hin1 as (_ & _ & _ & _ & Hc1 & _ & _ & Hlen1).
    pose proof Htook as (_ & _ & _ & _ & _ & _ & Hmatch).
    rewrite Hc1, Hread1 in Hmatch. destruct Hmatch as (_ & _ & Hstateq & Hreadq).
    rewrite Hstate1 in Hreadq. cbn [value key] in Hreadq.
    assert (Hle : length (heap s) <= length (heap s1)).
    { destruct (heap s) as [|c0 h0] eqn:Hh; [cbn; lia|].
      assert (Hlast : length (c0 :: h0) - 1 < length (c0 :: h0)) by (cbn; lia).
      pose proof (Hold1 _ Hlast) as Heq.
      destruct (lookup_lt_is_Some_2 _ _ Hlast) as [x Hx]. rewrite Hx in Heq.
      apply lookup_lt_Some in Heq. cbn in *. lia. }
    assert (Hstable : forall a o, S n <= a -> plist.read (heap s) a = Some o ->
                                  plist.read (heap q) a = Some o).
    { intros a o Ha Hr. rewrite <- Hr.
      pose proof (read_Some_lt _ _ _ Hr) as Hlt.
      transitivity (plist.read (heap s1) a); apply read_same.
      - apply Hold; lia.
      - now apply Hold1. }
    destruct (IHentries Huniq Hkeys q
                (es ++ [(k, Some (S (length (heap s1))))]) (done ++ [(k, t)]))
      as (s' & es' & Hrun' & Hin' & Hread' & Hall'); try assumption.
    { rewrite Hstateq, Hstate1. reflexivity. }
    { apply Forall_forall. intros e He. rewrite find_entry_app.
      rewrite Forall_forall in Hfresh. rewrite (Hfresh e He). cbn.
      rewrite (existsb_eqb_false k (map fst entries)); [reflexivity|exact Hk|].
      apply in_map, list_elem_of_In, He. }
    { apply Forall2_app.
      - eapply Forall2_impl; [exact Hdone|]. intros x y [Hxy1 Hxy2].
        split; [exact Hxy1|].
        eapply holds_mono; [|exact Hstable|exact Hxy2]. lia.
      - constructor; [|constructor]. split; [reflexivity|]. cbn [snd].
        eapply holds_mono; [| |exact Hholds]; [lia|auto]. }
    exists s', es'. rewrite <- app_assoc in Hall'. cbn [app] in Hall'.
    split; [|split; [exact Hin'|split; [exact Hread'|exact Hall']]].
    change (flat_map events_of (flat_map entry_xml ((k, t) :: entries)))
      with (events_of (Element "key" [] [Text k])
            ++ events_of (xml_of t)
            ++ flat_map events_of (flat_map entry_xml entries)).
    now rewrite deliver_all_app, Hrunk, deliver_all_app, Hrun.
Qed.

(** The element that writes a value, delivered where the parser takes a
    value, makes the node of the value and puts it there. *)
Lemma value_element (t : tree) :
  well_written t = true ->
  forall p, takes_value p ->
  exists q,
    deliver_all (events_of (xml_of t)) p = Returns tt q /\
    took_value p (S (length (heap p))) q /\
    holds (S (length (heap p))) (heap q) (Some (S (length (heap p)))) t.
Proof.
  induction t as [text|text|b| |items IH|entries IH] using tree_induction;
    intros Hkeys p Hp; pose proof Hp as (Hs & _).
  - (* string *)
    destruct (open_value p "string" [] (plist.String "") Hp eq_refl)
      as (p1 & Hstart & Hopen).
    destruct (opened_inside _ _ _ Hopen) as (Hin & Hnode & _ & Hcd).
    specialize (Hcd (or_introl eq_refl)).
    pose proof Hin as (He & Hs1 & Hd & Hst & Hc & Hr & Hold & Hlen).
    assert (Hexp : isExpectingCDATA p1 = true).
    { unfold isExpectingCDATA, plist.CastTo. rewrite Hc, Hnode. reflexivity. }
    assert (Htext : deliver_all [CharacterData text] p1
                    = Returns tt (set_cdata text p1)).
    { rewrite deliver_all_cons, Hs1, deliver_text, Hcd by exact Hexp.
      reflexivity. }
    destruct (close_string p (set_cdata text p1) (S (length (heap p))) ""
                Hp eq_refl He Hs1 Hd Hst Hc Hr Hold Hnode)
      as (q & Hend & Htook & Hq).
    exists q. split; [|split; [exact Htook|]].
    + cbn [xml_of events_of flat_map app].
      exact (element_run _ _ _ _ _ _ _ Hs Hstart Htext Hs1 Hend).
    + apply holds_string; [lia|exact Hq].
  - (* integer *)
    cbn [well_written] in Hkeys.
    destruct (stoi text) as [v|x] eqn:Hv; [|discriminate].
    destruct (open_value p "integer" [] (plist.Integer 0) Hp eq_refl)
      as (p1 & Hstart & Hopen).
    destruct (opened_inside _ _ _ Hopen) as (Hin & Hnode & _ & Hcd).
    specialize (Hcd (or_intror eq_refl)).
    pose proof Hin as (He & Hs1 & Hd & Hst & Hc & Hr & Hold & Hlen).
    assert (Hexp : isExpectingCDATA p1 = true).
    { unfold isExpectingCDATA, plist.CastTo. rewrite Hc, Hnode. reflexivity. }
    assert (Htext : deliver_all [CharacterData text] p1
                    = Returns tt (set_cdata text p1)).
    { rewrite deliver_all_cons, Hs1, deliver_text, Hcd by exact Hexp.
      reflexivity. }
    destruct (close_integer p (set_cdata text p1) (S (length (heap p))) 0%Z v
                Hp eq_refl He Hs1 Hd Hst Hc Hr Hold Hnode Hv)
      as (q & Hend & Htook & Hq).
    exists q. split; [|split; [exact Htook|]].
    + cbn [xml_of events_of flat_map app].
      exact (element_run _ _ _ _ _ _ _ Hs Hstart Htext Hs1 Hend).
    + apply (holds_integer _ _ _ _ v); [lia|exact Hv|exact Hq].
  - (* true, false *)
    set (name := if b then "true" else "false").
    assert (Hmade : made name = Some (plist.Boolean b)) by (destruct b; reflexivity).
    assert (Hname : In name textless_elements)
      by (destruct b; unfold textless_elements; cbn [In]; auto 10).
    destruct (open_value p name [] _ Hp Hmade) as (p1 & Hstart & Hopen).
    destruct (opened_inside _ _ _ Hopen) as (Hin & Hnode & _).
    pose proof Hin as (He & Hs1 & Hd & Hst & Hc & Hr & Hold & Hlen).
    destruct (close_value p p1 (S (length (heap p))) name
                Hp eq_refl Hname He Hs1 Hd Hst Hc Hr Hold Hlen)
      as (q & Hend & Htook & Hq).
    exists q. split; [|split; [exact Htook|]].
    + cbn [xml_of events_of flat_map]. fold name.
      apply (element_run name [] [] p p1 p1 q Hs Hstart eq_refl Hs1 Hend).
    + apply holds_boolean; [lia|].
      rewrite (read_same (heap p1) (heap q)) by (apply Hq; lia). exact Hnode.
  - (* null *)
    assert (Hname : In "null" textless_elements)
      by (unfold textless_elements; cbn [In]; auto 10).
    destruct (open_value p "null" [] _ Hp eq_refl) as (p1 & Hstart & Hopen).
    destruct (opened_inside _ _ _ Hopen) as (Hin & Hnode & _).
    pose proof Hin as (He & Hs1 & Hd & Hst & Hc & Hr & Hold & Hlen).
    destruct (close_value p p1 (S (length (heap p))) "null"
                Hp eq_refl Hname He Hs1 Hd Hst Hc Hr Hold Hlen)
      as (q & Hend & Htook & Hq).
    exists q. split; [|split; [exact Htook|]].
    + cbn [xml_of events_of flat_map].
      apply (element_run "null" [] [] p p1 p1 q Hs Hstart eq_refl Hs1 Hend).
    + apply holds_null; [lia|].
      rewrite (read_same (heap p1) (heap q)) by (apply Hq; lia). exact Hnode.
  - (* array *)
    assert (Hname : In "array" textless_elements)
      by (unfold textless_elements; cbn [In]; auto 10).
    cbn [well_written] in Hkeys.
    destruct (open_value p "array" [] _ Hp eq_refl) as (p1 & Hstart & Hopen).
    destruct (opened_inside _ _ _ Hopen) as (Hin & Hnode & _).
    destruct (array_items p (S (length (heap p))) items Hp eq_refl IH Hkeys
                p1 [] [] Hin Hnode)
      as (p2 & ps & Hrun & Hin2 & Hread2 & Hall); [constructor|].
    pose proof Hin2 as (He & Hs2 & Hd & Hst & Hc & Hr & Hold & Hlen).
    destruct (close_value p p2 (S (length (heap p))) "array"
                Hp eq_refl Hname He Hs2 Hd Hst Hc Hr Hold Hlen)
      as (q & Hend & Htook & Hq).
    exists q. split; [|split; [exact Htook|]].
    + cbn [xml_of events_of].
      exact (element_run _ _ _ _ _ _ _ Hs Hstart Hrun Hs2 Hend).
    + apply (holds_array _ _ _ ps); [lia| |].
      * rewrite (read_same (heap p2) (heap q)) by (apply Hq; lia). exact Hread2.
      * cbn [app] in Hall. eapply Forall2_impl; [exact Hall|].
        intros x y Hxy. eapply holds_mono; [| |exact Hxy]; [lia|].
        intros a o Ha Hro. rewrite <- Hro. apply read_same, Hq. lia.
  - (* dict *)
    assert (Hname : In "dict" textless_elements)
      by (unfold textless_elements; cbn [In]; auto 10).
    cbn [well_written] in Hkeys. apply andb_true_iff in Hkeys as [Huniq Hkeys].
    destruct (open_value p "dict" [] _ Hp eq_refl) as (p1 & Hstart & Hopen).
    destruct (opened_inside _ _ _ Hopen) as (Hin & Hnode & Hvalid & _).
    destruct (dictionary_entries p (S (length (heap p))) entries Hp eq_refl IH
                Huniq Hkeys p1 [] [] Hin Hnode Hvalid)
      as (p2 & es & Hrun & Hin2 & Hread2 & Hall).
    { apply Forall_forall. reflexivity. }
    { constructor. }
    pose proof Hin2 as (He & Hs2 & Hd & Hst & Hc & Hr & Hold & Hlen).
    destruct (close_value p p2 (S (length (heap p))) "dict"
                Hp eq_refl Hname He Hs2 Hd Hst Hc Hr Hold Hlen)
      as (q & Hend & Htook & Hq).
    exists q. split; [|split; [exact Htook|]].
    + cbn [xml_of events_of].
      exact (element_run _ _ _ _ _ _ _ Hs Hstart Hrun Hs2 Hend).
    + apply (holds_dictionary _ _ _ es); [lia| |].
      * rewrite (read_same (heap p2) (heap q)) by (apply Hq; lia). exact Hread2.
      * cbn [app] in Hall. eapply Forall2_impl; [exact Hall|].
        intros x y [Hxy1 Hxy2]. split; [exact Hxy1|].
        eapply holds_mono; [| |exact Hxy2]; [lia|].
        intros a o Ha Hro. rewrite <- Hro. apply read_same, Hq. lia.
Qed.

(** X15 — writing a value and parsing it gives the value back.  For every
    value built from strings, integers, booleans, null, arrays and
    dictionaries, in which no dictionary has a key twice and [std::stoi]
    converts the text of every integer, [parse] of the document
    [<plist>value</plist>], on a parser without root and with an empty
    stack, reports nothing and returns a node that reads as the value: every
    node has the type and the content of its value (an integer node holds
    what [std::stoi] reads from the text), the items of an array are in the
    order of the document, and each entry of a dictionary is under the text
    of its key.  The cells allocated before the parse are untouched. *)
Theorem written_value_is_parsed_back (t : tree) (p : XMLParser) :
  well_written t = true ->
  _root p = nullptr ->
  _stack p = [] ->
  exists q,
    parse_fp (plist_document t) p = Returns (Some (2 + length (heap p))) q /\
    _errors q = _errors p /\
    _stopped q = false /\
    _root q = Some (2 + length (heap p)) /\
    represents (heap q) (Some (2 + length (heap p))) t /\
    forall a, a < length (heap p) -> heap q !! a = heap p !! a.
Proof.
  intros Hkeys Hroot Hstack. rewrite parse_fp_unfold by exact Hroot.
  pose (stray := plist.Live plist.operator_new (plist.Dictionary [])).
  set (p0 := set_depth 1 (set_heap (heap p ++ [stray]) (begin p))).
  assert (Hstart : deliver (StartElement "plist" []) (begin p) = Returns tt p0)
    by reflexivity.
  assert (Hp0 : takes_value p0).
  { unfold takes_value, p0, begin. fields. unfold nullptr. auto. }
  destruct (value_element t Hkeys p0 Hp0) as (q1 & Hrun & Htook & Hholds).
  assert (Hlen0 : S (length (heap p0)) = 2 + length (heap p)).
  { unfold p0. fields. rewrite length_app. cbn. lia. }
  rewrite Hlen0 in Htook, Hholds.
  destruct Htook as (He & Hs1 & Hd & Hst & Hcd & Hlen & Hr & Hc & Hold).
  assert (Hend : deliver (EndElement "plist") q1
                 = Returns tt (set_depth (pred (_depth q1)) q1)) by reflexivity.
  unfold plist_document. cbn [events_of flat_map]. rewrite app_nil_r.
  rewrite (element_run "plist" [] _ (begin p) p0 q1 _ eq_refl Hstart Hrun Hs1 Hend).
  fields. rewrite Hs1. cbn [negb]. unfold onEndParse. run. fields.
  eexists. split; [rewrite Hr; reflexivity|]. fields.
  split; [exact He|]. split; [exact Hs1|]. split; [exact Hr|]. split.
  - unfold represents. eapply holds_mono; [| |exact Hholds]; [lia|auto].
  - intros a Ha. rewrite Hold.
    + unfold p0. fields. now rewrite lookup_app_l.
    + unfold p0. fields. rewrite length_app. lia.
Qed.

(** *** The pop of a parse into a dictionary *)


(** Every [pop] of an end event is called in one of the states of
    [before_pop]. *)
Lemma end_event_pops (p q : XMLParser) (name : string) :
  In name textless_elements \/ cast_of name <> None ->
  deliver (EndElement name) p = Returns tt q ->
  exists p', before_pop p p' /\ pop p' = Returns tt q.
Proof.
  intros Hname. unfold deliver, onEndElement, bind, gets, modify.
  set (s := set_depth (pred (_depth p)) p).
  assert (Hm : exists m : M unit,
            (forall p', m s = Returns tt p' -> before_pop p p') /\
            endObject name s = (m ;; pop ;; ret true) s).
  { destruct Hname as [Hin|Hcast].
    - exists (ret tt). split; [intros p' [= <-]; now left|].
      unfold textless_elements in Hin. cbn [In] in Hin.
      destruct Hin as [<-|[<-|[<-|[<-|[<-|[]]]]]]; reflexivity.
    - unfold cast_of in Hcast.
      repeat match type of Hcast with
             | (if String.eqb name ?x then _ else _) <> None =>
                 let E := fresh "E" in
                 destruct (String.eqb name x) eqn:E;
                 [apply String.eqb_eq in E; subst name; clear Hcast|]
             end; try congruence.
      + exists (String_setValue
                  (plist.CastTo plist.kString (heap s) (current (_state s)))
                  (_cdata s)).
        split; [|reflexivity]. intros p' Hset. right. left. eauto.
      + exists (v <- convert (stoi (_cdata s)) ;;
                Integer_setValue
                  (plist.CastTo plist.kInteger (heap s) (current (_state s))) v).
        split.
        * unfold bind. destruct (stoi (_cdata s)) as [v|x]; [|discriminate].
          cbn [convert ret]. intros p' Hset. right. right. left. eauto.
        * change (endObject "integer") with endInteger.
          unfold endInteger, bind, get.
          destruct (stoi (_cdata s)) as [v|x]; reflexivity.
      + exists (d <- convert (stod (_cdata s)) ;;
                match plist.CastTo plist.kInteger (heap s) (current (_state s)) with
                | Some this =>
                    match int64_of_double d with
                    | Some v => Integer_setValue (Some this) v
                    | None => undefined
                    end
                | None => undefined
                end).
        split.
        * unfold bind. destruct (stod (_cdata s)) as [d|x]; [|discriminate].
          cbn [convert ret]. intros p'.
          destruct (plist.CastTo plist.kInteger (heap s) (current (_state s)))
            as [a|] eqn:Hc; [|discriminate].
          destruct (int64_of_double d) as [v|]; [|discriminate].
          intros Hset. right. right. left. exists v. cbv zeta. fold s.
          now rewrite Hc.
        * change (endObject "real") with endReal.
          unfold endReal, bind, get.
          destruct (stod (_cdata s)) as [d|x]; reflexivity.
      + exists (Data_setBase64Value
                  (plist.CastTo plist.kData (heap s) (current (_state s)))
                  (_cdata s)).
        split; [|reflexivity]. intros p' Hset. right. right. right. left. eauto.
      + exists (Date_setStringValue
                  (plist.CastTo plist.kDate (heap s) (current (_state s)))
                  (_cdata s)).
        split; [|reflexivity]. intros p' Hset. right. right. right. right. eauto. }
  destruct Hm as (m & Hm & ->). unfold bind, ret.
  destruct (m s) as [[] p'| |] eqn:Hms; try discriminate.
  destruct (pop p') as [[] q'| |] eqn:Hq; try discriminate.
  unfold when. cbn [negb]. intros [= <-].
  exists p'. split; [now apply Hm|exact Hq].
Qed.



(** *** Where the behaviour can be undefined *)

Lemma total_ret {A} (a : A) : total (ret a).
Proof. intros p. now exists a, p. Qed.

Lemma total_bind {A B} (m : M A) (k : A -> M B) :
  total m -> (forall a, total (k a)) -> total (bind m k).
Proof.
  intros Hm Hk p. destruct (Hm p) as (a & p' & Hmp). unfold bind. rewrite Hmp.
  apply Hk.
Qed.

Lemma total_modify (f : XMLParser -> XMLParser) : total (modify f).
Proof. intros p. now exists tt, (f p). Qed.

Lemma total_get : total get.
Proof. intros p. now exists p, p. Qed.

Lemma total_gets {A} (f : XMLParser -> A) : total (gets f).
Proof. intros p. now exists (f p), p. Qed.

Lemma total_when (b : bool) (m : M unit) : total m -> total (when b m).
Proof. intros Hm. destruct b; [exact Hm|apply total_ret]. Qed.

Lemma total_New (o : plist.Object) : total (New o).
Proof. intros p. unfold New. cbn. eauto. Qed.

Lemma total_new_Dictionary : total new_Dictionary.
Proof. intros p. unfold new_Dictionary. cbn. eauto. Qed.

Lemma total_push (object : ptr) : total (push object).
Proof. intros p. rewrite push_unfold. eauto. Qed.

Lemma total_reject_cdata (cdata : string) : total (reject_cdata cdata).
Proof. intros p. rewrite reject_cdata_spec. eauto. Qed.

Ltac total_step :=
  first
    [ apply total_ret
    | apply total_get
    | apply total_gets
    | apply total_New
    | apply total_new_Dictionary
    | apply total_push
    | apply total_reject_cdata
    | apply total_modify
    | apply total_when
    | apply total_bind; [|intros ?]
    | match goal with
      | |- total (if ?b then _ else _) => destruct b
      end ].

Ltac total_all := unfold error, stop; repeat total_step.

Lemma total_beginObject (name : string) : total (beginObject name).
Proof.
  unfold beginObject, beginKey, beginArray, beginDictionary, beginString,
    beginInteger, beginReal, beginBoolean, beginNull, beginData, beginDate.
  total_all.
Qed.

Lemma total_onStartElement (name : string) (attrs : string_map) (depth : nat) :
  total (onStartElement name attrs depth).
Proof.
  unfold onStartElement. apply total_bind; [apply total_new_Dictionary|].
  intros dict. destruct (depth =? 0); [total_all|].
  apply total_bind; [apply total_get|]. intros p.
  destruct (_ && _); [total_all|].
  apply total_bind; [apply total_beginObject|]. intros ok. total_all.
Qed.

Lemma total_onCharacterData (cdata : string) (depth : nat) :
  total (onCharacterData cdata depth).
Proof. unfold onCharacterData. total_all. Qed.

(** In a parse [pop] returns: there is a frame to restore when one is
    needed, the restored node takes the completed one, and a value that the
    dictionary replaces can be released. *)
Lemma pop_defined (h0 : plist.Heap) (p : XMLParser) :
  consistent h0 p -> exists q, pop p = Returns tt q.
Proof.
  intros Hp.
  pose proof Hp as (Hrooted & Hframes & Hearlier & ns & Ho & Hnd & Hge & Hcover).
  destruct (ptr_eqb (current (_state p)) (_root p)) eqn:Heq.
  { rewrite pop_unfold, Heq. destruct (_ && _); eauto. }
  apply ptr_eqb_neq in Heq.
  assert (Hroot : _root p <> None).
  { intros Hnone. destruct (consistent_root_None h0 p Hp Hnone). congruence. }
  destruct (consistent_current h0 p Hp Hroot) as (ca & Hca & _).
  destruct (last (_stack p)) as [top|] eqn:Hlast.
  2:{ apply last_None in Hlast. exfalso.
      apply (rooted_back_defined [] p Hrooted); [rewrite Hca; discriminate|
                                                exact Heq|exact Hlast]. }
  pose proof (removelast_nonempty _ _ Hlast) as Hstack.
  set (fs := removelast (_stack p)) in *.
  rewrite Hstack in Hframes. apply Forall_app in Hframes as [Hfs Htop].
  apply Forall_inv in Htop. destruct Htop as (pa & o & Hpa & Hr & Hkind).
  apply read_lookup in Hr as Hl. destruct Hl as [how Hl].
  unfold held in Ho. destruct (_root p) as [r|] eqn:Hr'; [|congruence].
  rewrite Hstack, map_app, <- app_assoc in Ho. cbn in Ho. rewrite Hpa, Hca in Ho.
  apply owns_all_app in Ho as (n_fs & n_rest & -> & Hown_fs & Ho).
  change [Some pa; Some ca] with ([Some pa] ++ [Some ca]) in Ho.
  apply owns_all_app in Ho as (n_par & n_c & -> & Hown_par & Hown_c).
  apply owns_all_singleton in Hown_par, Hown_c.
  assert (Hnd_pc : NoDup (n_par ++ n_c)).
  { apply NoDup_app in Hnd. tauto. }
  assert (Heq' : current (_state p) <> _root p) by congruence.
  destruct o; try contradiction.
  - rewrite (pop_array_frame p top pa items) by assumption. eauto.
  - pose proof (pop_dictionary_frame p top pa entries Heq' Hlast Hpa Hr) as Hd.
    cbv zeta in Hd. rewrite Hkind, Hca in Hd.
    destruct (plist.find_entry (value (key top)) entries) as [old|] eqn:Hfind.
    + destruct (owns_replace _ _ _ _ _ _ _ _ _ Hl Hfind Hown_par Hown_c Hnd_pc)
        as (n_old & n_par' & Hrel & _).
      rewrite (Hd _ Hrel). eauto.
    + rewrite Hd. eauto.
Qed.

Lemma CastTo_Some (T : plist.ObjectType) (h : plist.Heap) (p : ptr) (a : nat) :
  plist.CastTo T h p = Some a ->
  p = Some a /\ exists o, plist.read h a = Some o /\ plist.type o = T.
Proof.
  unfold plist.CastTo. destruct p as [b|]; [|discriminate].
  destruct (plist.read h b) as [o|] eqn:Hr; [|discriminate].
  destruct (plist.ObjectType_eqb (plist.type o) T) eqn:HT; [|discriminate].
  intros [= ->]. split; [reflexivity|]. exists o. split; [exact Hr|].
  destruct o, T; try discriminate; reflexivity.
Qed.

(** A leaf end handler whose setter returns: the pop that follows is the
    pop of a parse. *)
Lemma setter_then_pop_defined (h0 : plist.Heap) (m : M unit) (p p1 : XMLParser) :
  m p = Returns tt p1 ->
  consistent h0 p1 ->
  (m ;; pop ;; ret true) p <> Undefined.
Proof.
  intros Hm Hp1. run. rewrite Hm.
  destruct (pop_defined h0 p1 Hp1) as (q & ->). discriminate.
Qed.

Lemma String_setValue_defined (p : XMLParser) (a : nat) (v : string) :
  plist.CastTo plist.kString (heap p) (current (_state p)) = Some a ->
  exists p1, String_setValue (Some a) v p = Returns tt p1.
Proof.
  intros Hc. apply CastTo_Some in Hc as (_ & o & Hr & Ht).
  unfold String_setValue, member. run. rewrite Hr.
  destruct o; try discriminate. eauto.
Qed.

Lemma Integer_setValue_defined (p : XMLParser) (a : nat) (v : Z) :
  plist.CastTo plist.kInteger (heap p) (current (_state p)) = Some a ->
  exists p1, Integer_setValue (Some a) v p = Returns tt p1.
Proof.
  intros Hc. apply CastTo_Some in Hc as (_ & o & Hr & Ht).
  unfold Integer_setValue, member. run. rewrite Hr.
  destruct o; try discriminate. eauto.
Qed.

Lemma Data_setBase64Value_defined (p : XMLParser) (a : nat) (v : string) :
  plist.CastTo plist.kData (heap p) (current (_state p)) = Some a ->
  exists p1, Data_setBase64Value (Some a) v p = Returns tt p1.
Proof.
  intros Hc. apply CastTo_Some in Hc as (_ & o & Hr & Ht).
  unfold Data_setBase64Value, member. run. rewrite Hr.
  destruct o; try discriminate. eauto.
Qed.

Lemma Date_setStringValue_defined (p : XMLParser) (a : nat) (v : string) :
  plist.CastTo plist.kDate (heap p) (current (_state p)) = Some a ->
  exists p1, Date_setStringValue (Some a) v p = Returns tt p1.
Proof.
  intros Hc. apply CastTo_Some in Hc as (_ & o & Hr & Ht).
  unfold Date_setStringValue, member. run. rewrite Hr.
  destruct o; try discriminate. eauto.
Qed.

(** With [isspace] as the C libraries have it, the behaviour of an event
    is undefined only at the end of a leaf element. *)
Lemma deliver_undefined_cases (p0 : XMLParser) (events : list event)
    (p : XMLParser) (e : event) :
  _stack p0 = [] ->
  deliver_all events (begin p0) = Returns tt p ->
  deliver e p = Undefined ->
  exists name T,
    e = EndElement name /\ cast_of name = Some T /\
    (plist.CastTo T (heap p) (current (_state p)) = nullptr \/
     (name = "real" /\
      exists d, stod (_cdata p) = Value d /\ int64_of_double d = None)).
Proof.
  intros Hstack Hrun.
  pose proof (consistent_deliver_all _ _ _ _ (consistent_begin_parse p0 Hstack) Hrun)
    as Hp.
  unfold deliver. run. destruct e as [name attrs|text|name].
  - destruct (total_onStartElement name attrs (_depth p) p) as ([] & q & ->).
    discriminate.
  - destruct (total_onCharacterData text (_depth p) p) as ([] & q & ->).
    discriminate.
  - unfold onEndElement. run.
    set (p' := set_depth (pred (_depth p)) p).
    assert (Hp' : consistent (heap p0) p')
      by (eapply consistent_ext; [..|exact Hp]; reflexivity).
    destruct (endObject name p') as [ok p''| |] eqn:Hend; try discriminate.
    { destruct ok; discriminate. }
    intros _. revert Hend. unfold endObject.
    repeat match goal with
           | |- (if String.eqb name ?s then _ else _) p' = _ -> _ =>
               let E := fresh "E" in
               destruct (String.eqb name s) eqn:E;
               [apply String.eqb_eq in E|]
           | |- (if ?c then _ else _) p' = _ -> _ => destruct c
           end;
      unfold endKey, endArray, endDictionary, endBoolean, endNull;
      try solve [run; discriminate];
      try solve [intros Hend; exfalso; revert Hend; run;
                 destruct (pop_defined _ _ Hp') as (q & ->); discriminate].
    + (* string *)
      subst name.
      change (endString p')
        with ((String_setValue
                 (plist.CastTo plist.kString (heap p') (current (_state p')))
                 (_cdata p') ;; pop ;; ret true) p').
      destruct (plist.CastTo plist.kString (heap p') (current (_state p')))
        as [a|] eqn:Hcast.
      * intros Hend. exfalso. revert Hend.
        destruct (String_setValue_defined p' a (_cdata p') Hcast) as (p1 & Hset).
        apply (setter_then_pop_defined (heap p0) _ p' p1 Hset).
        rewrite <- Hcast in Hset.
        exact (consistent_String_setValue _ _ _ _ _ Hp' Hset).
      * intros _. exists "string", plist.kString. auto.
    + (* integer *)
      subst name. unfold endInteger. unfold bind at 1, get. unfold bind at 1.
      destruct (stoi (_cdata p')) as [v|x]; cbn [convert]; [|discriminate].
      unfold ret at 1.
      destruct (plist.CastTo plist.kInteger (heap p') (current (_state p')))
        as [a|] eqn:Hcast.
      * intros Hend. exfalso. revert Hend.
        destruct (Integer_setValue_defined p' a v Hcast) as (p1 & Hset).
        apply (setter_then_pop_defined (heap p0) _ p' p1 Hset).
        rewrite <- Hcast in Hset.
        exact (consistent_Integer_setValue _ _ _ _ _ Hp' Hset).
      * intros _. exists "integer", plist.kInteger. auto.
    + (* real *)
      subst name. unfold endReal. unfold bind at 1, get. unfold bind at 1.
      change (_cdata p') with (_cdata p).
      destruct (stod (_cdata p)) as [d|x] eqn:Hd; cbn [convert]; [|discriminate].
      unfold ret at 1.
      destruct (plist.CastTo plist.kInteger (heap p') (current (_state p')))
        as [a|] eqn:Hcast.
      * destruct (int64_of_double d) as [v|] eqn:Hv.
        -- intros Hend. exfalso. revert Hend.
           destruct (Integer_setValue_defined p' a v Hcast) as (p1 & Hset).
           apply (setter_then_pop_defined (heap p0) _ p' p1 Hset).
           rewrite <- Hcast in Hset.
           exact (consistent_Integer_setValue _ _ _ _ _ Hp' Hset).
        -- intros _. exists "real", plist.kInteger.
           split; [reflexivity|]. split; [reflexivity|]. right. eauto.
      * intros _. exists "real", plist.kInteger. auto.
    + (* data *)
      subst name.
      change (endData p')
        with ((Data_setBase64Value
                 (plist.CastTo plist.kData (heap p') (current (_state p')))
                 (_cdata p') ;; pop ;; ret true) p').
      destruct (plist.CastTo plist.kData (heap p') (current (_state p')))
        as [a|] eqn:Hcast.
      * intros Hend. exfalso. revert Hend.
        destruct (Data_setBase64Value_defined p' a (_cdata p') Hcast) as (p1 & Hset).
        apply (setter_then_pop_defined (heap p0) _ p' p1 Hset).
        rewrite <- Hcast in Hset.
        exact (consistent_Data_setBase64Value _ _ _ _ _ Hp' Hset).
      * intros _. exists "data", plist.kData. auto.
    + (* date *)
      subst name.
      change (endDate p')
        with ((Date_setStringValue
                 (plist.CastTo plist.kDate (heap p') (current (_state p')))
                 (_cdata p') ;; pop ;; ret true) p').
      destruct (plist.CastTo plist.kDate (heap p') (current (_state p')))
        as [a|] eqn:Hcast.
      * intros Hend. exfalso. revert Hend.
        destruct (Date_setStringValue_defined p' a (_cdata p') Hcast) as (p1 & Hset).
        apply (setter_then_pop_defined (heap p0) _ p' p1 Hset).
        rewrite <- Hcast in Hset.
        exact (consistent_Date_setStringValue _ _ _ _ _ Hp' Hset).
      * intros _. exists "date", plist.kDate. auto.
Qed.

(** Text without a byte from 0x80 on is handled as the C libraries do. *)
Lemma reject_cdata_strict_specified (cdata : string) (p : XMLParser) :
  unspecified cdata = false ->
  reject_cdata_strict cdata p = reject_cdata cdata p.
Proof.
  revert p. induction cdata as [|c rest IH]; intros p; [reflexivity|].
  cbn [unspecified reject_cdata_strict reject_cdata].
  destruct (isspace_specified c); [|discriminate]. cbn [negb orb]. intros Hrest.
  unfold bind. destruct (when _ _ p) as [[] p1| |]; [now apply IH|reflexivity..].
Qed.

Lemma reject_cdata_strict_unspecified (cdata : string) (p : XMLParser) :
  unspecified cdata = true -> reject_cdata_strict cdata p = Undefined.
Proof.
  revert p. induction cdata as [|c rest IH]; intros p; [discriminate|].
  cbn [unspecified reject_cdata_strict].
  destruct (isspace_specified c); [|reflexivity]. cbn [negb orb]. intros Hrest.
  destruct (isspace c); cbn [negb]; run; now apply IH.
Qed.

(** Where the standard specifies the behaviour, it is the one that the C
    libraries give. *)
Lemma deliver_strict_agrees (e : event) (p : XMLParser) :
  deliver_strict e p <> Undefined -> deliver_strict e p = deliver e p.
Proof.
  destruct e as [name attrs|text|name]; try reflexivity.
  unfold deliver_strict, deliver, onCharacterData_strict, onCharacterData.
  run. destruct (negb (isExpectingCDATA p)); [|reflexivity].
  destruct (unspecified text) eqn:Htext.
  - rewrite reject_cdata_strict_unspecified by exact Htext. congruence.
  - now rewrite reject_cdata_strict_specified.
Qed.

Lemma deliver_all_strict_agrees (events : list event) (p : XMLParser) :
  deliver_all_strict events p <> Undefined ->
  deliver_all_strict events p = deliver_all events p.
Proof.
  revert p. induction events as [|e events IH]; intros p; [reflexivity|].
  rewrite deliver_all_cons.
  change (deliver_all_strict (e :: events) p)
    with ((stopped <- gets _stopped ;;
           if stopped then ret tt
           else (deliver_strict e ;; deliver_all_strict events)) p).
  unfold bind, gets, ret. destruct (_stopped p); [reflexivity|].
  destruct (deliver_strict e p) as [[] q| |] eqn:Hstrict.
  - rewrite <- deliver_strict_agrees, Hstrict by congruence. apply IH.
  - now rewrite <- deliver_strict_agrees, Hstrict by congruence.
  - congruence.
Qed.

(** X17 — where a parse can go wrong.  With character data read as the C
    standard alone specifies it, in every state that the events of a parse
    lead to (with [isspace] as the C libraries have it, which covers the
    states reached while every call is specified:
    [deliver_all_strict_agrees]), the behaviour of an event is undefined
    only in two places.
    One is the end of a [string], [integer], [real], [data] or [date]
    element, and there only when the cast of the current node to the type
    of the handler ([Integer] for [real]) is null, or, for [real], when the
    value read does not fit the integer the setter takes.  The other is
    character data that is not expected and holds a byte from 0x80 on,
    which [onCharacterData] passes to [isspace] as a plain [char].  The
    start of an element, the other character data, and the end of a
    [plist], [key], [array], [dict], [true], [false] or [null] element and
    of an element with an unknown name are always defined. *)
Theorem undefined_at_leaf_close_or_stray_byte (p0 : XMLParser)
    (events : list event) (p : XMLParser) (e : event) :
  _stack p0 = [] ->
  deliver_all events (begin p0) = Returns tt p ->
  deliver_strict e p = Undefined ->
  (exists name T,
     e = EndElement name /\ cast_of name = Some T /\
     (plist.CastTo T (heap p) (current (_state p)) = nullptr \/
      (name = "real" /\
       exists d, stod (_cdata p) = Value d /\ int64_of_double d = None))) \/
  (exists text,
     e = CharacterData text /\ isExpectingCDATA p = false /\
     unspecified text = true).
Proof.
  intros Hstack Hrun Hundefined.
  destruct (deliver e p) as [[] q| |] eqn:Hlib.
  - (* the C libraries return: the standard did not specify the call *)
    right. destruct e as [name attrs|text|name];
      try (cbn [deliver_strict] in Hundefined; congruence).
    exists text. split; [reflexivity|].
    revert Hundefined. unfold deliver_strict, onCharacterData_strict. run.
    destruct (isExpectingCDATA p); cbn [negb]; [discriminate|].
    intros Hundefined. split; [reflexivity|].
    destruct (unspecified text) eqn:Htext; [reflexivity|].
    rewrite reject_cdata_strict_specified in Hundefined by exact Htext.
    destruct (total_reject_cdata text p) as ([] & q' & Hq). congruence.
  - (* an exception: not undefined under either reading *)
    exfalso. apply (f_equal (fun r => match r with Undefined => true | _ => false end))
      in Hundefined.
    destruct e as [name attrs|text|name];
      try (cbn [deliver_strict] in Hundefined; rewrite Hlib in Hundefined;
           discriminate).
    revert Hlib. unfold deliver, onCharacterData. run.
    destruct (negb (isExpectingCDATA p)); [|discriminate].
    destruct (total_reject_cdata text p) as ([] & q' & ->). discriminate.
  - left. exact (deliver_undefined_cases p0 events p e Hstack Hrun Hlib).
Qed.

(** *** The dictionary that [onStartElement] allocates *)

Lemma strays_app (h h' : plist.Heap) : strays (h ++ h') = strays h + strays h'.
Proof. induction h as [|c h IH]; [reflexivity|]. cbn. rewrite IH. lia. Qed.

Lemma strays_insert (h : plist.Heap) (a : nat) (cell cell' : plist.cell) :
  h !! a = Some cell -> stray_cell cell' = stray_cell cell ->
  strays (<[a := cell']> h) = strays h.
Proof.
  revert a. induction h as [|c h IH]; intros [|a] Ha Heq; try discriminate.
  - injection Ha as ->. cbn. now rewrite Heq.
  - cbn in Ha. change (<[S a := cell']> (c :: h)) with (c :: <[a := cell']> h).
    cbn [strays]. now rewrite (IH a Ha Heq).
Qed.

Lemma evolves_refl (h : plist.Heap) : evolves h h.
Proof. intros a cell Ha. eauto. Qed.

Lemma evolves_trans (h1 h2 h3 : plist.Heap) :
  evolves h1 h2 -> evolves h2 h3 -> evolves h1 h3.
Proof.
  intros H12 H23 a cell Ha.
  destruct (H12 a cell Ha) as (c2 & Ha2 & Hs2 & He2).
  destruct (H23 a c2 Ha2) as (c3 & Ha3 & Hs3 & He3).
  exists c3. split; [exact Ha3|]. split; [congruence|].
  intros Hs. rewrite He3 by congruence. now apply He2.
Qed.

Lemma evolves_app (h more : plist.Heap) : evolves h (h ++ more).
Proof.
  intros a cell Ha. exists cell. split; [|auto].
  rewrite lookup_app_l; [exact Ha|]. now apply lookup_lt_Some in Ha.
Qed.

Lemma evolves_insert (h : plist.Heap) (a : nat) (cell cell' : plist.cell) :
  h !! a = Some cell -> stray_cell cell = false -> stray_cell cell' = false ->
  evolves h (<[a := cell']> h).
Proof.
  intros Ha Hs Hs' b c Hb. destruct (decide (b = a)) as [->|Hne].
  - exists cell'. rewrite list_lookup_insert_eq by now apply lookup_lt_Some in Ha.
    split; [reflexivity|]. split; [congruence|]. intros Hc. congruence.
  - exists c. rewrite list_lookup_insert_ne by congruence. auto.
Qed.

Lemma clean_evolves (h h' : plist.Heap) (c : ptr) :
  evolves h h' -> clean h c -> clean h' c.
Proof.
  intros Hev. destruct c as [a|]; [|auto]. intros (cell & Ha & Hs).
  destruct (Hev a cell Ha) as (cell' & Ha' & Hs' & _).
  exists cell'. split; [exact Ha'|congruence].
Qed.

Lemma unreferenced_store_step (h h' : plist.Heap) :
  unreferenced_store h ->
  evolves h h' ->
  (forall a how o, h' !! a = Some (plist.Live how o) ->
     h !! a = Some (plist.Live how o) \/ Forall (clean h') (plist.children o)) ->
  unreferenced_store h'.
Proof.
  intros Hh Hev Hnew a how o Ha. destruct (Hnew a how o Ha) as [Hold|Hc]; [|exact Hc].
  eapply Forall_impl; [exact (Hh a how o Hold)|].
  intros c. now apply clean_evolves.
Qed.

Lemma unreferenced_evolves (p q : XMLParser) :
  unreferenced p ->
  evolves (heap p) (heap q) ->
  (forall a how o, heap q !! a = Some (plist.Live how o) ->
     heap p !! a = Some (plist.Live how o) \/
     Forall (clean (heap q)) (plist.children o)) ->
  _root q = _root p -> _stack q = _stack p ->
  current (_state q) = current (_state p) ->
  unreferenced q.
Proof.
  intros (Hh & Hr & Hc & Hst) Hev Hnew Hroot Hstack Hcur. unfold unreferenced.
  rewrite Hroot, Hstack, Hcur.
  split; [eapply unreferenced_store_step; eauto|].
  split; [eapply clean_evolves; eauto|].
  split; [eapply clean_evolves; eauto|].
  eapply Forall_impl; [exact Hst|]. intros s0. now apply clean_evolves.
Qed.

Lemma keeps_idle {A} (m : M A) : idle m -> keeps m.
Proof.
  intros Hm p a q Hrun Hp. destruct (Hm p a q Hrun) as (Hh & Hr & Hs & Hc).
  split; [|now rewrite Hh].
  apply (unreferenced_evolves p q Hp); try assumption.
  - rewrite Hh. apply evolves_refl.
  - intros b how o Hb. left. now rewrite <- Hh.
Qed.

Lemma keeps_bind {A B} (m : M A) (k : A -> M B) :
  keeps m -> (forall a, keeps (k a)) -> keeps (bind m k).
Proof.
  intros Hm Hk p b q Hrun Hp.
  apply bind_Returns in Hrun as (a & p' & Hm' & Hk').
  destruct (Hm _ _ _ Hm' Hp) as (Hp' & Hn').
  destruct (Hk _ _ _ _ Hk' Hp') as (Hq & Hn). split; [exact Hq|congruence].
Qed.

Lemma unreferenced_stray (p : XMLParser) :
  unreferenced p ->
  unreferenced
    (set_heap (heap p ++ [plist.Live plist.operator_new (plist.Dictionary [])]) p)
  /\ strays (heap p ++ [plist.Live plist.operator_new (plist.Dictionary [])])
     = S (strays (heap p)).
Proof.
  intros Hp. split; [|rewrite strays_app; cbn; lia].
  apply (unreferenced_evolves p); try assumption; try reflexivity.
  - apply evolves_app.
  - intros a how o Ha. cbn [heap set_heap] in Ha.
    destruct (decide (a < length (heap p))) as [Hlt|Hge].
    + left. now rewrite lookup_app_l in Ha.
    + right. rewrite lookup_app_r in Ha by lia.
      destruct (a - length (heap p)) as [|n]; [|destruct n; discriminate].
      injection Ha as <- <-. constructor.
Qed.

Lemma unreferenced_write (p : XMLParser) (a : nat) (o' : plist.Object) :
  unreferenced p ->
  clean (heap p) (Some a) ->
  Forall (clean (heap p)) (plist.children o') ->
  unreferenced (set_heap (plist.write a o' (heap p)) p) /\
  strays (plist.write a o' (heap p)) = strays (heap p).
Proof.
  intros Hp (cell & Ha & Hs) Hc. unfold plist.write. rewrite Ha.
  destruct cell as [how o|]; [|rewrite set_heap_id; auto].
  assert (Hev : evolves (heap p) (<[a := plist.Live how o']> (heap p))).
  { eapply evolves_insert; [exact Ha|exact Hs|exact Hs]. }
  split; [|eapply strays_insert; [exact Ha|reflexivity]].
  apply (unreferenced_evolves p); try assumption; try reflexivity.
  intros b how' o0 Hb. cbn [heap set_heap] in Hb.
  destruct (decide (b = a)) as [->|Hne].
  - right. rewrite list_lookup_insert_eq in Hb by now apply lookup_lt_Some in Ha.
    injection Hb as <- <-. eapply Forall_impl; [exact Hc|].
    intros c. now apply clean_evolves.
  - left. now rewrite list_lookup_insert_ne in Hb by congruence.
Qed.

(** A release leaves the cells of a bare [new] alone, when nothing refers to
    them. *)
Lemma destroy_evolves (fuel : nat) :
  forall (p : ptr) (h h' : plist.Heap),
    unreferenced_store h -> clean h p ->
    plist.destroy fuel p h = Some h' ->
    evolves h h' /\ strays h' = strays h /\
    (forall a how o, h' !! a = Some (plist.Live how o) ->
                     h !! a = Some (plist.Live how o)).
Proof.
  induction fuel as [|fuel IH]; intros p h h' Hh Hp Hrun; [discriminate|].
  cbn [plist.destroy] in Hrun. destruct p as [a|]; [|discriminate].
  destruct (h !! a) as [[how o|]|] eqn:Ha; try discriminate.
  destruct Hp as (cell & Ha' & Hs). rewrite Ha in Ha'. injection Ha' as <-.
  set (h1 := <[a := plist.Freed]> h) in *.
  assert (Hev1 : evolves h h1) by (eapply evolves_insert; eauto).
  assert (Hn1 : strays h1 = strays h) by (eapply strays_insert; eauto).
  assert (Hl1 : forall b how' o', h1 !! b = Some (plist.Live how' o') ->
                                  h !! b = Some (plist.Live how' o')).
  { intros b how' o' Hb. unfold h1 in Hb. destruct (decide (b = a)) as [->|Hne].
    - rewrite list_lookup_insert_eq in Hb by now apply lookup_lt_Some in Ha.
      discriminate.
    - now rewrite list_lookup_insert_ne in Hb by congruence. }
  assert (Hh1 : unreferenced_store h1).
  { eapply unreferenced_store_step; [exact Hh|exact Hev1|]. intros b how' o' Hb.
    left. now apply Hl1. }
  assert (Hc1 : Forall (clean h1) (plist.children o)).
  { eapply Forall_impl; [exact (Hh a how o Ha)|]. intros c.
    now apply clean_evolves. }
  clearbody h1. clear Ha Hs.
  revert Hrun Hev1 Hn1 Hl1 Hh1 Hc1. generalize (plist.children o). intros ps.
  revert h1. induction ps as [|c ps IHps]; intros h1 Hrun Hev1 Hn1 Hl1 Hh1 Hc1.
  - cbn in Hrun. injection Hrun as <-. auto.
  - cbn [plist.release_all] in Hrun.
    destruct (plist.destroy fuel c h1) as [h2|] eqn:Hc; [|discriminate].
    apply Forall_cons in Hc1 as [Hcc Hcps].
    destruct (IH c h1 h2 Hh1 Hcc Hc) as (Hev2 & Hn2 & Hl2).
    apply (IHps h2 Hrun).
    + eapply evolves_trans; eauto.
    + congruence.
    + intros b how' o' Hb. apply Hl1, Hl2, Hb.
    + eapply unreferenced_store_step; [exact Hh1|exact Hev2|].
      intros b how' o' Hb. left. now apply Hl2.
    + eapply Forall_impl; [exact Hcps|]. intros c'. now apply clean_evolves.
Qed.

Lemma unreferenced_release (p q : XMLParser) (this : ptr) :
  unreferenced p -> clean (heap p) this ->
  Object_release this p = Returns tt q ->
  unreferenced q /\ strays (heap q) = strays (heap p) /\
  evolves (heap p) (heap q) /\ same_parser p q.
Proof.
  intros Hp Hthis Hrun. pose proof (Object_release_same _ _ _ Hrun) as Hsame.
  unfold Object_release, on_heap in Hrun.
  destruct (plist.release this (heap p)) as [h'|] eqn:Hrel; [|discriminate].
  injection Hrun as <-. pose proof Hp as (Hh & _).
  destruct (destroy_evolves _ _ _ _ Hh Hthis Hrel) as (Hev & Hn & Hl).
  cbn [heap set_heap]. split; [|auto].
  apply (unreferenced_evolves p); try assumption; try reflexivity.
  intros a how o Ha. left. now apply Hl.
Qed.

Lemma keeps_begin (o : plist.Object) (rest : M bool) :
  plist.children o = [] -> idle rest ->
  keeps (x <- New o ;; push x ;; rest).
Proof.
  intros Hleaf Hrest p b q Hrun Hp.
  apply bind_Returns in Hrun as (x & p1 & Hnew & Hrun).
  apply bind_Returns in Hrun as ([] & p2 & Hpush & Hrun).
  injection Hnew as <- <-. rewrite push_unfold in Hpush.
  assert (Hp2 : unreferenced p2 /\ strays (heap p2) = strays (heap p));
    [|destruct Hp2 as [Hp2 Hn2];
      destruct (keeps_idle rest Hrest _ _ _ Hrun Hp2) as [Hq Hnq];
      split; [exact Hq|congruence]].
  injection Hpush as <-. clear Hrun Hrest rest b q.
  destruct Hp as (Hh & Hr & Hc & Hst).
  set (n := length (heap p)). set (h' := heap p ++ [plist.Live plist.factory o]).
  assert (Hev : evolves (heap p) h') by apply evolves_app.
  assert (Hn : clean h' (Some n)).
  { exists (plist.Live plist.factory o). split; [|reflexivity].
    unfold h', n. rewrite lookup_app_r by lia. now rewrite Nat.sub_diag. }
  assert (Hh' : unreferenced_store h').
  { eapply unreferenced_store_step; [exact Hh|exact Hev|].
    intros a how o0 Ha. unfold h' in Ha.
    destruct (decide (a < length (heap p))) as [Hlt|Hge].
    - left. now rewrite lookup_app_l in Ha.
    - right. rewrite lookup_app_r in Ha by lia.
      destruct (a - length (heap p)) as [|k]; [|destruct k; discriminate].
      injection Ha as <- <-. rewrite Hleaf. constructor. }
  assert (Hst' : Forall (fun s0 => clean h' (current s0)) (_stack p)).
  { eapply Forall_impl; [exact Hst|]. intros s0. now apply clean_evolves. }
  assert (Hc' : clean h' (current (_state p))) by (eapply clean_evolves; eauto).
  assert (Hr' : clean h' (_root p)) by (eapply clean_evolves; eauto).
  assert (Hcount : strays h' = strays (heap p))
    by (unfold h'; rewrite strays_app; cbn; lia).
  destruct p as [e s d r [c k] st cd h]. cbn in *.
  unfold unreferenced. destruct c as [c|], r as [r|]; cbn;
    (split; [|exact Hcount]);
    repeat split; try assumption; try (apply Forall_app; split; [assumption|]);
    try (constructor; [assumption|constructor]).
Qed.

Lemma clean_replace_entry (h : plist.Heap) (k : string) (v : ptr)
    (entries : list (string * ptr)) :
  clean h v -> Forall (clean h) (map snd entries) ->
  Forall (clean h) (map snd (plist.replace_entry k v entries)).
Proof.
  intros Hv. induction entries as [|[k' v'] entries IH]; [auto|].
  cbn. intros Hall. apply Forall_cons in Hall as [Hv' Hall].
  destruct (String.eqb k' k); cbn; constructor; auto.
Qed.

Lemma find_entry_elem (k : string) (entries : list (string * ptr)) (old : ptr) :
  plist.find_entry k entries = Some old -> old ∈ map snd entries.
Proof.
  induction entries as [|[k' v'] entries IH]; [discriminate|].
  cbn. destruct (String.eqb k' k).
  - intros [= ->]. left.
  - intros Hf. right. now apply IH.
Qed.

(** The attachment of [pop] writes pointers that the parser held. *)
Lemma unreferenced_attach (old : State) (p q : XMLParser) :
  unreferenced p -> clean (heap p) (current old) ->
  attach old p = Returns tt q ->
  unreferenced q /\ strays (heap q) = strays (heap p).
Proof.
  intros Hp Hold. unfold attach. run.
  pose proof Hp as (Hh & _ & Hc & _).
  destruct (plist.CastTo plist.kArray (heap p) (current (_state p)))
    as [array|] eqn:Ha.
  - apply CastTo_Some in Ha as (Hcur & o & Hr & Ht).
    unfold Array_append, member. run. rewrite Hr.
    destruct o; try discriminate. intros [= <-].
    apply read_lookup in Hr as [how Hl]. rewrite Hcur in Hc.
    apply unreferenced_write; [exact Hp|exact Hc|].
    cbn [plist.children]. apply Forall_app. split; [|now constructor].
    exact (Hh _ _ _ Hl).
  - destruct (plist.CastTo plist.kDictionary (heap p) (current (_state p)))
      as [dict|] eqn:Hd; [|intros [= <-]; auto].
    destruct (negb (isExpectingKey p)); [|intros [= <-]; auto].
    apply CastTo_Some in Hd as (Hcur & o & Hr & Ht).
    unfold Dictionary_set, member. run. rewrite Hr.
    destruct o; try discriminate.
    apply read_lookup in Hr as [how Hl]. rewrite Hcur in Hc.
    pose proof (Hh _ _ _ Hl) as Hentries. cbn [plist.children] in Hentries.
    destruct (plist.find_entry (value (key (_state p))) entries) as [old'|] eqn:Hf.
    + destruct (Object_release old' p) as [[] p1| |] eqn:Hrel; try discriminate.
      intros [= <-].
      assert (Hold' : clean (heap p) old').
      { rewrite Forall_forall in Hentries. apply Hentries.
        eapply find_entry_elem; eauto. }
      destruct (unreferenced_release _ _ _ Hp Hold' Hrel) as (Hp1 & Hn1 & Hev & Hsame).
      destruct (unreferenced_write p1 dict
                  (plist.Dictionary
                     (plist.replace_entry (value (key (_state p))) (current old)
                        entries)) Hp1) as (Hq & Hnq).
      { eapply clean_evolves; eauto. }
      { cbn [plist.children]. apply clean_replace_entry.
        - eapply clean_evolves; eauto.
        - eapply Forall_impl; [exact Hentries|]. intros c.
          now apply clean_evolves. }
      cbn [heap set_state set_heap]. split; [|congruence].
      destruct Hq as (? & ? & ? & ?). repeat split; assumption.
    + intros [= <-].
      destruct (unreferenced_write p dict
                  (plist.Dictionary
                     (entries ++ [(value (key (_state p)), current old)])) Hp Hc)
        as (Hq & Hnq).
      { cbn [plist.children]. rewrite map_app. apply Forall_app.
        split; [exact Hentries|now constructor]. }
      cbn [heap set_state set_heap]. split; [|exact Hnq].
      destruct Hq as (? & ? & ? & ?). repeat split; assumption.
Qed.

Lemma keeps_pop : keeps pop.
Proof.
  intros p [] q Hrun Hp. rewrite pop_unfold in Hrun.
  destruct (_ && _).
  { injection Hrun as <-. destruct Hp as (? & ? & ? & ?).
    split; [repeat split; assumption|reflexivity]. }
  destruct (ptr_eqb _ _).
  { injection Hrun as <-. destruct Hp as (? & ? & ? & ?).
    split; [repeat split; assumption|reflexivity]. }
  destruct (last (_stack p)) as [top|] eqn:Hlast; [|discriminate].
  destruct (attach (_state p) (restore top p)) as [[] q'| |] eqn:Hatt;
    try discriminate.
  injection Hrun as <-.
  pose proof Hp as (Hh & Hr & Hc & Hst).
  rewrite (removelast_nonempty _ _ Hlast) in Hst.
  apply Forall_app in Hst as [Hst Htop]. apply Forall_inv in Htop.
  assert (Hp' : unreferenced (restore top p)).
  { unfold unreferenced, restore. cbn. auto. }
  destruct (unreferenced_attach _ _ _ Hp' Hc Hatt) as (Hq & Hn).
  split; [|exact Hn]. destruct Hq as (? & ? & ? & ?).
  repeat split; assumption.
Qed.

(** A setter of a leaf value, called on the current node. *)
Lemma unreferenced_setter (p q : XMLParser) (this : ptr)
    (body : nat -> plist.Object -> M unit) :
  unreferenced p ->
  this = None \/ this = current (_state p) ->
  (forall a o p' q', body a o p' = Returns tt q' ->
     exists o', plist.children o' = [] /\
                q' = set_heap (plist.write a o' (heap p')) p') ->
  member this body p = Returns tt q ->
  unreferenced q /\ strays (heap q) = strays (heap p).
Proof.
  intros Hp Hthis Hbody Hrun. unfold member in Hrun.
  destruct this as [a|]; [|discriminate].
  destruct Hthis as [Hthis|Hthis]; [discriminate|].
  revert Hrun. run. destruct (plist.read (heap p) a) as [o|]; [|discriminate].
  intros Hrun. destruct (Hbody _ _ _ _ Hrun) as (o' & Hleaf & ->).
  pose proof Hp as (_ & _ & Hc & _). rewrite <- Hthis in Hc.
  apply unreferenced_write; [exact Hp|exact Hc|]. rewrite Hleaf. constructor.
Qed.

Ltac leaf_body :=
  let a := fresh in let o := fresh in
  intros a o ? ?; destruct o; try discriminate; intros [= <-];
  eexists; split; [|reflexivity]; reflexivity.

Lemma keeps_then_pop (m : M unit) (p : XMLParser) (b : bool) (q : XMLParser) :
  (forall p1, m p = Returns tt p1 ->
              unreferenced p1 /\ strays (heap p1) = strays (heap p)) ->
  (m ;; pop ;; ret true) p = Returns b q ->
  unreferenced q /\ strays (heap q) = strays (heap p).
Proof.
  intros Hm Hrun. apply bind_Returns in Hrun as ([] & p1 & Hset & Hrun).
  apply bind_Returns in Hrun as ([] & q' & Hpop & [= _ <-]).
  destruct (Hm _ Hset) as (Hp1 & Hn1).
  destruct (keeps_pop _ _ _ Hpop Hp1) as (Hq & Hn). split; [exact Hq|congruence].
Qed.

Lemma keeps_beginObject (name : string) : keeps (beginObject name).
Proof.
  unfold beginObject. apply keeps_bind; [apply keeps_idle, idle_get|]. intros p.
  cbv zeta.
  assert (Hvalue : keeps
            (if negb (inContainer p) then error (not_in_container name) ;; ret false
             else if String.eqb name "array" then beginArray
             else if String.eqb name "dict" then beginDictionary
             else if String.eqb name "string" then beginString
             else if String.eqb name "integer" then beginInteger
             else if String.eqb name "real" then beginReal
             else if String.eqb name "true" then beginBoolean true
             else if String.eqb name "false" then beginBoolean false
             else if String.eqb name "null" then beginNull
             else if String.eqb name "data" then beginData
             else if String.eqb name "date" then beginDate
             else error (unexpected_element name) ;; ret false)).
  { repeat match goal with
           | |- keeps (if ?c then _ else _) => destruct c
           end;
      try solve [apply keeps_idle; idle_all];
      unfold beginArray, beginDictionary, beginString, beginInteger, beginReal,
        beginBoolean, beginNull, beginData, beginDate;
      (apply keeps_begin; [reflexivity|idle_all]). }
  destruct (inDictionary p); [|exact Hvalue].
  destruct (String.eqb name "key").
  - destruct (negb (isExpectingKey p)); apply keeps_idle;
      [idle_all|unfold beginKey; idle_all].
  - destruct (isExpectingKey p); [apply keeps_idle; idle_all|exact Hvalue].
Qed.

Lemma keeps_endObject (name : string) : keeps (endObject name).
Proof.
  intros p b q Hrun Hp. revert Hrun. unfold endObject.
  repeat match goal with
         | |- (if ?c then _ else _) p = _ -> _ => destruct c
         end;
    unfold endKey, endArray, endDictionary, endBoolean, endNull;
    try solve [intros Hrun; apply (keeps_then_pop (ret tt) p b q);
               [intros p1 [= <-]; auto|exact Hrun]];
    try solve [intros Hrun; refine (keeps_idle _ _ _ _ _ Hrun Hp); idle_all].
  - (* string *)
    unfold endString. intros Hrun.
    apply bind_Returns in Hrun as (p0 & p1 & [= <- <-] & Hrun).
    eapply keeps_then_pop; [|exact Hrun]. intros p1.
    apply unreferenced_setter; [exact Hp|apply CastTo_cases|leaf_body].
  - (* integer *)
    unfold endInteger. intros Hrun.
    apply bind_Returns in Hrun as (p0 & p1 & [= <- <-] & Hrun).
    apply bind_Returns in Hrun as (v & p2 & Hconv & Hrun).
    destruct (stoi (_cdata p)); [|discriminate]. injection Hconv as <- <-.
    eapply keeps_then_pop; [|exact Hrun]. intros p1.
    apply unreferenced_setter; [exact Hp|apply CastTo_cases|leaf_body].
  - (* real *)
    unfold endReal. intros Hrun.
    apply bind_Returns in Hrun as (p0 & p1 & [= <- <-] & Hrun).
    apply bind_Returns in Hrun as (d & p2 & Hconv & Hrun).
    destruct (stod (_cdata p)); [|discriminate]. injection Hconv as <- <-.
    eapply keeps_then_pop; [|exact Hrun]. intros p1.
    destruct (plist.CastTo plist.kInteger (heap p) (current (_state p)))
      as [this|] eqn:Hcast; [|discriminate].
    destruct (int64_of_double v) as [z|]; [|discriminate].
    rewrite <- Hcast.
    apply unreferenced_setter; [exact Hp|apply CastTo_cases|leaf_body].
  - (* data *)
    unfold endData. intros Hrun.
    apply bind_Returns in Hrun as (p0 & p1 & [= <- <-] & Hrun).
    eapply keeps_then_pop; [|exact Hrun]. intros p1.
    apply unreferenced_setter; [exact Hp|apply CastTo_cases|leaf_body].
  - (* date *)
    unfold endDate. intros Hrun.
    apply bind_Returns in Hrun as (p0 & p1 & [= <- <-] & Hrun).
    eapply keeps_then_pop; [|exact Hrun]. intros p1.
    apply unreferenced_setter; [exact Hp|apply CastTo_cases|leaf_body].
Qed.

Lemma keeps_stop_on_failure (m : M bool) :
  keeps m -> keeps (ok <- m ;; when (negb ok) stop).
Proof.
  intros Hm. apply keeps_bind; [exact Hm|]. intros ok. apply keeps_idle. idle_all.
Qed.

(** Every start event leaves one more dictionary of a bare [new]. *)
Lemma onStartElement_strays (name : string) (attrs : string_map) (depth : nat)
    (p q : XMLParser) :
  unreferenced p ->
  onStartElement name attrs depth p = Returns tt q ->
  unreferenced q /\ strays (heap q) = S (strays (heap p)).
Proof.
  intros Hp Hrun. unfold onStartElement in Hrun.
  apply bind_Returns in Hrun as (dict & p1 & [= _ <-] & Hrun).
  destruct (unreferenced_stray p Hp) as (Hp1 & Hn1).
  assert (Hkeeps : keeps
            (if depth =? 0
             then when (negb (String.eqb name "plist")) (error (expecting_plist name))
             else
               p <- get ;;
               if (depth =? 1) && negb (is_null (_root p))
               then error (after_root name)
               else ok <- beginObject name ;; when (negb ok) stop)).
  { destruct (depth =? 0); [apply keeps_idle; idle_all|].
    apply keeps_bind; [apply keeps_idle, idle_get|]. intros p0.
    destruct (_ && _); [apply keeps_idle; idle_all|].
    apply keeps_stop_on_failure, keeps_beginObject. }
  destruct (Hkeeps _ _ _ Hrun Hp1) as (Hq & Hn). split; [exact Hq|].
  rewrite Hn. exact Hn1.
Qed.

Lemma keeps_onEndElement (name : string) (depth : nat) :
  keeps (onEndElement name depth).
Proof. apply keeps_stop_on_failure, keeps_endObject. Qed.

Lemma keeps_onCharacterData (cdata : string) (depth : nat) :
  keeps (onCharacterData cdata depth).
Proof.
  unfold onCharacterData. apply keeps_bind; [apply keeps_idle, idle_get|].
  intros p. destruct (negb (isExpectingCDATA p)); apply keeps_idle;
    [apply idle_reject_cdata|idle_all].
Qed.

Lemma deliver_strays (e : event) (p q : XMLParser) :
  unreferenced p ->
  deliver e p = Returns tt q ->
  unreferenced q /\ strays (heap q) = starts [e] + strays (heap p).
Proof.
  intros Hp. unfold deliver. intros Hrun.
  apply bind_Returns in Hrun as (d & p0 & [= <- <-] & Hrun).
  destruct e as [name attrs|text|name]; cbn [starts].
  - apply bind_Returns in Hrun as ([] & q' & Hrun & [= <-]).
    destruct (onStartElement_strays _ _ _ _ _ Hp Hrun) as (Hq & Hn).
    split; [|exact Hn]. destruct Hq as (? & ? & ? & ?). repeat split; assumption.
  - exact (keeps_onCharacterData _ _ _ _ _ Hrun Hp).
  - apply bind_Returns in Hrun as ([] & p1 & [= <-] & Hrun).
    assert (Hp1 : unreferenced (set_depth (pred (_depth p)) p)).
    { destruct Hp as (? & ? & ? & ?). repeat split; assumption. }
    exact (keeps_onEndElement _ _ _ _ _ Hrun Hp1).
Qed.

Lemma starts_app (l1 l2 : list event) : starts (l1 ++ l2) = starts l1 + starts l2.
Proof.
  induction l1 as [|[| |] l1 IH]; cbn; rewrite ?IH; reflexivity.
Qed.

Lemma starts_events_of (x : xml) : starts (events_of x) = elements x.
Proof.
  induction x as [name attrs content IH|text] using xml_induction; [|reflexivity].
  cbn [events_of starts elements]. rewrite starts_app. cbn [starts].
  rewrite Nat.add_0_r. f_equal.
  induction IH as [|c content Hc _ IHl]; [reflexivity|].
  change (flat_map events_of (c :: content))
    with (events_of c ++ flat_map events_of content).
  change (list_sum (map elements (c :: content)))
    with (elements c + list_sum (map elements content)).
  rewrite starts_app. congruence.
Qed.

Lemma deliver_all_strays (events : list event) (p q : XMLParser) :
  unreferenced p ->
  deliver_all events p = Returns tt q ->
  unreferenced q /\
  strays (heap p) <= strays (heap q) /\
  (_stopped q = false -> strays (heap q) = strays (heap p) + starts events).
Proof.
  revert p. induction events as [|e events IH]; intros p Hp Hrun.
  - injection Hrun as <-. cbn. split; [exact Hp|]. split; lia.
  - pose proof Hrun as Hrun'. rewrite deliver_all_cons in Hrun.
    destruct (_stopped p) eqn:Hs.
    { injection Hrun as <-. split; [exact Hp|]. split; [lia|]. congruence. }
    destruct (deliver e p) as [[] p1| |] eqn:He; try discriminate.
    destruct (deliver_strays _ _ _ Hp He) as (Hp1 & Hn1).
    destruct (IH p1 Hp1 Hrun) as (Hq & Hle & Heq).
    split; [exact Hq|]. split; [lia|]. intros Hsq. rewrite (Heq Hsq), Hn1.
    change (e :: events) with ([e] ++ events). rewrite starts_app. lia.
Qed.

Lemma release_frames_strays (frames : list State) (p q : XMLParser) :
  unreferenced p ->
  Forall (fun s => clean (heap p) (current s)) frames ->
  release_frames frames p = Returns tt q ->
  unreferenced q /\ strays (heap q) = strays (heap p) /\ same_parser p q.
Proof.
  revert p. induction frames as [|f frames IH]; intros p Hp Hclean Hrun.
  - injection Hrun as <-. split; [exact Hp|]. split; [reflexivity|].
    apply same_parser_refl.
  - cbn [release_frames] in Hrun.
    apply bind_Returns in Hrun as (p0 & p1 & [= <- <-] & Hrun).
    apply bind_Returns in Hrun as ([] & p1 & Hrel & Hrun).
    apply Forall_cons in Hclean as [Hf Hfs].
    assert (H1 : unreferenced p1 /\ strays (heap p1) = strays (heap p) /\
                 evolves (heap p) (heap p1) /\ same_parser p p1).
    { destruct (_ && _); cbn [when] in Hrel.
      - now apply (unreferenced_release p p1 (current f)).
      - injection Hrel as <-. split; [exact Hp|]. split; [reflexivity|].
        split; [apply evolves_refl|apply same_parser_refl]. }
    destruct H1 as (Hp1 & Hn1 & Hev & Hsame).
    destruct (IH p1 Hp1) with (2 := Hrun) as (Hq & Hn & Hsame').
    { eapply Forall_impl; [exact Hfs|]. intros s0. now apply clean_evolves. }
    split; [exact Hq|]. split; [congruence|].
    eapply same_parser_trans; eauto.
Qed.

Lemma keeps_onEndParse (success : bool) : keeps (onEndParse success).
Proof.
  intros p [] q Hrun Hp. unfold onEndParse in Hrun.
  apply bind_Returns in Hrun as ([] & p1 & Hrun & [= <-]).
  assert (Hp1 : unreferenced p1 /\ strays (heap p1) = strays (heap p)).
  { destruct success; cbn [negb when] in Hrun.
    - injection Hrun as <-. auto.
    - apply bind_Returns in Hrun as (p0 & p2 & [= <- <-] & Hrun).
      apply bind_Returns in Hrun as ([] & p2 & Hcur & Hrun).
      apply bind_Returns in Hrun as ([] & p3 & Hframes & Hrun).
      apply bind_Returns in Hrun as ([] & p4 & [= <-] & Hrun).
      pose proof Hp as (_ & Hr & Hc & Hst).
      assert (H2 : unreferenced p2 /\ strays (heap p2) = strays (heap p) /\
                   evolves (heap p) (heap p2) /\ same_parser p p2).
      { destruct (_ && _); cbn [when] in Hcur.
        - exact (unreferenced_release p p2 _ Hp Hc Hcur).
        - injection Hcur as <-. split; [exact Hp|]. split; [reflexivity|].
          split; [apply evolves_refl|apply same_parser_refl]. }
      destruct H2 as (Hp2 & Hn2 & Hev2 & Hsame2).
      destruct (release_frames_strays (_stack p) p2 p3 Hp2) with (2 := Hframes)
        as (Hp3 & Hn3 & Hsame3).
      { eapply Forall_impl; [exact Hst|]. intros s0. now apply clean_evolves. }
      assert (Hp3' : unreferenced (set_stack [] p3)).
      { destruct Hp3 as (? & ? & ? & ?). repeat split; try assumption. constructor. }
      assert (Hroot3 : _root p3 = _root p).
      { rewrite Hsame3. cbn [_root set_heap]. rewrite Hsame2. reflexivity. }
      destruct (is_null (_root p)) eqn:Hnull; cbn [negb when] in Hrun.
      + injection Hrun as <-. split; [exact Hp3'|]. cbn [heap set_stack]. congruence.
      + apply bind_Returns in Hrun as ([] & p5 & Hrel & [= <-]).
        assert (Hroot : clean (heap (set_stack [] p3)) (_root p)).
        { destruct Hp3 as (_ & Hr3 & _). cbn [heap set_stack]. now rewrite <- Hroot3. }
        destruct (unreferenced_release _ _ _ Hp3' Hroot Hrel)
          as ((? & ? & ? & ?) & Hn5 & _).
        split; [repeat split; assumption|]. cbn [heap set_root]. rewrite Hn5.
        cbn [heap set_stack]. congruence. }
  destruct Hp1 as ((? & ? & ? & ?) & Hn1). cbn [heap set_cdata set_state].
  split; [|exact Hn1]. repeat split; assumption.
Qed.

Lemma unreferenced_new : unreferenced XMLParser_new.
Proof.
  unfold unreferenced, unreferenced_store. cbn. repeat split; try constructor.
  intros a how o Ha. now rewrite lookup_nil in Ha.
Qed.

(** X18 — the dictionary of [onStartElement] is never released.  Every
    start event allocates a [Dictionary] with a bare [new] that nothing
    refers to, and no handler, and no release of a node, ever frees such a
    cell.  So, on a parser in which nothing refers to such cells (a fresh
    parser is one, and every parse keeps it so), a call of [parse] never
    lowers their number; a parse that returns a node leaves exactly one more
    for each element of the document, the [plist] wrapper included; and a
    parse of a document with an element leaves at least one more, whether it
    returns a node or null. *)
Theorem every_element_leaks_a_dictionary (p : XMLParser) (fp : xml) (r : ptr)
    (q : XMLParser) :
  unreferenced p ->
  parse_fp fp p = Returns r q ->
  unreferenced q /\
  strays (heap p) <= strays (heap q) /\
  (r <> nullptr -> strays (heap q) = strays (heap p) + elements fp) /\
  (_root p = nullptr -> 1 <= elements fp -> strays (heap p) < strays (heap q)).
Proof.
  intros Hp Hrun. destruct (_root p) as [r0|] eqn:Hroot.
  { unfold parse_fp in Hrun. revert Hrun. run. rewrite Hroot. intros [= <- <-].
    split; [exact Hp|]. split; [lia|]. split; [congruence|discriminate]. }
  rewrite parse_fp_unfold in Hrun by exact Hroot.
  assert (Hb : unreferenced (begin p)).
  { destruct Hp as (? & ? & ? & ?). unfold begin. repeat split; assumption. }
  destruct (deliver_all (events_of fp) (begin p)) as [[] q0| |] eqn:Hevents;
    try discriminate.
  destruct (deliver_all_strays _ _ _ Hb Hevents) as (Hq0 & Hle & Heq).
  destruct (onEndParse (negb (_stopped q0)) q0) as [[] q1| |] eqn:Hend;
    try discriminate.
  destruct (keeps_onEndParse _ _ _ _ Hend Hq0) as (Hq1 & Hn1).
  change (heap (begin p)) with (heap p) in *.
  assert (Hq : q = q1) by (destruct (_stopped q0); congruence). subst q1.
  split; [exact Hq1|]. split; [lia|]. split.
  - intros Hr. destruct (_stopped q0) eqn:Hs; [congruence|].
    rewrite Hn1, (Heq eq_refl). now rewrite starts_events_of.
  - intros _ Hone. destruct fp as [name attrs content|text]; [|cbn in Hone; lia].
    cbn [events_of] in Hevents. rewrite deliver_all_cons in Hevents.
    change (_stopped (begin p)) with false in Hevents. cbv iota in Hevents.
    destruct (deliver (StartElement name attrs) (begin p)) as [[] p1| |] eqn:Hstart;
      try discriminate.
    destruct (deliver_strays _ _ _ Hb Hstart) as (Hp1 & Hn).
    destruct (deliver_all_strays _ _ _ Hp1 Hevents) as (_ & Hle1 & _).
    cbn [starts] in Hn. change (heap (begin p)) with (heap p) in Hn. lia.
Qed.

(** *** Data and date nodes *)

Lemma calm_ret {A} (a : A) : calm (ret a).
Proof. intros p a' q [= <- <-]. auto. Qed.

Lemma calm_bind {A B} (m : M A) (k : A -> M B) :
  calm m -> (forall a, calm (k a)) -> calm (bind m k).
Proof.
  intros Hm Hk p b q Hrun. apply bind_Returns in Hrun as (a & p' & Hm' & Hk').
  destruct (Hm _ _ _ Hm') as (? & ? & ?).
  destruct (Hk _ _ _ _ Hk') as (? & ? & ?).
  repeat split; congruence.
Qed.

Lemma calm_modify (f : XMLParser -> XMLParser) :
  (forall p, heap (f p) = heap p /\
             current (_state (f p)) = current (_state p) /\
             _cdata (f p) = _cdata p) ->
  calm (modify f).
Proof. intros Hf p [] q [= <-]. apply Hf. Qed.

Lemma calm_get : calm get.
Proof. intros p a q [= <- <-]. auto. Qed.

Lemma calm_when (b : bool) (m : M unit) : calm m -> calm (when b m).
Proof. intros Hm. destruct b; [exact Hm|apply calm_ret]. Qed.

Lemma calm_reject_cdata (cdata : string) : calm (reject_cdata cdata).
Proof.
  intros p [] q. rewrite reject_cdata_spec. intros [= <-].
  destruct (unexpected cdata); cbn; auto.
Qed.

Ltac calm_step :=
  first
    [ apply calm_ret
    | apply calm_get
    | apply calm_reject_cdata
    | apply calm_modify; intros ?; repeat split; reflexivity
    | apply calm_when
    | apply calm_bind; [|intros ?]
    | match goal with
      | |- calm (if ?b then _ else _) => destruct b
      end ].

Ltac calm_all := unfold error, stop; repeat calm_step.

Lemma keeps_blank_calm {A} (m : M A) : calm m -> keeps_blank m.
Proof.
  intros Hm p a q Hrun Hb Hu. destruct (Hm _ _ _ Hrun) as (Hh & Hc & Hcd).
  split; [now rewrite Hh|]. unfold unbuffered. rewrite Hh, Hc, Hcd. exact Hu.
Qed.

Lemma keeps_blank_bind {A B} (m : M A) (k : A -> M B) :
  keeps_blank m -> (forall a, keeps_blank (k a)) -> keeps_blank (bind m k).
Proof.
  intros Hm Hk p b q Hrun Hb Hu.
  apply bind_Returns in Hrun as (a & p' & Hm' & Hk').
  destruct (Hm _ _ _ Hm' Hb Hu) as (Hb' & Hu').
  exact (Hk _ _ _ _ Hk' Hb' Hu').
Qed.

Lemma unbuffered_empty (p : XMLParser) : _cdata p = "" -> unbuffered p.
Proof. intros Hcd a o _ _ _. exact Hcd. Qed.

Lemma blank_app (h : plist.Heap) (how : plist.allocation) (o : plist.Object) :
  blank h -> textless o -> blank (h ++ [plist.Live how o]).
Proof.
  intros Hb Ho a o' Hr. unfold plist.read in Hr.
  destruct (decide (a < length h)) as [Hlt|Hge].
  - rewrite lookup_app_l in Hr by exact Hlt. exact (Hb a o' Hr).
  - rewrite lookup_app_r in Hr by lia.
    destruct (a - length h) as [|n]; [|destruct n; discriminate].
    cbn in Hr. now injection Hr as <-.
Qed.

Lemma blank_write (h : plist.Heap) (a : nat) (o : plist.Object) :
  blank h -> textless o -> blank (plist.write a o h).
Proof.
  intros Hb Ho b o' Hr. unfold plist.write in Hr.
  destruct (h !! a) as [[how o0|]|] eqn:Ha; try exact (Hb b o' Hr).
  unfold plist.read in Hr. destruct (decide (b = a)) as [->|Hne].
  - rewrite list_lookup_insert_eq in Hr by now apply lookup_lt_Some in Ha.
    now injection Hr as <-.
  - rewrite list_lookup_insert_ne in Hr by congruence. exact (Hb b o' Hr).
Qed.

(** A release only frees cells. *)
Lemma destroy_frees (fuel : nat) :
  forall (p : ptr) (h h' : plist.Heap),
    plist.destroy fuel p h = Some h' ->
    forall a o, plist.read h' a = Some o -> plist.read h a = Some o.
Proof.
  induction fuel as [|fuel IH]; intros p h h' Hrun; [discriminate|].
  cbn [plist.destroy] in Hrun. destruct p as [a|]; [|discriminate].
  destruct (h !! a) as [[how o|]|] eqn:Ha; try discriminate.
  assert (H1 : forall b o', plist.read (<[a := plist.Freed]> h) b = Some o' ->
                            plist.read h b = Some o').
  { intros b o'. unfold plist.read. destruct (decide (b = a)) as [->|Hne].
    - rewrite list_lookup_insert_eq by now apply lookup_lt_Some in Ha.
      discriminate.
    - now rewrite list_lookup_insert_ne by congruence. }
  revert Hrun H1. generalize (<[a := plist.Freed]> h). generalize (plist.children o).
  intros ps. induction ps as [|c ps IHps]; intros h1 Hrun H1.
  - cbn in Hrun. injection Hrun as <-. exact H1.
  - cbn [plist.release_all] in Hrun.
    destruct (plist.destroy fuel c h1) as [h2|] eqn:Hc; [|discriminate].
    apply (IHps h2 Hrun). intros b o' Hb. apply H1. exact (IH _ _ _ Hc b o' Hb).
Qed.

Lemma blank_release (p q : XMLParser) (this : ptr) :
  blank (heap p) -> Object_release this p = Returns tt q ->
  blank (heap q) /\ same_parser p q.
Proof.
  intros Hb Hrun. pose proof (Object_release_same _ _ _ Hrun) as Hsame.
  split; [|exact Hsame]. unfold Object_release, on_heap in Hrun.
  destruct (plist.release this (heap p)) as [h'|] eqn:Hrel; [|discriminate].
  injection Hrun as <-. intros a o Hr. cbn [heap set_heap] in Hr.
  exact (Hb a o (destroy_frees _ _ _ _ Hrel a o Hr)).
Qed.

Lemma read_fresh_one (h : plist.Heap) (how : plist.allocation) (o : plist.Object) :
  plist.read (h ++ [plist.Live how o]) (length h) = Some o.
Proof.
  unfold plist.read. rewrite lookup_app_r by lia. now rewrite Nat.sub_diag.
Qed.

Lemma textless_other (o : plist.Object) : dataish o = false -> textless o.
Proof. destruct o; cbn; auto; discriminate. Qed.

Lemma no_text_stray (p : XMLParser) :
  blank (heap p) -> unbuffered p ->
  let p' := set_heap (heap p ++ [plist.Live plist.operator_new (plist.Dictionary [])]) p in
  blank (heap p') /\ unbuffered p'.
Proof.
  intros Hb Hu. cbn zeta. split; [apply blank_app; [exact Hb|exact I]|].
  intros a o Hc Hr Hd. cbn [heap _state _cdata set_heap] in *.
  destruct (decide (a < length (heap p))) as [Hlt|Hge].
  - rewrite read_below in Hr by exact Hlt. exact (Hu a o Hc Hr Hd).
  - unfold plist.read in Hr. rewrite lookup_app_r in Hr by lia.
    destruct (a - length (heap p)) as [|n]; [|destruct n; discriminate].
    cbn in Hr. injection Hr as <-. discriminate.
Qed.

Lemma keeps_blank_begin_leaf (o : plist.Object) :
  textless o ->
  keeps_blank (x <- New o ;; push x ;; modify (set_cdata "") ;; ret true).
Proof.
  intros Ho p b q Hrun Hb _.
  apply bind_Returns in Hrun as (x & p1 & Hnew & Hrun).
  apply bind_Returns in Hrun as ([] & p2 & Hpush & Hrun).
  apply bind_Returns in Hrun as ([] & p3 & [= <-] & [= _ <-]).
  injection Hnew as <- <-. rewrite push_unfold in Hpush. injection Hpush as <-.
  split; [|apply unbuffered_empty; reflexivity].
  destruct p as [e s d r [c k] st cd h]. destruct c, r; cbn;
    now apply blank_app.
Qed.

Lemma keeps_blank_begin_node (o : plist.Object) (rest : M bool) :
  dataish o = false -> calm rest ->
  keeps_blank (x <- New o ;; push x ;; rest).
Proof.
  intros Ho Hrest p b q Hrun Hb _.
  apply bind_Returns in Hrun as (x & p1 & Hnew & Hrun).
  apply bind_Returns in Hrun as ([] & p2 & Hpush & Hrun).
  injection Hnew as <- <-. rewrite push_unfold in Hpush.
  apply (keeps_blank_calm rest Hrest _ _ _ Hrun); injection Hpush as <-.
  - destruct p as [e s d r [c k] st cd h]. destruct c, r; cbn;
      apply blank_app; auto using textless_other.
  - intros a o' Hc Hr Hd. exfalso.
    destruct p as [e s d r [c k] st cd h]. destruct c, r; cbn in Hc, Hr;
      injection Hc as <-; rewrite (read_fresh_one h) in Hr;
      injection Hr as <-; congruence.
Qed.

Lemma keeps_blank_beginObject (name : string) : keeps_blank (beginObject name).
Proof.
  unfold beginObject. apply keeps_blank_bind; [apply keeps_blank_calm, calm_get|].
  intros p. cbv zeta.
  assert (Hvalue : keeps_blank
            (if negb (inContainer p) then error (not_in_container name) ;; ret false
             else if String.eqb name "array" then beginArray
             else if String.eqb name "dict" then beginDictionary
             else if String.eqb name "string" then beginString
             else if String.eqb name "integer" then beginInteger
             else if String.eqb name "real" then beginReal
             else if String.eqb name "true" then beginBoolean true
             else if String.eqb name "false" then beginBoolean false
             else if String.eqb name "null" then beginNull
             else if String.eqb name "data" then beginData
             else if String.eqb name "date" then beginDate
             else error (unexpected_element name) ;; ret false)).
  { repeat match goal with
           | |- keeps_blank (if ?c then _ else _) => destruct c
           end;
      try solve [apply keeps_blank_calm; calm_all];
      unfold beginArray, beginDictionary, beginString, beginInteger, beginReal,
        beginBoolean, beginNull, beginData, beginDate;
      first [ apply keeps_blank_begin_leaf; reflexivity
            | apply keeps_blank_begin_node; [reflexivity|calm_all] ]. }
  destruct (inDictionary p); [|exact Hvalue].
  destruct (String.eqb name "key").
  - destruct (negb (isExpectingKey p)); [apply keeps_blank_calm; calm_all|].
    unfold beginKey. intros p0 b q Hrun Hb _.
    apply bind_Returns in Hrun as ([] & p1 & [= <-] & [= _ <-]).
    split; [exact Hb|apply unbuffered_empty; reflexivity].
  - destruct (isExpectingKey p); [apply keeps_blank_calm; calm_all|exact Hvalue].
Qed.

Lemma keeps_blank_onStartElement (name : string) (attrs : string_map) (depth : nat) :
  keeps_blank (onStartElement name attrs depth).
Proof.
  intros p [] q Hrun Hb Hu. unfold onStartElement in Hrun.
  apply bind_Returns in Hrun as (dict & p1 & [= _ <-] & Hrun).
  destruct (no_text_stray p Hb Hu) as (Hb1 & Hu1).
  assert (Hkeeps : keeps_blank
            (if depth =? 0
             then when (negb (String.eqb name "plist")) (error (expecting_plist name))
             else
               p <- get ;;
               if (depth =? 1) && negb (is_null (_root p))
               then error (after_root name)
               else ok <- beginObject name ;; when (negb ok) stop)).
  { destruct (depth =? 0); [apply keeps_blank_calm; calm_all|].
    apply keeps_blank_bind; [apply keeps_blank_calm, calm_get|]. intros p0.
    destruct (_ && _); [apply keeps_blank_calm; calm_all|].
    apply keeps_blank_bind; [apply keeps_blank_beginObject|]. intros ok.
    apply keeps_blank_calm. calm_all. }
  exact (Hkeeps _ _ _ Hrun Hb1 Hu1).
Qed.

Lemma keeps_blank_onCharacterData (cdata : string) (depth : nat) :
  keeps_blank (onCharacterData cdata depth).
Proof.
  intros p [] q Hrun Hb Hu. unfold onCharacterData in Hrun.
  apply bind_Returns in Hrun as (p0 & p1 & [= <- <-] & Hrun).
  destruct (isExpectingCDATA p) eqn:He; cbn [negb] in Hrun.
  - injection Hrun as <-. split; [exact Hb|].
    intros a o Hc Hr Hd. exfalso. cbn [heap _state set_cdata] in Hc, Hr.
    unfold isExpectingCDATA, inDictionary, plist.CastTo in He.
    rewrite Hc, Hr in He. destruct o; discriminate.
  - exact (keeps_blank_calm _ (calm_reject_cdata cdata) _ _ _ Hrun Hb Hu).
Qed.

Lemma blank_attach (old : State) (p q : XMLParser) :
  blank (heap p) -> attach old p = Returns tt q -> blank (heap q).
Proof.
  intros Hb. unfold attach. run.
  destruct (plist.CastTo plist.kArray (heap p) (current (_state p))) as [array|].
  - unfold Array_append, member. run.
    destruct (plist.read (heap p) array) as [o|]; [|discriminate].
    destruct o; try discriminate. intros [= <-]. now apply blank_write.
  - destruct (plist.CastTo plist.kDictionary (heap p) (current (_state p)))
      as [dict|]; [|now intros [= <-]].
    destruct (negb (isExpectingKey p)); [|now intros [= <-]].
    unfold Dictionary_set, member. run.
    destruct (plist.read (heap p) dict) as [o|]; [|discriminate].
    destruct o; try discriminate.
    destruct (plist.find_entry _ _) as [old'|].
    + destruct (Object_release old' p) as [[] p1| |] eqn:Hrel; try discriminate.
      intros [= <-]. destruct (blank_release _ _ _ Hb Hrel) as [Hb1 _].
      now apply blank_write.
    + intros [= <-]. now apply blank_write.
Qed.

Lemma blank_pop (p q : XMLParser) :
  blank (heap p) -> pop p = Returns tt q -> blank (heap q) /\ unbuffered q.
Proof.
  intros Hb Hrun. rewrite pop_unfold in Hrun.
  destruct (_ && _) eqn:Hcond.
  { injection Hrun as <-. split; [exact Hb|]. intros a o Hc _ _.
    apply andb_true_iff in Hcond as [_ Hnull]. cbn [_state set_errors] in Hc.
    rewrite Hc in Hnull. discriminate. }
  destruct (ptr_eqb _ _).
  { injection Hrun as <-. split; [exact Hb|apply unbuffered_empty; reflexivity]. }
  destruct (last (_stack p)) as [top|]; [|discriminate].
  destruct (attach (_state p) (restore top p)) as [[] q'| |] eqn:Hatt;
    try discriminate.
  injection Hrun as <-.
  split; [|apply unbuffered_empty; reflexivity].
  exact (blank_attach _ (restore top p) _ Hb Hatt).
Qed.

Lemma blank_then_pop (m : M unit) (p : XMLParser) (b : bool) (q : XMLParser) :
  (forall p1, m p = Returns tt p1 -> blank (heap p1)) ->
  (m ;; pop ;; ret true) p = Returns b q ->
  blank (heap q) /\ unbuffered q.
Proof.
  intros Hm Hrun. apply bind_Returns in Hrun as ([] & p1 & Hset & Hrun).
  apply bind_Returns in Hrun as ([] & q' & Hpop & [= _ <-]).
  exact (blank_pop _ _ (Hm _ Hset) Hpop).
Qed.

(** A setter that stores into the node it is called on. *)
Lemma blank_setter (p q : XMLParser) (this : ptr)
    (body : nat -> plist.Object -> M unit) :
  blank (heap p) ->
  (forall a o p' q', body a o p' = Returns tt q' ->
     exists o', textless o' /\ q' = set_heap (plist.write a o' (heap p')) p') ->
  member this body p = Returns tt q ->
  blank (heap q).
Proof.
  intros Hb Hbody Hrun. unfold member in Hrun.
  destruct this as [a|]; [|discriminate].
  revert Hrun. run. destruct (plist.read (heap p) a) as [o|]; [|discriminate].
  intros Hrun. destruct (Hbody _ _ _ _ Hrun) as (o' & Ho' & ->).
  now apply blank_write.
Qed.

Ltac textless_body :=
  let a := fresh in let o := fresh in
  intros a o ? ?; destruct o; try discriminate; intros [= <-];
  eexists; split; [|reflexivity]; exact I.

(** The text that [endData] and [endDate] store is the empty buffer. *)
Lemma dataish_cast (p : XMLParser) (T : plist.ObjectType) (a : nat) :
  unbuffered p ->
  T = plist.kData \/ T = plist.kDate ->
  plist.CastTo T (heap p) (current (_state p)) = Some a ->
  _cdata p = "".
Proof.
  intros Hu HT Hcast. apply CastTo_Some in Hcast as (Hc & o & Hr & Ht).
  apply (Hu a o Hc Hr). destruct HT as [-> | ->]; destruct o; try discriminate;
    reflexivity.
Qed.

Lemma keeps_blank_endObject (name : string) : keeps_blank (endObject name).
Proof.
  intros p b q Hrun Hb Hu. revert Hrun. unfold endObject.
  repeat match goal with
         | |- (if ?c then _ else _) p = _ -> _ => destruct c
         end;
    unfold endArray, endDictionary, endBoolean, endNull;
    try solve [intros Hrun; apply (blank_then_pop (ret tt) p b q);
               [now intros p1 [= <-]|exact Hrun]];
    try solve [intros Hrun;
               refine (keeps_blank_calm _ _ _ _ _ Hrun Hb Hu); calm_all].
  - (* key *)
    unfold endKey. intros Hrun.
    apply bind_Returns in Hrun as ([] & p1 & [= <-] & [= _ <-]).
    split; [exact Hb|apply unbuffered_empty; reflexivity].
  - (* string *)
    unfold endString. intros Hrun.
    apply bind_Returns in Hrun as (p0 & p1 & [= <- <-] & Hrun).
    eapply blank_then_pop; [|exact Hrun]. intros p1.
    apply blank_setter; [exact Hb|textless_body].
  - (* integer *)
    unfold endInteger. intros Hrun.
    apply bind_Returns in Hrun as (p0 & p1 & [= <- <-] & Hrun).
    apply bind_Returns in Hrun as (v & p2 & Hconv & Hrun).
    destruct (stoi (_cdata p)); [|discriminate]. injection Hconv as <- <-.
    eapply blank_then_pop; [|exact Hrun]. intros p1.
    apply blank_setter; [exact Hb|textless_body].
  - (* real *)
    unfold endReal. intros Hrun.
    apply bind_Returns in Hrun as (p0 & p1 & [= <- <-] & Hrun).
    apply bind_Returns in Hrun as (d & p2 & Hconv & Hrun).
    destruct (stod (_cdata p)); [|discriminate]. injection Hconv as <- <-.
    eapply blank_then_pop; [|exact Hrun]. intros p1.
    destruct (plist.CastTo plist.kInteger (heap p) (current (_state p)))
      as [this|]; [|discriminate].
    destruct (int64_of_double v) as [z|]; [|discriminate].
    apply blank_setter; [exact Hb|textless_body].
  - (* data *)
    unfold endData. intros Hrun.
    apply bind_Returns in Hrun as (p0 & p1 & [= <- <-] & Hrun).
    eapply blank_then_pop; [|exact Hrun]. intros p1.
    destruct (plist.CastTo plist.kData (heap p) (current (_state p)))
      as [this|] eqn:Hcast; [|discriminate].
    rewrite (dataish_cast p plist.kData this Hu (or_introl eq_refl) Hcast).
    apply blank_setter; [exact Hb|].
    intros a o ? ?; destruct o; try discriminate; intros [= <-].
    eexists. split; [|reflexivity]. reflexivity.
  - (* date *)
    unfold endDate. intros Hrun.
    apply bind_Returns in Hrun as (p0 & p1 & [= <- <-] & Hrun).
    eapply blank_then_pop; [|exact Hrun]. intros p1.
    destruct (plist.CastTo plist.kDate (heap p) (current (_state p)))
      as [this|] eqn:Hcast; [|discriminate].
    rewrite (dataish_cast p plist.kDate this Hu (or_intror eq_refl) Hcast).
    apply blank_setter; [exact Hb|].
    intros a o ? ?; destruct o; try discriminate; intros [= <-].
    eexists. split; [|reflexivity]. reflexivity.
Qed.

Lemma keeps_blank_deliver (e : event) : keeps_blank (deliver e).
Proof.
  intros p [] q Hrun Hb Hu. unfold deliver in Hrun.
  apply bind_Returns in Hrun as (d & p0 & [= <- <-] & Hrun).
  destruct e as [name attrs|text|name].
  - apply bind_Returns in Hrun as ([] & q' & Hrun & [= <-]).
    exact (keeps_blank_onStartElement _ _ _ _ _ _ Hrun Hb Hu).
  - exact (keeps_blank_onCharacterData _ _ _ _ _ Hrun Hb Hu).
  - apply bind_Returns in Hrun as ([] & p1 & [= <-] & Hrun).
    unfold onEndElement in Hrun.
    apply bind_Returns in Hrun as (ok & p2 & Hend & Hstop).
    destruct (keeps_blank_endObject name _ _ _ Hend) as (Hb2 & Hu2);
      [exact Hb|exact Hu|].
    refine (keeps_blank_calm _ _ _ _ _ Hstop Hb2 Hu2). calm_all.
Qed.

Lemma keeps_blank_deliver_all (events : list event) :
  keeps_blank (deliver_all events).
Proof.
  induction events as [|e events IH]; intros p [] q Hrun Hb Hu.
  - injection Hrun as <-. auto.
  - rewrite deliver_all_cons in Hrun.
    destruct (_stopped p); [injection Hrun as <-; auto|].
    destruct (deliver e p) as [[] p1| |] eqn:He; try discriminate.
    destruct (keeps_blank_deliver e _ _ _ He Hb Hu) as (Hb1 & Hu1).
    exact (IH _ _ _ Hrun Hb1 Hu1).
Qed.

Lemma blank_release_frames (frames : list State) (p q : XMLParser) :
  blank (heap p) -> release_frames frames p = Returns tt q -> blank (heap q).
Proof.
  revert p. induction frames as [|f frames IH]; intros p Hb Hrun.
  - now injection Hrun as <-.
  - cbn [release_frames] in Hrun.
    apply bind_Returns in Hrun as (p0 & p1 & [= <- <-] & Hrun).
    apply bind_Returns in Hrun as ([] & p1 & Hrel & Hrun).
    apply (IH p1); [|exact Hrun].
    destruct (_ && _); cbn [when] in Hrel.
    + now destruct (blank_release _ _ _ Hb Hrel).
    + now injection Hrel as <-.
Qed.

Lemma blank_onEndParse (success : bool) (p q : XMLParser) :
  blank (heap p) -> onEndParse success p = Returns tt q -> blank (heap q).
Proof.
  intros Hb Hrun. unfold onEndParse in Hrun.
  apply bind_Returns in Hrun as ([] & p1 & Hrun & [= <-]).
  cbn [heap set_cdata set_state].
  destruct success; cbn [negb when] in Hrun; [now injection Hrun as <-|].
  apply bind_Returns in Hrun as (p0 & p2 & [= <- <-] & Hrun).
  apply bind_Returns in Hrun as ([] & p2 & Hcur & Hrun).
  apply bind_Returns in Hrun as ([] & p3 & Hframes & Hrun).
  apply bind_Returns in Hrun as ([] & p4 & [= <-] & Hrun).
  assert (Hb2 : blank (heap p2)).
  { destruct (_ && _); cbn [when] in Hcur.
    - now destruct (blank_release _ _ _ Hb Hcur).
    - now injection Hcur as <-. }
  pose proof (blank_release_frames _ _ _ Hb2 Hframes) as Hb3.
  destruct (negb (is_null (_root p))); cbn [when] in Hrun.
  - apply bind_Returns in Hrun as ([] & p5 & Hrel & [= <-]).
    cbn [heap set_root].
    now destruct (blank_release (set_stack [] p3) p5 (_root p) Hb3 Hrel).
  - now injection Hrun as <-.
Qed.

(** X19 — no parse gives a data or a date node its text.  [isExpectingCDATA]
    names neither node, so no text is buffered while one of them is the
    current node, and the buffer is empty when [endData] or [endDate] store
    it.  On a store in which no data or date node has text (an empty store
    is one), whatever the document, when [parse] returns, with a node or
    with null, still no data or date node of the store has text. *)
Theorem data_and_date_nodes_stay_empty (p : XMLParser) (fp : xml) (r : ptr)
    (q : XMLParser) :
  blank (heap p) ->
  parse_fp fp p = Returns r q ->
  forall a text,
    plist.read (heap q) a = Some (plist.Data text) \/
    plist.read (heap q) a = Some (plist.Date text) ->
    text = "".
Proof.
  intros Hb Hrun.
  assert (Hq : blank (heap q)).
  { destruct (_root p) as [r0|] eqn:Hroot.
    - unfold parse_fp in Hrun. revert Hrun. run. rewrite Hroot.
      now intros [= _ <-].
    - rewrite parse_fp_unfold in Hrun by exact Hroot.
      destruct (deliver_all (events_of fp) (begin p)) as [[] q0| |] eqn:Hevents;
        try discriminate.
      destruct (keeps_blank_deliver_all _ _ _ _ Hevents) as (Hb0 & _);
        [exact Hb|intros a o Hc; discriminate|].
      destruct (onEndParse (negb (_stopped q0)) q0) as [[] q1| |] eqn:Hend;
        try discriminate.
      pose proof (blank_onEndParse _ _ _ Hb0 Hend) as Hb1.
      destruct (_stopped q0); now injection Hrun as _ <-. }
  intros a text [Hr|Hr]; exact (Hq a _ Hr).
Qed.

End Properties.

(** ** The properties on documents and states *)

#[local] Existing Instance decimal_reading.

Lemma real_close_never_stores_witness :
  current (_state open_real_state) = Some 0 /\
  plist.read (heap open_real_state) 0 = Some (plist.Real (mkDecimal 0 0)) /\
  onEndElement "real" 1 open_real_state = Undefined.
Proof.
  split; [reflexivity|]. split; [reflexivity|].
  exact (real_close_never_stores open_real_state 0 (mkDecimal 0 0) 1 eq_refl eq_refl).
Defined.

(** [<plist><real>1.5</real></plist>]: the behaviour of the parse is
    undefined at the close of the element. *)
Example real_document_parse :
  parse_fp (real_document "1.5") XMLParser_new = Undefined.
Proof. reflexivity. Qed.

(** C2 (what the code does) — a document with a wrapper other than [plist]
    is not refused.  For [<array><true/></array>] the wrapper is reported,
    but no stop is requested: the parse runs to its end and [parse] returns
    the root made from [true], a live node; the two dictionaries that
    [onStartElement] allocated with [new] are still in the store. *)
Lemma wrong_wrapper_parse_returns_root :
  exists q,
    parse_fp wrong_wrapper_document XMLParser_new = Returns (Some 2) q /\
    _errors q = [expecting_plist "array"] /\
    _stopped q = false /\
    _root q = Some 2 /\
    heap q =
      [plist.Live plist.operator_new (plist.Dictionary []);
       plist.Live plist.operator_new (plist.Dictionary []);
       plist.Live plist.factory (plist.Boolean true)].
Proof.
  generalize decimal_reading. intros model.
  eexists. split; [vm_compute; reflexivity|]. repeat split.
Qed.

Lemma failed_parse_rolls_back_witness :
  _root XMLParser_new = nullptr /\
  _stack XMLParser_new = [] /\
  deliver_all (events_of unknown_element_document) (begin XMLParser_new)
  = Returns tt stopped_at_unknown_element /\
  _stopped stopped_at_unknown_element = true /\
  exists q' messages,
    parse_fp unknown_element_document XMLParser_new = Returns nullptr q' /\
    _errors q' = _errors XMLParser_new ++ messages /\ messages <> [] /\
    _root q' = nullptr /\ current (_state q') = nullptr /\ _stack q' = [] /\
    (forall x, x < length (heap XMLParser_new) ->
               heap q' !! x = heap XMLParser_new !! x) /\
    (forall a o, length (heap XMLParser_new) <= a ->
                 heap q' !! a <> Some (plist.Live plist.factory o)).
Proof.
  split; [reflexivity|]. split; [reflexivity|].
  split; [reflexivity|]. split; [reflexivity|].
  apply (failed_parse_rolls_back XMLParser_new unknown_element_document
           stopped_at_unknown_element);
    [reflexivity|reflexivity|reflexivity|reflexivity].
Defined.

Lemma data_text_is_rejected_witness :
  unexpected "AAAA" <> 0 /\
  exists q,
    parse_fp (data_document "AAAA") XMLParser_new = Returns nullptr q /\
    _errors q = repeat "unexpected cdata" (unexpected "AAAA") /\
    _stopped q = true /\
    forall a o, heap q !! a <> Some (plist.Live plist.factory o).
Proof.
  split; [vm_compute; discriminate|].
  apply (data_text_is_rejected "AAAA"). vm_compute. discriminate.
Defined.


(** [<plist><integer>notanumber</integer></plist>]: the parse ends in the
    exception of [std::stoi]; no message was delivered, and the node still
    holds the value it was made with. *)
Lemma malformed_integer_is_not_reported :
  exists q,
    parse_fp (integer_document "notanumber") XMLParser_new
    = Throws invalid_argument q /\
    _errors q = [] /\
    _stopped q = false /\
    heap q !! 2 = Some (plist.Live plist.factory (plist.Integer 0)).
Proof.
  generalize decimal_reading. intros model.
  eexists. split; [vm_compute; reflexivity|]. repeat split.
Qed.

Lemma integer_close_throws_witness :
  stoi (_cdata open_integer_state) = Raises invalid_argument /\
  onEndElement "integer" 1 open_integer_state
  = Throws invalid_argument open_integer_state.
Proof.
  split; [reflexivity|].
  exact (integer_close_throws open_integer_state invalid_argument 1 eq_refl).
Defined.

(** Text that only begins with digits is converted without complaint. *)
Example integer_with_trailing_text :
  stoi "12abc" = Value 12%Z /\
  exists q,
    parse_fp (integer_document "12abc") XMLParser_new = Returns (Some 2) q /\
    _errors q = [] /\
    heap q !! 2 = Some (plist.Live plist.factory (plist.Integer 12)).
Proof.
  split; [reflexivity|]. generalize decimal_reading. intros model.
  eexists. split; [vm_compute; reflexivity|]. repeat split.
Qed.

Lemma dictionary_alternation_witness :
  _stopped keyed_dictionary_state = false /\
  2 <= _depth keyed_dictionary_state /\
  inDictionary keyed_dictionary_state = true /\
  valid (key (_state keyed_dictionary_state)) = String.eqb "key" "key" /\
  exists q,
    deliver_all (StartElement "key" [] :: [CharacterData "y"]) keyed_dictionary_state
    = Returns tt q /\
    _errors q = _errors keyed_dictionary_state ++ [unexpected_key] /\
    _stopped q = true /\
    _root q = _root keyed_dictionary_state /\
    _state q = _state keyed_dictionary_state /\
    _stack q = _stack keyed_dictionary_state.
Proof.
  split; [reflexivity|]. split; [cbn; lia|]. split; [reflexivity|].
  split; [reflexivity|].
  exact (dictionary_alternation keyed_dictionary_state "key" []
           [CharacterData "y"] eq_refl ltac:(cbn; lia) eq_refl eq_refl).
Defined.

(** Scenario 4, [<plist><dict><key>x</key><key>y</key></dict></plist>]:
    the second key is reported and the parse returns null. *)
Example two_keys_document_parse :
  exists q,
    parse_fp two_keys_document XMLParser_new = Returns nullptr q /\
    _errors q = [unexpected_key].
Proof.
  generalize decimal_reading. intros model.
  eexists. split; [vm_compute; reflexivity|]. reflexivity.
Qed.

Lemma root_is_first_pushed_witness :
  (onBeginParse ;; push (Some 0) ;; run_ops string_in_array) two_nodes_parser
  = Returns tt after_string_in_array /\
  _root after_string_in_array = Some 0.
Proof.
  split; [reflexivity|].
  apply (root_is_first_pushed two_nodes_parser 0 string_in_array).
  reflexivity.
Defined.

Lemma parse_refuses_with_root_witness :
  _root used_parser <> nullptr /\
  parse_path (fun _ => Some two_roots_document) "Info.plist" used_parser
  = Returns nullptr used_parser /\
  parse_fp two_roots_document used_parser = Returns nullptr used_parser.
Proof.
  split; [discriminate|].
  apply (parse_refuses_with_root used_parser). discriminate.
Defined.

Lemma pop_restore_finds_frame_witness :
  (onBeginParse ;; run_ops (Push 0 :: string_in_array)) two_nodes_parser
  = Returns tt after_string_in_array /\
  back_defined after_string_in_array /\
  (_stack after_string_in_array = [] ->
   pop after_string_in_array
   = if is_null (current (_state after_string_in_array))
     then error "stack underflow" after_string_in_array
     else Returns tt (set_cdata "" after_string_in_array)).
Proof.
  split; [reflexivity|].
  apply (pop_restore_finds_frame two_nodes_parser (Push 0 :: string_in_array)).
  reflexivity.
Defined.

Lemma unexpected_text_is_reported_per_character_witness :
  isExpectingCDATA keyed_dictionary_state = false /\
  exists q,
    onCharacterData "a b" 2 keyed_dictionary_state = Returns tt q /\
    _errors q = _errors keyed_dictionary_state
                ++ repeat "unexpected cdata" (unexpected "a b") /\
    _stopped q = (_stopped keyed_dictionary_state
                  || negb (unexpected "a b" =? 0)) /\
    _cdata q = _cdata keyed_dictionary_state /\
    heap q = heap keyed_dictionary_state /\
    _root q = _root keyed_dictionary_state /\
    _state q = _state keyed_dictionary_state /\
    _stack q = _stack keyed_dictionary_state.
Proof.
  split; [reflexivity|].
  apply (unexpected_text_is_reported_per_character keyed_dictionary_state "a b" 2).
  reflexivity.
Defined.

Lemma text_in_pieces_is_text_in_one_piece_witness :
  isExpectingCDATA open_integer_state = true /\
  _stopped open_integer_state = false /\
  deliver_all (map CharacterData ["1"; "2"] ++ [EndElement "integer"])
    open_integer_state =
  deliver_all (CharacterData (joined ["1"; "2"]) :: [EndElement "integer"])
    open_integer_state.
Proof.
  split; [reflexivity|]. split; [reflexivity|].
  apply (text_in_pieces_is_text_in_one_piece open_integer_state ["1"; "2"]
           [EndElement "integer"]);
    reflexivity.
Defined.

Lemma date_text_is_rejected_witness :
  unexpected "2015-01-01" <> 0 /\
  exists q,
    parse_fp (date_document "2015-01-01") XMLParser_new = Returns nullptr q /\
    _errors q = repeat "unexpected cdata" (unexpected "2015-01-01") /\
    _stopped q = true /\
    forall a o, heap q !! a <> Some (plist.Live plist.factory o).
Proof.
  split; [vm_compute; discriminate|].
  apply (date_text_is_rejected "2015-01-01"). vm_compute. discriminate.
Defined.

Lemma leaf_after_root_is_undefined_witness :
  text_leaf "string" = Some plist.kString /\
  _stopped after_root_array = false /\
  _depth after_root_array = 1 /\
  _root after_root_array <> nullptr /\
  plist.CastTo plist.kString (heap after_root_array)
    (current (_state after_root_array)) = nullptr /\
  deliver_all (StartElement "string" [] :: EndElement "string"
               :: [EndElement "plist"]) after_root_array
  = Undefined.
Proof.
  split; [reflexivity|]. split; [reflexivity|]. split; [reflexivity|].
  split; [discriminate|]. split; [reflexivity|].
  apply (leaf_after_root_is_undefined after_root_array "string" plist.kString []
           [EndElement "plist"]);
    [reflexivity|reflexivity|reflexivity|discriminate|reflexivity].
Defined.

Lemma saved_frames_take_children_witness :
  _stack XMLParser_new = [] /\
  deliver_all nested_prefix (begin XMLParser_new)
  = Returns tt inside_nested_document /\
  Forall (parent_frame (heap inside_nested_document))
    (_stack inside_nested_document) /\
  (current (_state inside_nested_document) <> _root inside_nested_document ->
   exists top, last (_stack inside_nested_document) = Some top /\
               parent_frame (heap inside_nested_document) top).
Proof.
  split; [reflexivity|]. split; [reflexivity|].
  apply (saved_frames_take_children XMLParser_new nested_prefix
           inside_nested_document);
    reflexivity.
Defined.

Lemma held_nodes_are_distinct_witness :
  _stack XMLParser_new = [] /\
  deliver_all nested_prefix (begin XMLParser_new)
  = Returns tt inside_nested_document /\
  _root inside_nested_document <> nullptr /\
  let nodes := map current (_stack inside_nested_document)
               ++ [current (_state inside_nested_document)] in
  NoDup nodes /\
  head nodes = Some (_root inside_nested_document) /\
  forall n, n ∈ nodes ->
    exists a o, n = Some a /\ length (heap XMLParser_new) <= a /\
                plist.read (heap inside_nested_document) a = Some o.
Proof.
  split; [reflexivity|]. split; [reflexivity|]. split; [discriminate|].
  apply (held_nodes_are_distinct XMLParser_new nested_prefix
           inside_nested_document);
    [reflexivity|reflexivity|discriminate].
Defined.

Lemma complete_document_leaves_no_frame_witness :
  _stack XMLParser_new = [] /\
  deliver_all (events_of nested_document) (begin XMLParser_new)
  = Returns tt after_nested_document /\
  _stopped after_nested_document = false /\
  _stack after_nested_document = [] /\
  _depth after_nested_document = 0 /\
  current (_state after_nested_document) = _root after_nested_document.
Proof.
  split; [reflexivity|]. split; [reflexivity|]. split; [reflexivity|].
  apply (complete_document_leaves_no_frame XMLParser_new nested_document
           after_nested_document);
    reflexivity.
Defined.

Lemma parsed_root_owns_every_node_witness :
  _root XMLParser_new = nullptr /\
  _stack XMLParser_new = [] /\
  parse_fp nested_document XMLParser_new
  = Returns (Some 2) parsed_nested_document /\
  _root parsed_nested_document = Some 2 /\
  current (_state parsed_nested_document) = nullptr /\
  _stack parsed_nested_document = [] /\
  _stopped parsed_nested_document = false /\
  (forall x, x < length (heap XMLParser_new) ->
             heap parsed_nested_document !! x = heap XMLParser_new !! x) /\
  exists ns,
    owns (heap parsed_nested_document) (Some 2) ns /\ NoDup ns /\
    forall a o, length (heap XMLParser_new) <= a ->
                heap parsed_nested_document !! a
                = Some (plist.Live plist.factory o) -> a ∈ ns.
Proof.
  split; [reflexivity|]. split; [reflexivity|]. split; [reflexivity|].
  apply (parsed_root_owns_every_node XMLParser_new nested_document 2
           parsed_nested_document);
    reflexivity.
Defined.

Lemma parser_is_single_use_witness :
  parse_fp nested_document XMLParser_new
  = Returns (Some 2) parsed_nested_document /\
  _root parsed_nested_document = Some 2 /\
  parse_fp two_roots_document parsed_nested_document
  = Returns nullptr parsed_nested_document /\
  parse_path (fun _ => Some two_roots_document) "Info.plist"
    parsed_nested_document
  = Returns nullptr parsed_nested_document.
Proof.
  split; [reflexivity|].
  apply (parser_is_single_use XMLParser_new nested_document 2
           parsed_nested_document two_roots_document
           (fun _ => Some two_roots_document) "Info.plist").
  reflexivity.
Defined.

Lemma bare_element_underflows_witness :
  In "array" textless_elements /\
  _root XMLParser_new = nullptr /\
  _stack XMLParser_new = [] /\
  exists q,
    parse_fp (element "array" []) XMLParser_new = Returns nullptr q /\
    _errors q = _errors XMLParser_new
                ++ [expecting_plist "array"; "stack underflow"] /\
    _stopped q = false /\
    _root q = nullptr /\
    heap q = heap XMLParser_new
             ++ [plist.Live plist.operator_new (plist.Dictionary [])].
Proof.
  split; [left; reflexivity|]. split; [reflexivity|]. split; [reflexivity|].
  apply (bare_element_underflows XMLParser_new "array");
    [left; reflexivity|reflexivity|reflexivity].
Defined.

Lemma empty_plist_is_null_without_message_witness :
  Forall (fun c => unexpected c = 0) [" "; "  "] /\
  exists q,
    parse_fp (text_only_document [" "; "  "]) XMLParser_new = Returns nullptr q /\
    _errors q = [] /\
    _stopped q = false /\
    _root q = nullptr.
Proof.
  split; [repeat constructor|].
  apply (empty_plist_is_null_without_message [" "; "  "]). repeat constructor.
Defined.

Lemma written_value_is_parsed_back_witness :
  well_written sample_tree = true /\
  _root XMLParser_new = nullptr /\
  _stack XMLParser_new = [] /\
  exists q,
    parse_fp (plist_document sample_tree) XMLParser_new
    = Returns (Some (2 + length (heap XMLParser_new))) q /\
    _errors q = _errors XMLParser_new /\
    _stopped q = false /\
    _root q = Some (2 + length (heap XMLParser_new)) /\
    represents (heap q) (Some (2 + length (heap XMLParser_new))) sample_tree /\
    forall a, a < length (heap XMLParser_new) ->
              heap q !! a = heap XMLParser_new !! a.
Proof.
  split; [reflexivity|]. split; [reflexivity|]. split; [reflexivity|].
  apply (written_value_is_parsed_back sample_tree XMLParser_new); reflexivity.
Defined.

(** Text with the byte 0xE9 after the start of [plist]. *)
Lemma undefined_at_leaf_close_or_stray_byte_witness :
  _stack XMLParser_new = [] /\
  deliver_all [StartElement "plist" []] (begin XMLParser_new)
  = Returns tt inside_empty_plist /\
  deliver_strict (CharacterData (String "233" "")) inside_empty_plist = Undefined /\
  ((exists name T,
      CharacterData (String "233" "") = EndElement name /\
      cast_of name = Some T /\
      (plist.CastTo T (heap inside_empty_plist)
         (current (_state inside_empty_plist)) = nullptr \/
       (name = "real" /\
        exists d, stod (_cdata inside_empty_plist) = Value d /\
                  int64_of_double d = None))) \/
   (exists text,
      CharacterData (String "233" "") = CharacterData text /\
      isExpectingCDATA inside_empty_plist = false /\
      unspecified text = true)).
Proof.
  split; [reflexivity|]. split; [reflexivity|]. split; [reflexivity|].
  apply (undefined_at_leaf_close_or_stray_byte XMLParser_new
           [StartElement "plist" []] inside_empty_plist
           (CharacterData (String "233" "")));
    reflexivity.
Defined.

(** The end of a [real] element is undefined under both readings. *)
Example real_close_is_undefined_strictly :
  deliver_all real_prefix (begin XMLParser_new) = Returns tt inside_real_document /\
  deliver_strict (EndElement "real") inside_real_document = Undefined.
Proof. split; reflexivity. Qed.

Lemma every_element_leaks_a_dictionary_witness :
  unreferenced XMLParser_new /\
  parse_fp nested_document XMLParser_new
  = Returns (Some 2) parsed_nested_document /\
  unreferenced parsed_nested_document /\
  strays (heap XMLParser_new) <= strays (heap parsed_nested_document) /\
  (Some 2 <> nullptr ->
   strays (heap parsed_nested_document)
   = strays (heap XMLParser_new) + elements nested_document) /\
  (_root XMLParser_new = nullptr -> 1 <= elements nested_document ->
   strays (heap XMLParser_new) < strays (heap parsed_nested_document)).
Proof.
  split; [exact unreferenced_new|]. split; [reflexivity|].
  apply (every_element_leaks_a_dictionary XMLParser_new nested_document (Some 2)
           parsed_nested_document);
    [exact unreferenced_new|reflexivity].
Defined.

Lemma data_and_date_nodes_stay_empty_witness :
  blank (heap XMLParser_new) /\
  parse_fp empty_leaves_document XMLParser_new
  = Returns (Some 2) parsed_empty_leaves /\
  forall a text,
    plist.read (heap parsed_empty_leaves) a = Some (plist.Data text) \/
    plist.read (heap parsed_empty_leaves) a = Some (plist.Date text) ->
    text = "".
Proof.
  split; [intros a o Hr; discriminate|]. split; [reflexivity|].
  apply (data_and_date_nodes_stay_empty XMLParser_new empty_leaves_document
           (Some 2) parsed_empty_leaves);
    [intros a o Hr; discriminate|reflexivity].
Defined.
